(** * Two MCP servers: Interactive Brokers over SQS, and 1Password

    A shallow embedding of

    - [ibkr_mcp/sqs_client.py]: [SQSClient.__init__], [SQSClient.send_request],
      [SQSClient._wait_for_response], the polling loop that correlates a
      response with its request through the [ExecutionId] message attribute,
      and the convenience methods;
    - [ibkr_mcp/server.py]: [get_sqs_client], [handle_error], which tells the
      two client exceptions apart, and [call_tool];
    - [onepassword_mcp/security.py]: [VaultFilter], [FieldRedactor.redact_field]
      and [RateLimiter];
    - [onepassword_mcp/client.py]: the methods of [OnePasswordClient];
    - [onepassword_mcp/server.py]: [get_client], [get_rate_limiter],
      [handle_error], the handlers and [call_tool].

    The first definitions of the SQS client follow it while boto3 raises
    nothing but [ClientError] and [json.loads] nothing but [JSONDecodeError];
    the module [Full] follows an exception of any class.

    Python floats that hold seconds are rationals in the first definitions.
    The backoff values 0.5 * 1.5^k below the 5 second cap are dyadic and exact
    in binary floating point, so the delays the loop computes are the same
    numbers.  The rate limiter subtracts clock readings, which rounds: the
    module [OnFloats] follows it on floats.
    Strings are the bytes of their UTF-8 text; the string methods that depend
    on Unicode ([lower], [upper], [strip]) are left to the world. *)

From Stdlib Require Import QArith Qminmax Lqa Floats.
From stdpp Require Import gmap strings list pretty.

Local Open Scope string_scope.
Local Open Scope list_scope.

(** ** Python values *)

(** What [json.loads] yields and what a request dictionary holds. *)
#[local] Unset Elimination Schemes.
Inductive pyvalue :=
| PNone
| PBool (b : bool)
| PInt (z : Z)
| PStr (s : string)
| PList (l : list pyvalue)
| PDict (d : list (string * pyvalue)).
#[local] Set Elimination Schemes.

(** A [dict] with string keys. *)
Abbreviation pydict := (gmap string pyvalue).

(** ** SQS messages *)

(** One entry of [MessageAttributes]; [.get("StringValue")] may find nothing. *)
Record MessageAttributeValue := { StringValue : option string }.

(** A message of a [receive_message] response.  [MessageAttributes] is only
    present when the message carries a requested attribute. *)
Record Message := {
  MessageAttributes : option (gmap string MessageAttributeValue);
  ReceiptHandle : string;
  Body : string
}.

(** [message.get("MessageAttributes", {}).get("ExecutionId", {}).get("StringValue")] *)
Definition msg_execution_id (message : Message) : option string :=
  match MessageAttributes message with
  | None => None
  | Some attrs =>
      match attrs !! "ExecutionId" with
      | None => None
      | Some a => StringValue a
      end
  end.

(** [msg_execution_id == execution_id], the right side a [str]. *)
Definition id_matches (execution_id : string) (message : Message) : bool :=
  bool_decide (msg_execution_id message = Some execution_id).

(** ** Exceptions *)

(** [botocore.exceptions.ClientError], with its text. *)
Record ClientError := { client_error_text : string }.

Inductive exn :=
| BotoClientError (e : ClientError)
| SQSClientError (msg : string)
| SQSTimeoutError (msg : string).

Inductive exn_class := ClsException | ClsClientError | ClsSQSClientError | ClsSQSTimeoutError.

Definition class_of (e : exn) : exn_class :=
  match e with
  | BotoClientError _ => ClsClientError
  | SQSClientError _ => ClsSQSClientError
  | SQSTimeoutError _ => ClsSQSTimeoutError
  end.

(** [class SQSClientError(Exception)], [class SQSTimeoutError(SQSClientError)]. *)
Definition issubclass (c d : exn_class) : bool :=
  match c, d with
  | _, ClsException => true
  | ClsClientError, ClsClientError => true
  | ClsSQSClientError, ClsSQSClientError => true
  | ClsSQSTimeoutError, ClsSQSClientError => true
  | ClsSQSTimeoutError, ClsSQSTimeoutError => true
  | _, _ => false
  end.

Definition isinstance (e : exn) (c : exn_class) : bool := issubclass (class_of e) c.

(** The three texts [handle_error] in [server.py] can answer with. *)
Inductive error_report := ReportTimedOut | ReportCommunication | ReportUnexpected.

Definition handle_error (error : exn) : error_report :=
  if isinstance error ClsSQSTimeoutError then ReportTimedOut
  else if isinstance error ClsSQSClientError then ReportCommunication
  else ReportUnexpected.

(** ** The outside world *)

Inductive loglevel := LogInfo | LogWarning | LogDebug.

(** What the client does to the outside, with the answer it got. *)
Inductive event :=
| EvSend (queue : string) (message : pydict) (r : option ClientError)
| EvReceive (queue : string) (max_number wait_time : Z)
            (r : ClientError + option (list Message))
| EvChangeVisibility (queue handle : string) (visibility : Z) (r : option ClientError)
| EvDelete (queue handle : string) (r : option ClientError)
| EvSleep (seconds : Q)
| EvLog (level : loglevel) (msg : string).

(** The boto3 SQS client.  A call either raises [ClientError] or answers; the
    answer of [receive_message] is a dictionary that may lack ["Messages"]. *)
Class SQS (W : Type) := {
  sqs_send_message : string -> string -> W -> option ClientError * W;
  sqs_receive_message : string -> Z -> Z -> W -> (ClientError + option (list Message)) * W;
  sqs_change_message_visibility : string -> string -> Z -> W -> option ClientError * W;
  sqs_delete_message : string -> string -> W -> option ClientError * W
}.

(** [datetime.now()] in seconds with [.isoformat()], [time.sleep],
    [str(uuid4())]. *)
Class Runtime (W : Type) := {
  datetime_now : W -> Q;
  isoformat : Q -> string;
  time_sleep : Q -> W -> W;
  uuid4 : W -> string * W
}.

(** [json.dumps] of a request, and [json.loads], which raises
    [JSONDecodeError] (left, with its text) or yields a value. *)
Class Json := {
  json_dumps : pydict -> string;
  json_loads : string -> string + pyvalue
}.

(** ** Computations: state, exceptions and the list of events *)

Inductive outcome (A : Type) :=
| Ok (a : A)
| Raise (e : exn).
Arguments Ok {A} a.
Arguments Raise {A} e.

Definition M (W A : Type) : Type := W -> outcome A * W * list event.

Definition ret {W A} (a : A) : M W A := fun w => (Ok a, w, []).

Definition bind {W A B} (m : M W A) (f : A -> M W B) : M W B :=
  fun w =>
    match m w with
    | (Ok a, w1, t1) =>
        match f a w1 with
        | (r, w2, t2) => (r, w2, t1 ++ t2)
        end
    | (Raise e, w1, t1) => (Raise e, w1, t1)
    end.

Definition raise {W A} (e : exn) : M W A := fun w => (Raise e, w, []).

Notation "x <- m ;; k" := (bind m (fun x => k))
  (at level 100, m at next level, right associativity).
Notation "m ;;; k" := (bind m (fun _ => k))
  (at level 100, right associativity).

Definition emit {W} (e : event) : M W unit := fun w => (Ok tt, w, [e]).

Definition logger {W} (level : loglevel) (msg : string) : M W unit :=
  emit (EvLog level msg).

(** ** The client *)

Record SQSClient := {
  request_queue_url : string;
  response_queue_url : string;
  region : string
}.

Inductive loop_ctl :=
| Continue (poll_delay : Q)
| Return (response_data : pyvalue).

Definition initial_poll_delay : Q := 1 # 2.
Definition poll_delay_cap : Q := 5 # 1.

(** [min(poll_delay * 1.5, 5.0)] *)
Definition next_poll_delay (poll_delay : Q) : Q :=
  Qmin (poll_delay * (3 # 2)) poll_delay_cap.

(** The delay in force after [k] rounds of one call. *)
Fixpoint backoff (k : nat) : Q :=
  match k with
  | O => initial_poll_delay
  | S k' => next_poll_delay (backoff k')
  end.

Definition reserved_keys : list string := ["operation"; "execution_id"; "timestamp"].

Section Client.
Context {W : Type} `{!SQS W, !Runtime W, !Json}.

Definition sleep (seconds : Q) : M W unit :=
  fun w => (Ok tt, time_sleep seconds w, [EvSleep seconds]).

(** [self.send_message(message)], the [ClientError] of the transport raised. *)
Definition send_message (self : SQSClient) (message : pydict) : M W unit :=
  fun w =>
    match sqs_send_message (request_queue_url self) (json_dumps message) w with
    | (r, w') =>
        (match r with Some e => Raise (BotoClientError e) | None => Ok tt end,
         w', [EvSend (request_queue_url self) message r])
    end.

(** [self.client.receive_message(...)] inside its [try]: the error is a value. *)
Definition receive_message (self : SQSClient) (wait_time_seconds : Z)
  : M W (ClientError + option (list Message)) :=
  fun w =>
    match sqs_receive_message (response_queue_url self) 10 wait_time_seconds w with
    | (r, w') =>
        (Ok r, w', [EvReceive (response_queue_url self) 10 wait_time_seconds r])
    end.

(** [change_message_visibility(..., VisibilityTimeout=0)] with
    [except ClientError: pass]. *)
Definition release (self : SQSClient) (message : Message) : M W unit :=
  fun w =>
    match sqs_change_message_visibility
            (response_queue_url self) (ReceiptHandle message) 0 w with
    | (r, w') =>
        (Ok tt, w',
         [EvChangeVisibility (response_queue_url self) (ReceiptHandle message) 0 r])
    end.

(** [self.client.delete_message(...)]: nothing around it catches [ClientError]. *)
Definition delete (self : SQSClient) (message : Message) : M W unit :=
  fun w =>
    match sqs_delete_message (response_queue_url self) (ReceiptHandle message) w with
    | (r, w') =>
        (match r with Some e => Raise (BotoClientError e) | None => Ok tt end,
         w', [EvDelete (response_queue_url self) (ReceiptHandle message) r])
    end.

(** The [for message in messages] loop; [matching_message] is the variable
    it assigns. *)
Fixpoint scan_messages (self : SQSClient) (execution_id : string)
    (messages : list Message) (matching_message : option Message)
  : M W (option Message) :=
  match messages with
  | [] => ret matching_message
  | message :: rest =>
      if id_matches execution_id message
      then scan_messages self execution_id rest (Some message)
      else release self message ;;;
           scan_messages self execution_id rest matching_message
  end.

(** [if matching_message:] and what follows it, up to the backoff. *)
Definition handle_match (self : SQSClient) (execution_id : string)
    (matching_message : option Message) : M W (option pyvalue) :=
  match matching_message with
  | None => ret None
  | Some m =>
      match json_loads (Body m) with
      | inr response_data =>
          delete self m ;;;
          logger LogInfo ("Received response for " +:+ execution_id) ;;;
          ret (Some response_data)
      | inl e =>
          logger LogWarning ("Invalid JSON in response: " +:+ e) ;;;
          release self m ;;;
          ret None
      end
  end.

(** One round of the [while] loop, after its test. *)
Definition poll_once (self : SQSClient) (execution_id : string)
    (wait_time_seconds : Z) (poll_delay : Q) : M W loop_ctl :=
  response <- receive_message self wait_time_seconds ;;
  match response with
  | inl e =>
      logger LogWarning ("Error receiving message: " +:+ client_error_text e) ;;;
      sleep poll_delay ;;;
      ret (Continue (next_poll_delay poll_delay))
  | inr response =>
      let messages := default [] response in
      match messages with
      | [] =>
          sleep (Qmin poll_delay poll_delay_cap) ;;;
          ret (Continue (next_poll_delay poll_delay))
      | _ :: _ =>
          matching_message <- scan_messages self execution_id messages None ;;
          found <- handle_match self execution_id matching_message ;;
          match found with
          | Some response_data => ret (Return response_data)
          | None =>
              sleep (Qmin poll_delay poll_delay_cap) ;;;
              ret (Continue (next_poll_delay poll_delay))
          end
      end
  end.

Definition timeout_text (execution_id : string) : string :=
  "Timeout waiting for response. Execution ID: " +:+ execution_id.

(** [while datetime.now() < timeout: ...], then the [raise].  [fuel] bounds
    the rounds; [None] is a loop cut short. *)
Fixpoint wait_loop (fuel : nat) (self : SQSClient) (execution_id : string)
    (timeout : Q) (wait_time_seconds : Z) (poll_delay : Q) (w : W)
  : option (outcome pyvalue * W * list event) :=
  match fuel with
  | O => None
  | S fuel' =>
      if Qlt_le_dec (datetime_now w) timeout then
        match poll_once self execution_id wait_time_seconds poll_delay w with
        | (Ok (Continue poll_delay'), w1, t1) =>
            match wait_loop fuel' self execution_id timeout wait_time_seconds
                    poll_delay' w1 with
            | Some (r, w2, t2) => Some (r, w2, t1 ++ t2)
            | None => None
            end
        | (Ok (Return response_data), w1, t1) => Some (Ok response_data, w1, t1)
        | (Raise e, w1, t1) => Some (Raise e, w1, t1)
        end
      else Some (Raise (SQSTimeoutError (timeout_text execution_id)), w, [])
  end.

(** [timeout = start_time + timedelta(minutes=timeout_minutes)] *)
Definition deadline (w : W) (timeout_minutes : Z) : Q :=
  datetime_now w + inject_Z (60 * timeout_minutes).

Definition _wait_for_response (fuel : nat) (self : SQSClient)
    (execution_id : string) (timeout_minutes wait_time_seconds : Z) (w : W)
  : option (outcome pyvalue * W * list event) :=
  wait_loop fuel self execution_id (deadline w timeout_minutes)
    wait_time_seconds initial_poll_delay w.

(** The dictionary [send_request] builds before it publishes. *)
Definition build_request (operation execution_id timestamp : string)
    (params : option pydict) : pydict :=
  let request : pydict :=
    <["timestamp" := PStr timestamp]>
      (<["execution_id" := PStr execution_id]>
         (<["operation" := PStr operation]> ∅)) in
  match params with
  | Some p => if decide (p = ∅) then request else p ∪ request
  | None => request
  end.

(** [execution_id], [timestamp] and the request, with the world after
    [uuid4()]. *)
Definition prepare_request (operation : string) (params : option pydict) (w : W)
  : string * pydict * W :=
  let '(execution_id, w0) := uuid4 w in
  let timestamp := isoformat (datetime_now w0) in
  (execution_id, build_request operation execution_id timestamp params, w0).

Definition send_request (fuel : nat) (self : SQSClient) (operation : string)
    (params : option pydict) (timeout_minutes wait_time_seconds : Z) (w : W)
  : option (outcome pyvalue * W * list event) :=
  let '(execution_id, request, w0) := prepare_request operation params w in
  let log1 := EvLog LogInfo
    ("Sending request " +:+ execution_id +:+ " for operation '" +:+ operation +:+ "'") in
  match send_message self request w0 with
  | (Raise (BotoClientError e), w1, t1) =>
      Some (Raise (SQSClientError ("Failed to send request: " +:+ client_error_text e)),
            w1, log1 :: t1)
  | (Raise e, w1, t1) => Some (Raise e, w1, log1 :: t1)
  | (Ok _, w1, t1) =>
      let log2 := EvLog LogInfo ("Waiting for response to " +:+ execution_id) in
      match _wait_for_response fuel self execution_id timeout_minutes
              wait_time_seconds w1 with
      | Some (r, w2, t2) => Some (r, w2, log1 :: t1 ++ log2 :: t2)
      | None => None
      end
  end.

(** What the transport answers to the publish of [send_request]. *)
Definition publish_answer (self : SQSClient) (operation : string)
    (params : option pydict) (w : W) : option ClientError :=
  let '(_, request, w0) := prepare_request operation params w in
  (sqs_send_message (request_queue_url self) (json_dumps request) w0).1.

End Client.

(** ** Assumptions on the world *)

(** Time does not run backwards across a transport call, and [time.sleep(d)]
    returns no earlier than [d] seconds later. *)
Class ClockLaws (W : Type) `{!SQS W, !Runtime W} := {
  receive_clock : forall q n t w,
    (datetime_now w <= datetime_now (sqs_receive_message q n t w).2)%Q;
  visibility_clock : forall q h v w,
    (datetime_now w <= datetime_now (sqs_change_message_visibility q h v w).2)%Q;
  delete_clock : forall q h w,
    (datetime_now w <= datetime_now (sqs_delete_message q h w).2)%Q;
  sleep_clock : forall d w,
    (datetime_now w + d <= datetime_now (time_sleep d w))%Q
}.

(** [uuid4] never yields an identifier it has issued before; [issued] is the
    set of those, which nothing else changes. *)
Class UuidLaws (W : Type) `{!SQS W, !Runtime W} := {
  issued : W -> gset string;
  uuid4_fresh : forall w, (uuid4 w).1 ∉ issued w;
  uuid4_issued : forall w, issued (uuid4 w).2 = {[ (uuid4 w).1 ]} ∪ issued w;
  send_issued : forall q b w, issued (sqs_send_message q b w).2 = issued w;
  receive_issued : forall q n t w, issued (sqs_receive_message q n t w).2 = issued w;
  visibility_issued : forall q h v w,
    issued (sqs_change_message_visibility q h v w).2 = issued w;
  delete_issued : forall q h w, issued (sqs_delete_message q h w).2 = issued w;
  sleep_issued : forall d w, issued (time_sleep d w) = issued w
}.

(** ** The rate limiter of [security.py] *)

Record RateLimiter := {
  min_delay : Q;
  _last_resolve_time : Q
}.

(** [RateLimiter.__init__] *)
Definition RateLimiter_init (min_delay_seconds : Q) : RateLimiter :=
  {| min_delay := min_delay_seconds; _last_resolve_time := 0 |}.

(** [time.monotonic()], [asyncio.sleep], and the [:.2f] of the debug line. *)
Class Monotonic (W : Type) := {
  time_monotonic : W -> Q;
  asyncio_sleep : Q -> W -> W;
  format_2f : Q -> string
}.

(** [x < y] on floats, as a boolean. *)
Definition Qltb (x y : Q) : bool := negb (Qle_bool y x).

(** [RateLimiter.acquire], the body run under [self._lock]. *)
Definition acquire {W} `{!Monotonic W} (self : RateLimiter) (w : W)
  : RateLimiter * W * list event :=
  let now := time_monotonic w in
  let elapsed := (now - _last_resolve_time self)%Q in
  let '(w1, t) :=
    if Qltb elapsed (min_delay self) && Qltb 0 (_last_resolve_time self) then
      let wait_time := (min_delay self - elapsed)%Q in
      (asyncio_sleep wait_time w,
       [EvLog LogDebug ("Rate limiting: waiting " +:+ format_2f wait_time +:+ "s");
        EvSleep wait_time])
    else (w, []) in
  ({| min_delay := min_delay self; _last_resolve_time := time_monotonic w1 |}, w1, t).

(** [asyncio.sleep(d)] returns no earlier than [d] seconds later. *)
Class MonotonicLaws (W : Type) `{!Monotonic W} := {
  asyncio_sleep_clock : forall d w,
    (time_monotonic w + d <= time_monotonic (asyncio_sleep d w))%Q
}.

(** ** What a list of events shows *)

Definition released (tr : list event) : list string :=
  omap (fun e => match e with EvChangeVisibility _ h Z0 _ => Some h | _ => None end) tr.

Definition deleted (tr : list event) : list string :=
  omap (fun e => match e with EvDelete _ h _ => Some h | _ => None end) tr.

Definition sleeps (tr : list event) : list Q :=
  omap (fun e => match e with EvSleep d => Some d | _ => None end) tr.

Definition fetched (tr : list event) : list (list Message) :=
  omap (fun e => match e with EvReceive _ _ _ (inr (Some l)) => Some l | _ => None end) tr.

(** Every message some [receive_message] handed to the client. *)
Definition observed (tr : list event) : list Message := concat (fetched tr).

(** The outcome of a run, without the world and the events. *)
Definition answer {W A} (run : option (outcome A * W * list event))
  : option (outcome A) :=
  match run with
  | Some (r, _, _) => Some r
  | None => None
  end.

(** The message the [for] loop leaves in [matching_message]. *)
Definition last_match (execution_id : string) (messages : list Message)
    (matching_message : option Message) : option Message :=
  fold_left (fun acc m => if id_matches execution_id m then Some m else acc)
    messages matching_message.

Definition others (execution_id : string) (messages : list Message) : list Message :=
  List.filter (fun m => negb (id_matches execution_id m)) messages.

(** Rounds that are enough for a wait of [timeout_minutes]: no round that
    goes on takes less than half a second. *)
Definition fuel_for (timeout_minutes : Z) : nat := S (Z.to_nat (120 * timeout_minutes)).

(** ** A scripted world to run the definitions on *)

Module Script.

Record world := {
  clock : Q;
  inbox : list (ClientError + option (list Message));
  send_error : option ClientError;
  release_error : option ClientError;
  delete_error : option ClientError;
  counter : nat
}.

Definition tick (d : Q) (w : world) : world :=
  {| clock := Qred (clock w + d); inbox := inbox w; send_error := send_error w;
     release_error := release_error w; delete_error := delete_error w;
     counter := counter w |}.

Definition pop (w : world) : (ClientError + option (list Message)) * world :=
  match inbox w with
  | [] => (inr None, w)
  | r :: rest =>
      (r, {| clock := clock w; inbox := rest; send_error := send_error w;
             release_error := release_error w; delete_error := delete_error w;
             counter := counter w |})
  end.

Definition fresh (w : world) : string * world :=
  ("uuid-" +:+ pretty (counter w),
   {| clock := clock w; inbox := inbox w; send_error := send_error w;
      release_error := release_error w; delete_error := delete_error w;
      counter := S (counter w) |}).

#[global] Instance sqs : SQS world := {|
  sqs_send_message _ _ w := (send_error w, w);
  sqs_receive_message _ _ _ w := pop w;
  sqs_change_message_visibility _ _ _ w := (release_error w, w);
  sqs_delete_message _ _ w := (delete_error w, w)
|}.

#[global] Instance runtime : Runtime world := {|
  datetime_now := clock;
  isoformat _ := "2024-01-01T00:00:00";
  time_sleep := tick;
  uuid4 := fresh
|}.

#[global] Instance monotonic : Monotonic world := {|
  time_monotonic := clock;
  asyncio_sleep := tick;
  format_2f _ := "0.00"
|}.

(** Accepts the bodies ["1"] and ["2"] and nothing else. *)
#[global] Instance json : Json := {|
  json_dumps _ := "{}";
  json_loads s :=
    if decide (s = "1") then inr (PInt 1)
    else if decide (s = "2") then inr (PInt 2)
    else inl "Expecting value"
|}.

Definition start (t : Q) (msgs : list (ClientError + option (list Message))) : world :=
  {| clock := t; inbox := msgs; send_error := None; release_error := None;
     delete_error := None; counter := 0 |}.

(** The same, with the answers the transport gives to a send, a release and
    a delete. *)
Definition faulty (t : Q) (msgs : list (ClientError + option (list Message)))
    (se re de : option ClientError) : world :=
  {| clock := t; inbox := msgs; send_error := se; release_error := re;
     delete_error := de; counter := 0 |}.

Definition tagged (execution_id handle body : string) : Message :=
  {| MessageAttributes :=
       Some {[ "ExecutionId" := {| StringValue := Some execution_id |} ]};
     ReceiptHandle := handle; Body := body |}.

Definition bare (handle body : string) : Message :=
  {| MessageAttributes := None; ReceiptHandle := handle; Body := body |}.

Definition client : SQSClient :=
  {| request_queue_url := "requests"; response_queue_url := "responses";
     region := "us-west-2" |}.

End Script.

(** ** The tools of [ibkr_mcp/server.py] *)

(** [bool(v)] for what a tool argument can hold. *)
Definition truthy (v : pyvalue) : bool :=
  match v with
  | PNone => false
  | PBool b => b
  | PInt z => negb (z =? 0)%Z
  | PStr s => negb (bool_decide (s = ""))
  | PList l => match l with [] => false | _ :: _ => true end
  | PDict d => match d with [] => false | _ :: _ => true end
  end.

(** [format_response], which is [json.dumps(data, indent=2, default=str)],
    and the [str()] an f-string applies to a value. *)
Class Format := {
  format_response : pyvalue -> string;
  py_str : pyvalue -> string
}.

Record ValueError := { value_error_text : string }.

(** [SQSClient.__init__] *)
Definition SQSClient_init (request_queue_url response_queue_url region : string)
  : ValueError + SQSClient :=
  if decide (request_queue_url = "") then
    inl {| value_error_text := "request_queue_url is required" |}
  else if decide (response_queue_url = "") then
    inl {| value_error_text := "response_queue_url is required" |}
  else
    inr {| request_queue_url := request_queue_url;
           response_queue_url := response_queue_url;
           region := region |}.

Definition DEFAULT_REGION : string := "us-west-2".

(** [not s] for the result of [os.environ.get]. *)
Definition unset (s : option string) : bool :=
  match s with
  | None => true
  | Some s => bool_decide (s = "")
  end.

(** [get_sqs_client]: the answer and the new value of the global
    [_sqs_client]. *)
Definition get_sqs_client (environ : gmap string string) (_sqs_client : option SQSClient)
  : (ValueError + SQSClient) * option SQSClient :=
  match _sqs_client with
  | Some client => (inr client, Some client)
  | None =>
      let request_queue := environ !! "IBKR_REQUEST_QUEUE_URL" in
      let response_queue := environ !! "IBKR_RESPONSE_QUEUE_URL" in
      if unset request_queue || unset response_queue then
        (inl {| value_error_text :=
                  "IBKR_REQUEST_QUEUE_URL and IBKR_RESPONSE_QUEUE_URL environment "
                  +:+ "variables must be set. See README for configuration details." |},
         None)
      else
        match SQSClient_init (default "" request_queue) (default "" response_queue)
                (default DEFAULT_REGION (environ !! "AWS_REGION")) with
        | inl e => (inl e, None)
        | inr client => (inr client, Some client)
        end
  end.

(** [str(error)] *)
Definition exn_text (e : exn) : string :=
  match e with
  | BotoClientError c => client_error_text c
  | SQSClientError msg => msg
  | SQSTimeoutError msg => msg
  end.

Definition newline : string := String (Ascii.ascii_of_nat 10) "".

(** The text of the [TextContent] that [handle_error] returns. *)
Definition report_text (r : error_report) (error : string) : string :=
  match r with
  | ReportTimedOut =>
      "Request timed out. The TWS service may be unavailable or processing a long operation."
      +:+ newline +:+ newline +:+ "Error: " +:+ error
  | ReportCommunication =>
      "SQS communication error. Check AWS credentials and queue access."
      +:+ newline +:+ newline +:+ "Error: " +:+ error
  | ReportUnexpected => "Unexpected error: " +:+ error
  end.

(** What the server does: what its client does, and the line of
    [logger.exception]. *)
Inductive server_event :=
| SvClient (e : event)
| SvLogException (msg : string).

Definition sent (tr : list event) : list pydict :=
  omap (fun e => match e with EvSend _ message _ => Some message | _ => None end) tr.

Definition client_events (tr : list server_event) : list event :=
  omap (fun e => match e with SvClient e => Some e | _ => None end) tr.

Section Server.
Context {W : Type} `{!SQS W, !Runtime W, !Json, !Format}.

(** The convenience methods of [SQSClient]; [wait_time_seconds] keeps its
    default 3. *)
Definition health_check (fuel : nat) (self : SQSClient) (timeout_minutes : Z) :=
  send_request fuel self "tws_health" None timeout_minutes 3.

Definition account_values (fuel : nat) (self : SQSClient) (timeout_minutes : Z) :=
  send_request fuel self "account_values" None timeout_minutes 3.

Definition positions (fuel : nat) (self : SQSClient) (timeout_minutes : Z) :=
  send_request fuel self "raw_positions" None timeout_minutes 3.

Definition daily_ohlcv (fuel : nat) (self : SQSClient) (timeout_minutes : Z) :=
  send_request fuel self "daily_ohlcv" None timeout_minutes 3.

Definition hourly_ohlcv (fuel : nat) (self : SQSClient) (timeout_minutes : Z) :=
  send_request fuel self "hourly_ohlcv" None timeout_minutes 3.

Definition contract_details (fuel : nat) (self : SQSClient) (timeout_minutes : Z) :=
  send_request fuel self "contract_details" None timeout_minutes 3.

Definition find_symbols (fuel : nat) (self : SQSClient) (query : pyvalue)
    (timeout_minutes : Z) :=
  send_request fuel self "find_symbols" (Some {[ "query" := query ]}) timeout_minutes 3.

Definition get_contract_by_id (fuel : nat) (self : SQSClient)
    (contract_id check_ohlcv : pyvalue) (timeout_minutes : Z) :=
  send_request fuel self "get_contract_details_by_id"
    (Some (<["contract_id" := contract_id]>
             {[ "check_ohlcv_availability" := check_ohlcv ]}))
    timeout_minutes 3.

Definition custom_ohlcv (fuel : nat) (self : SQSClient)
    (symbols duration_str bar_size_setting : pyvalue) (timeout_minutes : Z) :=
  send_request fuel self "ohlcv"
    (Some (<["symbols" := symbols]>
             (<["duration_str" := duration_str]>
                {[ "bar_size_setting" := bar_size_setting ]})))
    timeout_minutes 3.

(** [return [TextContent(type="text", text=f"{title}{format_response(result)}")]]
    after a call of the client. *)
Definition answered (title : string) (run : option (outcome pyvalue * W * list event))
  : option (outcome string * W * list event) :=
  match run with
  | Some (Ok result, w', tr) => Some (Ok (title +:+ format_response result), w', tr)
  | Some (Raise e, w', tr) => Some (Raise e, w', tr)
  | None => None
  end.

(** The body of the [try] of [call_tool]. *)
Definition dispatch (fuel : nat) (client : SQSClient) (name : string)
    (arguments : pydict) (w : W) : option (outcome string * W * list event) :=
  if decide (name = "ibkr_health") then
    answered ("TWS Health Check:" +:+ newline) (health_check fuel client 2 w)
  else if decide (name = "ibkr_account_summary") then
    answered ("Account Summary:" +:+ newline) (account_values fuel client 5 w)
  else if decide (name = "ibkr_positions") then
    answered ("Positions:" +:+ newline) (positions fuel client 5 w)
  else if decide (name = "ibkr_daily_ohlcv") then
    answered ("Daily OHLCV Processing Result:" +:+ newline) (daily_ohlcv fuel client 20 w)
  else if decide (name = "ibkr_hourly_ohlcv") then
    answered ("Hourly OHLCV Processing Result:" +:+ newline) (hourly_ohlcv fuel client 20 w)
  else if decide (name = "ibkr_contract_details") then
    answered ("Contract Details Processing Result:" +:+ newline)
      (contract_details fuel client 20 w)
  else if decide (name = "ibkr_search_symbols") then
    let query := default (PStr "") (arguments !! "query") in
    if negb (truthy query) then
      Some (Ok "Error: 'query' parameter is required", w, [])
    else
      answered ("Symbol Search Results for '" +:+ py_str query +:+ "':" +:+ newline)
        (find_symbols fuel client query 2 w)
  else if decide (name = "ibkr_contract_by_id") then
    match arguments !! "contract_id" with
    | None | Some PNone =>
        Some (Ok "Error: 'contract_id' parameter is required", w, [])
    | Some contract_id =>
        let check_ohlcv := default (PBool false) (arguments !! "check_ohlcv") in
        answered ("Contract Details for ID " +:+ py_str contract_id +:+ ":" +:+ newline)
          (get_contract_by_id fuel client contract_id check_ohlcv 2 w)
    end
  else if decide (name = "ibkr_custom_ohlcv") then
    let symbols := default (PList []) (arguments !! "symbols") in
    if negb (truthy symbols) then
      Some (Ok "Error: 'symbols' parameter is required and must be non-empty", w, [])
    else
      let duration := default (PStr "7 D") (arguments !! "duration") in
      let bar_size := default (PStr "1 day") (arguments !! "bar_size") in
      answered ("Custom OHLCV Result:" +:+ newline)
        (custom_ohlcv fuel client symbols duration bar_size 20 w)
  else
    Some (Ok ("Unknown tool: " +:+ name), w, []).

(** [call_tool]: a [ValueError] that leaves it or the text it answers, the
    global [_sqs_client] afterwards, the world and the events. *)
Definition call_tool (fuel : nat) (name : string) (arguments : pydict)
    (environ : gmap string string) (_sqs_client : option SQSClient) (w : W)
  : option ((ValueError + string) * option SQSClient * W * list server_event) :=
  match get_sqs_client environ _sqs_client with
  | (inl e, cache) => Some (inl e, cache, w, [])
  | (inr client, cache) =>
      match dispatch fuel client name arguments w with
      | Some (Ok text, w', tr) => Some (inr text, cache, w', map SvClient tr)
      | Some (Raise e, w', tr) =>
          Some (inr (report_text (handle_error e) (exn_text e)), cache, w',
                map SvClient tr ++ [SvLogException ("Error calling tool " +:+ name)])
      | None => None
      end
  end.

End Server.

(** The tools, each with the operation it asks of the TWS service and the
    minutes it waits for the answer. *)
Definition tool_operations : list (string * (string * Z)) :=
  [("ibkr_health", ("tws_health", 2%Z));
   ("ibkr_account_summary", ("account_values", 5%Z));
   ("ibkr_positions", ("raw_positions", 5%Z));
   ("ibkr_daily_ohlcv", ("daily_ohlcv", 20%Z));
   ("ibkr_hourly_ohlcv", ("hourly_ohlcv", 20%Z));
   ("ibkr_contract_details", ("contract_details", 20%Z));
   ("ibkr_search_symbols", ("find_symbols", 2%Z));
   ("ibkr_contract_by_id", ("get_contract_details_by_id", 2%Z));
   ("ibkr_custom_ohlcv", ("ohlcv", 20%Z))].

(** What a call of a tool comes to: a text answered at once, or one request
    to the client, with the title of its answer, the operation, the
    parameters and the minutes to wait. *)
Inductive tool_plan :=
| Refuse (text : string)
| Ask (title operation : string) (params : option pydict) (timeout_minutes : Z).

Definition plan_of `{!Format} (name : string) (arguments : pydict) : tool_plan :=
  if decide (name = "ibkr_health") then
    Ask ("TWS Health Check:" +:+ newline) "tws_health" None 2
  else if decide (name = "ibkr_account_summary") then
    Ask ("Account Summary:" +:+ newline) "account_values" None 5
  else if decide (name = "ibkr_positions") then
    Ask ("Positions:" +:+ newline) "raw_positions" None 5
  else if decide (name = "ibkr_daily_ohlcv") then
    Ask ("Daily OHLCV Processing Result:" +:+ newline) "daily_ohlcv" None 20
  else if decide (name = "ibkr_hourly_ohlcv") then
    Ask ("Hourly OHLCV Processing Result:" +:+ newline) "hourly_ohlcv" None 20
  else if decide (name = "ibkr_contract_details") then
    Ask ("Contract Details Processing Result:" +:+ newline) "contract_details" None 20
  else if decide (name = "ibkr_search_symbols") then
    let query := default (PStr "") (arguments !! "query") in
    if negb (truthy query) then Refuse "Error: 'query' parameter is required"
    else Ask ("Symbol Search Results for '" +:+ py_str query +:+ "':" +:+ newline)
           "find_symbols" (Some {[ "query" := query ]}) 2
  else if decide (name = "ibkr_contract_by_id") then
    match arguments !! "contract_id" with
    | None | Some PNone => Refuse "Error: 'contract_id' parameter is required"
    | Some contract_id =>
        Ask ("Contract Details for ID " +:+ py_str contract_id +:+ ":" +:+ newline)
          "get_contract_details_by_id"
          (Some (<["contract_id" := contract_id]>
                   {[ "check_ohlcv_availability" :=
                        default (PBool false) (arguments !! "check_ohlcv") ]})) 2
    end
  else if decide (name = "ibkr_custom_ohlcv") then
    let symbols := default (PList []) (arguments !! "symbols") in
    if negb (truthy symbols) then
      Refuse "Error: 'symbols' parameter is required and must be non-empty"
    else
      Ask ("Custom OHLCV Result:" +:+ newline) "ohlcv"
        (Some (<["symbols" := symbols]>
                 (<["duration_str" := default (PStr "7 D") (arguments !! "duration")]>
                    {[ "bar_size_setting" :=
                         default (PStr "1 day") (arguments !! "bar_size") ]}))) 20
  else Refuse ("Unknown tool: " +:+ name).

(** A formatter to run the tools with. *)
#[global] Instance script_format : Format := {|
  format_response v :=
    match v with
    | PInt z => pretty z
    | PStr s => s
    | _ => "{}"
    end;
  py_str v :=
    match v with
    | PInt z => pretty z
    | PStr s => s
    | _ => "None"
    end
|}.

(** ** Vault allowlist and field redaction of [onepassword_mcp/security.py] *)

(** [str.lower()], [str.upper()], [str.strip()], and the text an f-string
    gives for a set of strings. *)
Class PyStr := {
  str_lower : string -> string;
  str_upper : string -> string;
  str_strip : string -> string;
  set_repr : gset string -> string
}.

(** What is used of the three methods: the empty string stays empty, and
    lower case empties no string. *)
Class PyStrLaws `{!PyStr} := {
  str_strip_empty : str_strip "" = "";
  str_lower_empty : str_lower "" = "";
  str_lower_nonempty : forall s, s <> "" -> str_lower s <> ""
}.

(** [s.split(sep)] for a separator of one character. *)
Fixpoint str_split (sep : Ascii.ascii) (s : string) : list string :=
  match s with
  | EmptyString => [EmptyString]
  | String c rest =>
      if decide (c = sep) then EmptyString :: str_split sep rest
      else match str_split sep rest with
           | [] => [String c EmptyString]
           | part :: parts => String c part :: parts
           end
  end.

(** [s.startswith(prefix)] *)
Definition str_startswith (s prefix : string) : bool := String.prefix prefix s.

(** [s[n:]] *)
Fixpoint str_from (n : nat) (s : string) : string :=
  match n, s with
  | O, _ => s
  | S n', String _ rest => str_from n' rest
  | S _, EmptyString => EmptyString
  end.

(** [sub in s] *)
Fixpoint str_in (sub s : string) : bool :=
  String.prefix sub s ||
  match s with
  | EmptyString => false
  | String _ rest => str_in sub rest
  end.

Definition comma : Ascii.ascii := Ascii.ascii_of_nat 44.
Definition slash : Ascii.ascii := Ascii.ascii_of_nat 47.

Record VaultFilter := { allowed_vaults : gset string }.

(** [allowed_vaults or os.environ.get("OP_ALLOWED_VAULTS", "AI")] *)
Definition allowlist_text (allowed_vaults : option string)
    (environ : gmap string string) : string :=
  if unset allowed_vaults then default "AI" (environ !! "OP_ALLOWED_VAULTS")
  else default "" allowed_vaults.

(** [VaultFilter.__init__], with its line in the log. *)
Definition VaultFilter_init `{!PyStr} (allowed_vaults : option string)
    (environ : gmap string string) : VaultFilter * list event :=
  let raw := allowlist_text allowed_vaults environ in
  let allowed : gset string :=
    list_to_set ((fun v => str_lower (str_strip v)) <$>
                 filter (fun v => str_strip v <> "") (str_split comma raw)) in
  ({| allowed_vaults := allowed |},
   [EvLog LogInfo ("Vault allowlist: " +:+ set_repr allowed)]).

Definition is_allowed `{!PyStr} (self : VaultFilter) (vault_name : string) : bool :=
  bool_decide (str_lower vault_name ∈ allowed_vaults self).

(** The exceptions of the 1Password server: its own, the [AttributeError] of a
    method asked of a value that has none, and whatever the SDK raises, with
    its text. *)
Inductive op_exn :=
| OnePasswordClientError (msg : string)
| AttributeError (msg : string)
| SdkError (msg : string).

Definition type_name (v : pyvalue) : string :=
  match v with
  | PNone => "NoneType"
  | PBool _ => "bool"
  | PInt _ => "int"
  | PStr _ => "str"
  | PList _ => "list"
  | PDict _ => "dict"
  end.

(** [d.get(key, "")] as the receiver of the string method [method]. *)
Definition get_str (d : pydict) (key method : string) : op_exn + string :=
  match default (PStr "") (d !! key) with
  | PStr s => inr s
  | v => inl (AttributeError
                ("'" +:+ type_name v +:+ "' object has no attribute '" +:+ method +:+ "'"))
  end.

(** [VaultFilter.filter_vaults]: the comprehension stops at the first vault
    whose name is no string. *)
Fixpoint filter_vaults `{!PyStr} (self : VaultFilter) (vaults : list pydict)
  : op_exn + list pydict :=
  match vaults with
  | [] => inr []
  | v :: rest =>
      match get_str v "name" "lower" with
      | inl e => inl e
      | inr name =>
          match filter_vaults self rest with
          | inl e => inl e
          | inr kept => inr (if is_allowed self name then v :: kept else kept)
          end
      end
  end.

Definition SENSITIVE_FIELD_TYPES : list string :=
  ["CONCEALED"; "PASSWORD"; "CREDIT_CARD_NUMBER"; "CREDIT_CARD_VERIFICATION_NUMBER"].

Definition SENSITIVE_FIELD_IDS : list string :=
  ["password"; "credential"; "secret"; "cvv"; "pin"].

Definition REDACTED : string := "[REDACTED]".

(** [field_type in SENSITIVE_FIELD_TYPES or any(s in field_id for s in
    SENSITIVE_FIELD_IDS)] *)
Definition should_redact (field_type field_id : string) : bool :=
  bool_decide (field_type ∈ SENSITIVE_FIELD_TYPES)
  || existsb (fun s => str_in s field_id) SENSITIVE_FIELD_IDS.

(** [FieldRedactor.redact_field] *)
Definition redact_field `{!PyStr} (field : pydict) : op_exn + pydict :=
  match get_str field "field_type" "upper" with
  | inl e => inl e
  | inr field_type =>
      match get_str field "id" "lower" with
      | inl e => inl e
      | inr field_id =>
          if should_redact (str_upper field_type) (str_lower field_id)
             && bool_decide (is_Some (field !! "value"))
          then inr (<["value" := PStr REDACTED]> field)
          else inr field
      end
  end.

(** ** The client of [onepassword_mcp/client.py] *)

(** What the SDK hands out: a vault of [vaults.list_all], an item of
    [items.list_all], and an item of [items.get] with its fields and links.
    [Field_type] is the name of the field's type, when it has one. *)
Record VaultOverview := { Vault_id : string; Vault_name : string }.

Record ItemOverview := {
  Overview_id : string;
  Overview_title : string;
  Overview_category : string
}.

Record ItemField := {
  Field_id : string;
  Field_title : string;
  Field_type : option string;
  Field_value : option string
}.

Record ItemUrl := { Url_href : string; Url_primary : bool }.

Record Item := {
  Item_id : string;
  Item_title : string;
  Item_category : string;
  Item_fields : option (list ItemField);
  Item_tags : option (list string);
  Item_urls : option (list ItemUrl)
}.

(** The SDK.  A call raises, with a text, or answers; a listing is an
    asynchronous iterator, which yields some elements and then ends or
    raises. *)
Class OnePasswordSDK (W : Type) := {
  Client_authenticate : string -> W -> option string * W;
  vaults_list_all : W -> (list VaultOverview * option string) * W;
  items_list_all : string -> W -> (list ItemOverview * option string) * W;
  items_get : string -> string -> W -> (string + Item) * W;
  secrets_resolve : string -> W -> (string + string) * W
}.

(** What the 1Password server does to the outside. *)
Inductive op_event :=
| OpAuthenticate (token : string) (r : option string)
| OpVaultsListAll (r : list VaultOverview * option string)
| OpItemsListAll (vault_id : string) (r : list ItemOverview * option string)
| OpItemsGet (vault_id item_id : string) (r : string + Item)
| OpSecretsResolve (reference : string) (r : string + string)
| OpLogError (msg : string)
| OpEvent (e : event).

(** The object behind [_client], once authenticated. *)
Inductive Client := Authenticated.

Record OnePasswordClient := {
  _token : string;
  _client : option Client;
  _vault_filter : VaultFilter;
  _vault_cache : gmap string string
}.

Definition set_client (c : option Client) (self : OnePasswordClient) : OnePasswordClient :=
  {| _token := _token self; _client := c; _vault_filter := _vault_filter self;
     _vault_cache := _vault_cache self |}.

Definition set_vault_cache (cache : gmap string string) (self : OnePasswordClient)
  : OnePasswordClient :=
  {| _token := _token self; _client := _client self;
     _vault_filter := _vault_filter self; _vault_cache := cache |}.

(** [OnePasswordClient.__init__] *)
Definition OnePasswordClient_init `{!PyStr} (service_account_token allowed_vaults : option string)
    (environ : gmap string string) : op_exn + OnePasswordClient * list event :=
  let token :=
    if unset service_account_token then environ !! "OP_SERVICE_ACCOUNT_TOKEN"
    else service_account_token in
  if unset token then
    inl (OnePasswordClientError "OP_SERVICE_ACCOUNT_TOKEN environment variable is required")
  else
    let '(vault_filter, log) := VaultFilter_init allowed_vaults environ in
    inr ({| _token := default "" token; _client := None;
            _vault_filter := vault_filter; _vault_cache := ∅ |}, log).

(** A method of the client: it may raise, it may change the client and the
    world, and it leaves events. *)
Definition Op (W A : Type) : Type :=
  OnePasswordClient -> W -> (op_exn + A) * OnePasswordClient * W * list op_event.

#[global] Instance op_ret {W} : MRet (Op W) :=
  fun A a self w => (inr a, self, w, []).

#[global] Instance op_bind {W} : MBind (Op W) :=
  fun A B f m self w =>
    match m self w with
    | (inr a, self1, w1, t1) =>
        match f a self1 w1 with
        | (r, self2, w2, t2) => (r, self2, w2, t1 ++ t2)
        end
    | (inl e, self1, w1, t1) => (inl e, self1, w1, t1)
    end.

#[global] Instance op_throw {W} : MThrow op_exn (Op W) :=
  fun A e self w => (inl e, self, w, []).

Definition op_self {W} : Op W OnePasswordClient :=
  fun self w => (inr self, self, w, []).

Definition op_update {W} (f : OnePasswordClient -> OnePasswordClient) : Op W unit :=
  fun self w => (inr tt, f self, w, []).

Definition op_log {W} (level : loglevel) (msg : string) : Op W unit :=
  fun self w => (inr tt, self, w, [OpEvent (EvLog level msg)]).

(** [str(e)] *)
Definition op_exn_text (e : op_exn) : string :=
  match e with
  | OnePasswordClientError msg => msg
  | AttributeError msg => msg
  | SdkError msg => msg
  end.

(** The dictionary [get_item] makes of a field before it redacts it. *)
Definition field_dict (field : ItemField) : pydict :=
  <["id" := PStr (Field_id field)]>
    (<["title" := PStr (Field_title field)]>
       (<["field_type" := PStr (default "TEXT" (Field_type field))]>
          {[ "value" := PStr (default "" (Field_value field)) ]})).

(** [[self._field_redactor.redact_field(field_dict) for field in fields]], up
    to the first failure. *)
Fixpoint redact_fields `{!PyStr} (fields : list ItemField) : op_exn + list pydict :=
  match fields with
  | [] => inr []
  | field :: rest =>
      match redact_field (field_dict field) with
      | inl e => inl e
      | inr redacted =>
          match redact_fields rest with
          | inl e => inl e
          | inr more => inr (redacted :: more)
          end
      end
  end.

(** The dictionary [get_item] returns, key by key. *)
Record ItemDict := {
  dict_id : string;
  dict_title : string;
  dict_category : string;
  dict_vault_id : string;
  dict_fields : list pydict;
  dict_tags : list string;
  dict_urls : list (string * bool)
}.

Definition vault_dict (vault : VaultOverview) : pydict :=
  <["id" := PStr (Vault_id vault)]> {[ "name" := PStr (Vault_name vault) ]}.

Definition item_row (vault_id : string) (item : ItemOverview) : pydict :=
  <["id" := PStr (Overview_id item)]>
    (<["title" := PStr (Overview_title item)]>
       (<["category" := PStr (Overview_category item)]>
          {[ "vault_id" := PStr vault_id ]})).

(** [self._vault_cache[vault.id] = vault.name] for each vault in turn. *)
Definition cache_vaults (vaults : list VaultOverview) (cache : gmap string string)
  : gmap string string :=
  fold_left (fun c vault => <[Vault_id vault := Vault_name vault]> c) vaults cache.

Section OnePassword.
Context {W : Type} `{!OnePasswordSDK W, !PyStr}.

Definition authenticate : Op W (option string) :=
  fun self w =>
    match Client_authenticate (_token self) w with
    | (r, w') => (inr r, self, w', [OpAuthenticate (_token self) r])
    end.

Definition list_all_vaults : Op W (list VaultOverview * option string) :=
  fun self w =>
    match vaults_list_all w with
    | (r, w') => (inr r, self, w', [OpVaultsListAll r])
    end.

Definition list_all_items (vault_id : string)
  : Op W (list ItemOverview * option string) :=
  fun self w =>
    match items_list_all vault_id w with
    | (r, w') => (inr r, self, w', [OpItemsListAll vault_id r])
    end.

Definition get_one_item (vault_id item_id : string) : Op W (string + Item) :=
  fun self w =>
    match items_get vault_id item_id w with
    | (r, w') => (inr r, self, w', [OpItemsGet vault_id item_id r])
    end.

Definition resolve (reference : string) : Op W (string + string) :=
  fun self w =>
    match secrets_resolve reference w with
    | (r, w') => (inr r, self, w', [OpSecretsResolve reference r])
    end.

(** [OnePasswordClient._get_client] *)
Definition _get_client : Op W unit :=
  self ← op_self;
  match _client self with
  | Some _ => mret tt
  | None =>
      r ← authenticate;
      match r with
      | Some e => mthrow (OnePasswordClientError ("Failed to authenticate: " +:+ e))
      | None =>
          op_update (set_client (Some Authenticated));;
          op_log LogInfo "1Password client authenticated successfully"
      end
  end.

(** [OnePasswordClient._refresh_vault_cache]: nothing here catches what the
    listing raises. *)
Definition _refresh_vault_cache : Op W unit :=
  _get_client;;
  op_update (set_vault_cache ∅);;
  r ← list_all_vaults;
  op_update (fun self => set_vault_cache (cache_vaults r.1 (_vault_cache self)) self);;
  match r.2 with
  | Some e => mthrow (SdkError e)
  | None => mret tt
  end.

(** [OnePasswordClient._is_vault_allowed] *)
Definition _is_vault_allowed (vault_id : string) : Op W bool :=
  self ← op_self;
  (if bool_decide (is_Some (_vault_cache self !! vault_id)) then mret tt
   else _refresh_vault_cache);;
  self ← op_self;
  mret (is_allowed (_vault_filter self) (default "" (_vault_cache self !! vault_id))).

(** The refusal of [list_items], [get_item] and [get_otp]. *)
Definition refuse_vault {A} (vault_id : string) : Op W A :=
  self ← op_self;
  let vault_name := default vault_id (_vault_cache self !! vault_id) in
  mthrow (OnePasswordClientError
            ("Vault '" +:+ vault_name +:+ "' (ID: " +:+ vault_id
             +:+ ") is not in the allowed vaults list")).

(** [OnePasswordClient.list_vaults] *)
Definition list_vaults : Op W (list pydict) :=
  _get_client;;
  r ← list_all_vaults;
  self ← op_self;
  let allowed := List.filter (fun vault => is_allowed (_vault_filter self) (Vault_name vault))
                   r.1 in
  op_update (set_vault_cache (cache_vaults allowed (_vault_cache self)));;
  match r.2 with
  | Some e => mthrow (OnePasswordClientError ("Failed to list vaults: " +:+ e))
  | None => mret (vault_dict <$> allowed)
  end.

(** [not (category and item.category.name.upper() != category.upper())] *)
Definition category_matches (category : option string) (item : ItemOverview) : bool :=
  unset category
  || bool_decide (str_upper (Overview_category item) = str_upper (default "" category)).

(** [OnePasswordClient.list_items] *)
Definition list_items (vault_id : string) (category : option string)
  : Op W (list pydict) :=
  allowed ← _is_vault_allowed vault_id;
  if negb allowed then refuse_vault vault_id
  else
    _get_client;;
    r ← list_all_items vault_id;
    match r.2 with
    | Some e => mthrow (OnePasswordClientError ("Failed to list items: " +:+ e))
    | None => mret (item_row vault_id <$> List.filter (category_matches category) r.1)
    end.

(** [OnePasswordClient.get_item] *)
Definition get_item (vault_id item_id : string) : Op W ItemDict :=
  allowed ← _is_vault_allowed vault_id;
  if negb allowed then refuse_vault vault_id
  else
    _get_client;;
    r ← get_one_item vault_id item_id;
    match r with
    | inl e => mthrow (OnePasswordClientError ("Failed to get item: " +:+ e))
    | inr item =>
        match redact_fields (default [] (Item_fields item)) with
        | inl e =>
            mthrow (OnePasswordClientError ("Failed to get item: " +:+ op_exn_text e))
        | inr fields =>
            mret {| dict_id := Item_id item;
                    dict_title := Item_title item;
                    dict_category := Item_category item;
                    dict_vault_id := vault_id;
                    dict_fields := fields;
                    dict_tags := default [] (Item_tags item);
                    dict_urls := (fun url => (Url_href url, Url_primary url))
                                 <$> default [] (Item_urls item) |}
        end
    end.

(** [OnePasswordClient.resolve_secret] *)
Definition resolve_secret (secret_reference : string) : Op W string :=
  if negb (str_startswith secret_reference "op://") then
    mthrow (OnePasswordClientError "Secret reference must start with 'op://'")
  else
    let parts := str_split slash (str_from 5 secret_reference) in
    if (length parts <? 3)%nat then
      mthrow (OnePasswordClientError
                "Invalid secret reference format. Use: op://vault/item/field")
    else
      let vault_name := default "" (head parts) in
      self ← op_self;
      if negb (is_allowed (_vault_filter self) vault_name) then
        mthrow (OnePasswordClientError
                  ("Vault '" +:+ vault_name +:+ "' is not in the allowed vaults list"))
      else
        _get_client;;
        r ← resolve secret_reference;
        match r with
        | inl e => mthrow (OnePasswordClientError ("Failed to resolve secret: " +:+ e))
        | inr secret => mret secret
        end.

(** [OnePasswordClient.get_otp] *)
Definition get_otp (vault_id item_id : string) (field_id : option string)
  : Op W string :=
  allowed ← _is_vault_allowed vault_id;
  if negb allowed then refuse_vault vault_id
  else
    self ← op_self;
    (if bool_decide (is_Some (_vault_cache self !! vault_id)) then mret tt
     else _refresh_vault_cache);;
    self ← op_self;
    match _vault_cache self !! vault_id with
    | None =>
        mthrow (OnePasswordClientError
                  ("Unable to determine vault name for ID '" +:+ vault_id
                   +:+ "' when building OTP reference"))
    | Some vault_name =>
        let field := if unset field_id then "one-time password" else default "" field_id in
        let reference :=
          "op://" +:+ vault_name +:+ "/" +:+ item_id +:+ "/" +:+ field
          +:+ "?attribute=otp" in
        _get_client;;
        r ← resolve reference;
        match r with
        | inl e => mthrow (OnePasswordClientError ("Failed to get OTP: " +:+ e))
        | inr otp => mret otp
        end
    end.

End OnePassword.

(** What the events show. *)
Definition resolved (tr : list op_event) : list string :=
  omap (fun e => match e with OpSecretsResolve reference _ => Some reference | _ => None end)
    tr.

Definition item_calls (tr : list op_event) : list string :=
  omap (fun e => match e with
                 | OpItemsListAll vault_id _ => Some vault_id
                 | OpItemsGet vault_id _ _ => Some vault_id
                 | _ => None
                 end) tr.

(** ** The tools of [onepassword_mcp/server.py] *)

(** [format_response] of the three answers that are not plain text:
    [{"vaults": vaults, "count": len(vaults)}],
    [{"items": items, "count": len(items), "vault_id": vault_id}] and the
    dictionary of [get_item]. *)
Class OpFormat := {
  format_vaults : list pydict -> string;
  format_items : list pydict -> string -> string;
  format_item : ItemDict -> string
}.

Module OnePasswordServer.

(** The two globals of the module. *)
Record globals := {
  _op_client : option OnePasswordClient;
  _rate_limiter : option RateLimiter
}.

(** What a handler gives: a text or an exception, the globals and the world
    afterwards, and the events. *)
Definition handler (W : Type) : Type :=
  globals -> W -> (op_exn + string) * globals * W * list op_event.

Section Handlers.
Context {W : Type} `{!OnePasswordSDK W, !PyStr, !Monotonic W, !OpFormat}.

(** [get_client] *)
Definition get_client (environ : gmap string string) (g : globals)
  : (op_exn + OnePasswordClient) * globals * list op_event :=
  match _op_client g with
  | Some client => (inr client, g, [])
  | None =>
      match OnePasswordClient_init None None environ with
      | inl e => (inl e, g, [])
      | inr (client, log) =>
          (inr client,
           {| _op_client := Some client; _rate_limiter := _rate_limiter g |},
           OpEvent <$> log)
      end
  end.

(** [get_rate_limiter] *)
Definition get_rate_limiter (g : globals) : RateLimiter * globals :=
  match _rate_limiter g with
  | Some limiter => (limiter, g)
  | None =>
      (RateLimiter_init 1,
       {| _op_client := _op_client g; _rate_limiter := Some (RateLimiter_init 1) |})
  end.

(** [client = get_client()] and a method of that client; the client is an
    object, so what the method changes in it stays in the global. *)
Definition with_client {A} (environ : gmap string string) (method : Op W A)
    (g : globals) (w : W) : (op_exn + A) * globals * W * list op_event :=
  match get_client environ g with
  | (inl e, g1, t0) => (inl e, g1, w, t0)
  | (inr client, g1, t0) =>
      match method client w with
      | (r, client', w', t1) =>
          (r, {| _op_client := Some client'; _rate_limiter := _rate_limiter g1 |},
           w', t0 ++ t1)
      end
  end.

Definition answer_with {A} (text : A -> string)
    (run : (op_exn + A) * globals * W * list op_event)
  : (op_exn + string) * globals * W * list op_event :=
  match run with
  | (inr a, g, w, tr) => (inr (text a), g, w, tr)
  | (inl e, g, w, tr) => (inl e, g, w, tr)
  end.

Definition handle_list_vaults (environ : gmap string string) : handler W :=
  fun g w => answer_with format_vaults (with_client environ list_vaults g w).

Definition handle_list_items (environ : gmap string string)
    (arguments : gmap string string) : handler W :=
  fun g w =>
    let vault_id := arguments !! "vault_id" in
    let category := arguments !! "category" in
    if unset vault_id then (inr "Error: vault_id is required", g, w, [])
    else
      answer_with (fun items => format_items items (default "" vault_id))
        (with_client environ (list_items (default "" vault_id) category) g w).

Definition handle_get_item (environ : gmap string string)
    (arguments : gmap string string) : handler W :=
  fun g w =>
    let vault_id := arguments !! "vault_id" in
    let item_id := arguments !! "item_id" in
    if unset vault_id || unset item_id then
      (inr "Error: vault_id and item_id are required", g, w, [])
    else
      answer_with format_item
        (with_client environ (get_item (default "" vault_id) (default "" item_id)) g w).

Definition handle_resolve_secret (environ : gmap string string)
    (arguments : gmap string string) : handler W :=
  fun g w =>
    let secret_reference := arguments !! "secret_reference" in
    if unset secret_reference then (inr "Error: secret_reference is required", g, w, [])
    else
      let '(rate_limiter, g1) := get_rate_limiter g in
      let '(rate_limiter', w1, t1) := acquire rate_limiter w in
      let g2 := {| _op_client := _op_client g1; _rate_limiter := Some rate_limiter' |} in
      match with_client environ (resolve_secret (default "" secret_reference)) g2 w1 with
      | (r, g3, w2, t2) => (r, g3, w2, (OpEvent <$> t1) ++ t2)
      end.

Definition handle_get_otp (environ : gmap string string)
    (arguments : gmap string string) : handler W :=
  fun g w =>
    let vault_id := arguments !! "vault_id" in
    let item_id := arguments !! "item_id" in
    let field_id := arguments !! "field_id" in
    if unset vault_id || unset item_id then
      (inr "Error: vault_id and item_id are required", g, w, [])
    else
      with_client environ
        (get_otp (default "" vault_id) (default "" item_id) field_id) g w.

(** [handle_error]: the text, and the line of [logger.error]. *)
Definition handle_error (error : op_exn) : string * list op_event :=
  match error with
  | OnePasswordClientError msg => ("1Password error: " +:+ msg, [])
  | _ =>
      ("Unexpected error: " +:+ op_exn_text error,
       [OpLogError ("Unexpected error: " +:+ op_exn_text error)])
  end.

(** [call_tool].  The arguments are strings, as the schema of every tool
    declares them. *)
Definition call_tool (environ : gmap string string) (name : string)
    (arguments : gmap string string) (g : globals) (w : W)
  : string * globals * W * list op_event :=
  let run : (op_exn + string) * globals * W * list op_event :=
    if decide (name = "op_list_vaults") then handle_list_vaults environ g w
    else if decide (name = "op_list_items") then handle_list_items environ arguments g w
    else if decide (name = "op_get_item") then handle_get_item environ arguments g w
    else if decide (name = "op_resolve_secret") then
      handle_resolve_secret environ arguments g w
    else if decide (name = "op_get_otp") then handle_get_otp environ arguments g w
    else (inr ("Unknown tool: " +:+ name), g, w, []) in
  match run with
  | (inr text, g', w', tr) =>
      (text, g', w', OpEvent (EvLog LogInfo ("Tool call: " +:+ name)) :: tr)
  | (inl e, g', w', tr) =>
      ((handle_error e).1, g', w',
       OpEvent (EvLog LogInfo ("Tool call: " +:+ name)) :: tr ++ (handle_error e).2)
  end.

End Handlers.

End OnePasswordServer.

(** ** A scripted vault to run the definitions on *)

Module ScriptVault.

(** Lower and upper case of the letters of ASCII. *)
Definition ascii_lower (c : Ascii.ascii) : Ascii.ascii :=
  let n := Ascii.N_of_ascii c in
  if ((65 <=? n) && (n <=? 90))%N then Ascii.ascii_of_N (n + 32) else c.

Definition ascii_upper (c : Ascii.ascii) : Ascii.ascii :=
  let n := Ascii.N_of_ascii c in
  if ((97 <=? n) && (n <=? 122))%N then Ascii.ascii_of_N (n - 32) else c.

Fixpoint str_map (f : Ascii.ascii -> Ascii.ascii) (s : string) : string :=
  match s with
  | EmptyString => EmptyString
  | String c rest => String (f c) (str_map f rest)
  end.

Definition space : Ascii.ascii := Ascii.ascii_of_nat 32.

Fixpoint lstrip (s : string) : string :=
  match s with
  | EmptyString => EmptyString
  | String c rest => if decide (c = space) then lstrip rest else s
  end.

Fixpoint rstrip (s : string) : string :=
  match s with
  | EmptyString => EmptyString
  | String c rest =>
      match rstrip rest with
      | EmptyString => if decide (c = space) then EmptyString else String c EmptyString
      | kept => String c kept
      end
  end.

#[global] Instance pystr : PyStr := {|
  str_lower := str_map ascii_lower;
  str_upper := str_map ascii_upper;
  str_strip s := rstrip (lstrip s);
  set_repr _ := "{...}"
|}.

Record world := {
  now : Q;
  auth_error : option string;
  vaults : list VaultOverview * option string;
  items : list ItemOverview * option string;
  item : string + Item;
  secrets : gmap string string
}.

Definition later (d : Q) (w : world) : world :=
  {| now := Qred (now w + d); auth_error := auth_error w; vaults := vaults w;
     items := items w; item := item w; secrets := secrets w |}.

#[global] Instance sdk : OnePasswordSDK world := {|
  Client_authenticate _ w := (auth_error w, w);
  vaults_list_all w := (vaults w, w);
  items_list_all _ w := (items w, w);
  items_get _ _ w := (item w, w);
  secrets_resolve reference w :=
    (match secrets w !! reference with
     | Some secret => inr secret
     | None => inl "no such secret"
     end, w)
|}.

#[global] Instance monotonic : Monotonic world := {|
  time_monotonic := now;
  asyncio_sleep := later;
  format_2f _ := "0.00"
|}.

#[global] Instance format : OpFormat := {|
  format_vaults _ := "{vaults}";
  format_items _ _ := "{items}";
  format_item _ := "{item}"
|}.

(** Two vaults, [AI] and [Personal]; one login with a user name and a
    password; one secret. *)
Definition login : Item :=
  {| Item_id := "i1"; Item_title := "GitHub"; Item_category := "LOGIN";
     Item_fields :=
       Some [ {| Field_id := "username"; Field_title := "username";
                 Field_type := Some "TEXT"; Field_value := Some "octocat" |};
              {| Field_id := "password"; Field_title := "password";
                 Field_type := Some "CONCEALED"; Field_value := Some "hunter2" |} ];
     Item_tags := None; Item_urls := None |}.

Definition start (t : Q) : world :=
  {| now := t; auth_error := None;
     vaults := ([ {| Vault_id := "v1"; Vault_name := "AI" |};
                  {| Vault_id := "v2"; Vault_name := "Personal" |} ], None);
     items := ([ {| Overview_id := "i1"; Overview_title := "GitHub";
                    Overview_category := "LOGIN" |} ], None);
     item := inr login;
     secrets := {[ "op://AI/GitHub/password" := "hunter2";
                   "op://AI/i1/one-time password?attribute=otp" := "123456" ]} |}.

(** A client as [OnePasswordClient("token", allowed_vaults)] leaves it. *)
Definition client (allowed_vaults : string) : OnePasswordClient :=
  {| _token := "token"; _client := None;
     _vault_filter := (VaultFilter_init (Some allowed_vaults) ∅).1;
     _vault_cache := ∅ |}.

Definition environ : gmap string string :=
  {[ "OP_SERVICE_ACCOUNT_TOKEN" := "token" ]}.

Definition fresh : OnePasswordServer.globals :=
  {| OnePasswordServer._op_client := None; OnePasswordServer._rate_limiter := None |}.

End ScriptVault.

(** A reference as [resolve_secret] reads it: [op://], a vault, an item and
    the rest, with a slash after the vault and after the item. *)
Definition wellformed (secret_reference vault : string) : Prop :=
  exists item rest,
    secret_reference = "op://" +:+ vault +:+ "/" +:+ item +:+ "/" +:+ rest /\
    str_in "/" vault = false /\ str_in "/" item = false.

(** How a method of the client can fail before it has asked the SDK for an
    item or a secret: the sign-in was refused, or the listing of the vaults
    raised, and that exception is not wrapped. *)
Definition early_failure (e : op_exn) (tr : list op_event) : Prop :=
  (exists msg, e = OnePasswordClientError ("Failed to authenticate: " +:+ msg)) \/
  (exists msg listing before,
     e = SdkError msg /\ tr = before ++ [OpVaultsListAll (listing, Some msg)]).

(** What a run of [list_items], [get_item] or [get_otp] for [vault_id] keeps
    to: the allowlist is not changed; an answer, a call for items or a
    resolved reference each mean that the cache names the vault and that the
    name is allowed; items are asked of that vault only; and a failure is an
    [OnePasswordClientError] or an early one. *)
Definition guarded `{!PyStr} {W A : Type} (vault_id : string) (self : OnePasswordClient)
    (run : (op_exn + A) * OnePasswordClient * W * list op_event) : Prop :=
  match run with
  | (r, self', _, tr) =>
      let vault_allowed :=
        exists vault_name,
          _vault_cache self' !! vault_id = Some vault_name /\
          is_allowed (_vault_filter self) vault_name = true in
      _vault_filter self' = _vault_filter self /\
      (forall a, r = inr a -> vault_allowed) /\
      (item_calls tr <> [] \/ resolved tr <> [] -> vault_allowed) /\
      (forall v, v ∈ item_calls tr -> v = vault_id) /\
      (forall e, r = inl e ->
         (exists msg, e = OnePasswordClientError msg) \/ early_failure e tr)
  end.

(** ** The client when a call raises an exception of any class *)

(** The definitions above follow the client while boto3 raises nothing but
    [ClientError], [json.loads] nothing but [JSONDecodeError], and the
    deadline is a date [datetime] can hold.  [except ClientError] and
    [except json.JSONDecodeError] catch these classes and no other: an
    exception of another class leaves the method at once.  The module [Full]
    follows those exceptions too; its definitions bear the names of the
    methods again. *)
Module Full.

(** What a call of the boto3 client raises: a [ClientError], or an exception
    of a class that no [except] of [sqs_client.py] names (an
    [EndpointConnectionError] of botocore, say), with its text. *)
Inductive raised :=
| RaisedClientError (e : ClientError)
| RaisedOther (text : string).

(** The exceptions that can leave a method of the client.  [OtherError] is
    one of a class other than [ClientError], [SQSClientError] and
    [JSONDecodeError], a subclass of [Exception]: of botocore, the
    [RecursionError] or [ValueError] of [json], the [OverflowError] of
    [datetime]. *)
Inductive exn :=
| BotoClientError (e : ClientError)
| OtherError (text : string)
| SQSClientError (msg : string)
| SQSTimeoutError (msg : string).

Definition exn_of (e : raised) : exn :=
  match e with
  | RaisedClientError e => BotoClientError e
  | RaisedOther text => OtherError text
  end.

Definition class_of (e : exn) : exn_class :=
  match e with
  | BotoClientError _ => ClsClientError
  | OtherError _ => ClsException
  | SQSClientError _ => ClsSQSClientError
  | SQSTimeoutError _ => ClsSQSTimeoutError
  end.

Definition isinstance (e : exn) (c : exn_class) : bool := issubclass (class_of e) c.

(** [handle_error] of [server.py] *)
Definition handle_error (error : exn) : error_report :=
  if isinstance error ClsSQSTimeoutError then ReportTimedOut
  else if isinstance error ClsSQSClientError then ReportCommunication
  else ReportUnexpected.

(** [str(error)] *)
Definition exn_text (e : exn) : string :=
  match e with
  | BotoClientError c => client_error_text c
  | OtherError text => text
  | SQSClientError msg => msg
  | SQSTimeoutError msg => msg
  end.

(** What the client does to the outside, with what the call raised or
    answered. *)
Inductive event :=
| EvSend (queue : string) (message : pydict) (r : option raised)
| EvReceive (queue : string) (max_number wait_time : Z)
            (r : raised + option (list Message))
| EvChangeVisibility (queue handle : string) (visibility : Z) (r : option raised)
| EvDelete (queue handle : string) (r : option raised)
| EvSleep (seconds : Q)
| EvLog (level : loglevel) (msg : string).

(** The boto3 SQS client: a call raises or answers. *)
Class SQS (W : Type) := {
  sqs_send_message : string -> string -> W -> option raised * W;
  sqs_receive_message : string -> Z -> Z -> W -> (raised + option (list Message)) * W;
  sqs_change_message_visibility : string -> string -> Z -> W -> option raised * W;
  sqs_delete_message : string -> string -> W -> option raised * W
}.

(** What [json.loads] does with a text: it yields a value, raises
    [JSONDecodeError], or raises an exception of another class
    ([RecursionError] on deep nesting, [ValueError] on a very long
    integer). *)
Inductive loaded :=
| Loaded (v : pyvalue)
| JSONDecodeError (text : string)
| LoadRaised (text : string).

(** [json.dumps], which raises (left, with the text) or gives the text of
    the dictionary, and [json.loads]. *)
Class Json := {
  json_dumps : pydict -> string + string;
  json_loads : string -> loaded
}.

(** [datetime.min] and [datetime.max] in the seconds of [datetime_now], and
    [str()] of the [OverflowError] that [timedelta(minutes=m)] or the sum
    [start_time + timedelta(minutes=m)] raises. *)
Class Datetime := {
  datetime_min : Q;
  datetime_max : Q;
  overflow_text : Z -> string
}.

(** The most days a [timedelta] holds. *)
Definition MAX_DELTA_DAYS : Z := 999999999.

(** [timedelta(minutes=m)] in seconds, when its days are in range; [m / 1440]
    rounds down, as the days of a [timedelta] do. *)
Definition timedelta_minutes (m : Z) : option Q :=
  if ((- MAX_DELTA_DAYS <=? m / 1440) && (m / 1440 <=? MAX_DELTA_DAYS))%Z
  then Some (inject_Z (60 * m))
  else None.

Inductive outcome (A : Type) :=
| Ok (a : A)
| Raise (e : exn).
Arguments Ok {A} a.
Arguments Raise {A} e.

Definition M (W A : Type) : Type := W -> outcome A * W * list event.

Definition ret {W A} (a : A) : M W A := fun w => (Ok a, w, []).

Definition bind {W A B} (m : M W A) (f : A -> M W B) : M W B :=
  fun w =>
    match m w with
    | (Ok a, w1, t1) =>
        match f a w1 with
        | (r, w2, t2) => (r, w2, t1 ++ t2)
        end
    | (Raise e, w1, t1) => (Raise e, w1, t1)
    end.

Definition raise {W A} (e : exn) : M W A := fun w => (Raise e, w, []).

Declare Scope full_scope.
Notation "x <- m ;; k" := (bind m (fun x => k))
  (at level 100, m at next level, right associativity) : full_scope.
Notation "m ;;; k" := (bind m (fun _ => k))
  (at level 100, right associativity) : full_scope.
Local Open Scope full_scope.

Definition emit {W} (e : event) : M W unit := fun w => (Ok tt, w, [e]).

Definition logger {W} (level : loglevel) (msg : string) : M W unit :=
  emit (EvLog level msg).

Inductive loop_ctl :=
| Continue (poll_delay : Q)
| Return (response_data : pyvalue).

Section Client.
Context {W : Type} `{!SQS W, !Runtime W, !Json, !Datetime}.

Definition sleep (seconds : Q) : M W unit :=
  fun w => (Ok tt, time_sleep seconds w, [EvSleep seconds]).

(** [self.send_message(message)]: [json.dumps(message)], then the call. *)
Definition send_message (self : SQSClient) (message : pydict) : M W unit :=
  fun w =>
    match json_dumps message with
    | inl text => (Raise (OtherError text), w, [])
    | inr body =>
        match sqs_send_message (request_queue_url self) body w with
        | (r, w') =>
            (match r with Some e => Raise (exn_of e) | None => Ok tt end,
             w', [EvSend (request_queue_url self) message r])
        end
    end.

(** [self.client.receive_message(...)] inside its [try]: a [ClientError] is
    a value for the [except] clause, another exception goes on. *)
Definition receive_message (self : SQSClient) (wait_time_seconds : Z)
  : M W (ClientError + option (list Message)) :=
  fun w =>
    match sqs_receive_message (response_queue_url self) 10 wait_time_seconds w with
    | (r, w') =>
        (match r with
         | inl (RaisedClientError e) => Ok (inl e)
         | inl (RaisedOther text) => Raise (OtherError text)
         | inr response => Ok (inr response)
         end,
         w', [EvReceive (response_queue_url self) 10 wait_time_seconds r])
    end.

(** [change_message_visibility(..., VisibilityTimeout=0)] with
    [except ClientError: pass]. *)
Definition release (self : SQSClient) (message : Message) : M W unit :=
  fun w =>
    match sqs_change_message_visibility
            (response_queue_url self) (ReceiptHandle message) 0 w with
    | (r, w') =>
        (match r with
         | Some (RaisedOther text) => Raise (OtherError text)
         | Some (RaisedClientError _) | None => Ok tt
         end,
         w', [EvChangeVisibility (response_queue_url self) (ReceiptHandle message) 0 r])
    end.

(** [self.client.delete_message(...)]: the [except] around it names
    [json.JSONDecodeError] only. *)
Definition delete (self : SQSClient) (message : Message) : M W unit :=
  fun w =>
    match sqs_delete_message (response_queue_url self) (ReceiptHandle message) w with
    | (r, w') =>
        (match r with Some e => Raise (exn_of e) | None => Ok tt end,
         w', [EvDelete (response_queue_url self) (ReceiptHandle message) r])
    end.

(** The [for message in messages] loop; [matching_message] is the variable
    it assigns. *)
Fixpoint scan_messages (self : SQSClient) (execution_id : string)
    (messages : list Message) (matching_message : option Message)
  : M W (option Message) :=
  match messages with
  | [] => ret matching_message
  | message :: rest =>
      if id_matches execution_id message
      then scan_messages self execution_id rest (Some message)
      else release self message ;;;
           scan_messages self execution_id rest matching_message
  end.

(** [if matching_message:] and what follows it, up to the backoff. *)
Definition handle_match (self : SQSClient) (execution_id : string)
    (matching_message : option Message) : M W (option pyvalue) :=
  match matching_message with
  | None => ret None
  | Some m =>
      match json_loads (Body m) with
      | Loaded response_data =>
          delete self m ;;;
          logger LogInfo ("Received response for " +:+ execution_id) ;;;
          ret (Some response_data)
      | JSONDecodeError e =>
          logger LogWarning ("Invalid JSON in response: " +:+ e) ;;;
          release self m ;;;
          ret None
      | LoadRaised text => raise (OtherError text)
      end
  end.

(** One round of the [while] loop, after its test. *)
Definition poll_once (self : SQSClient) (execution_id : string)
    (wait_time_seconds : Z) (poll_delay : Q) : M W loop_ctl :=
  response <- receive_message self wait_time_seconds ;;
  match response with
  | inl e =>
      logger LogWarning ("Error receiving message: " +:+ client_error_text e) ;;;
      sleep poll_delay ;;;
      ret (Continue (next_poll_delay poll_delay))
  | inr response =>
      let messages := default [] response in
      match messages with
      | [] =>
          sleep (Qmin poll_delay poll_delay_cap) ;;;
          ret (Continue (next_poll_delay poll_delay))
      | _ :: _ =>
          matching_message <- scan_messages self execution_id messages None ;;
          found <- handle_match self execution_id matching_message ;;
          match found with
          | Some response_data => ret (Return response_data)
          | None =>
              sleep (Qmin poll_delay poll_delay_cap) ;;;
              ret (Continue (next_poll_delay poll_delay))
          end
      end
  end.

(** [while datetime.now() < timeout: ...], then the [raise].  [fuel] bounds
    the rounds; [None] is a loop cut short. *)
Fixpoint wait_loop (fuel : nat) (self : SQSClient) (execution_id : string)
    (timeout : Q) (wait_time_seconds : Z) (poll_delay : Q) (w : W)
  : option (outcome pyvalue * W * list event) :=
  match fuel with
  | O => None
  | S fuel' =>
      if Qlt_le_dec (datetime_now w) timeout then
        match poll_once self execution_id wait_time_seconds poll_delay w with
        | (Ok (Continue poll_delay'), w1, t1) =>
            match wait_loop fuel' self execution_id timeout wait_time_seconds
                    poll_delay' w1 with
            | Some (r, w2, t2) => Some (r, w2, t1 ++ t2)
            | None => None
            end
        | (Ok (Return response_data), w1, t1) => Some (Ok response_data, w1, t1)
        | (Raise e, w1, t1) => Some (Raise e, w1, t1)
        end
      else Some (Raise (SQSTimeoutError (timeout_text execution_id)), w, [])
  end.

(** [timeout = start_time + timedelta(minutes=timeout_minutes)], which is an
    [OverflowError] when the minutes or the sum are out of range. *)
Definition deadline (w : W) (timeout_minutes : Z) : option Q :=
  match timedelta_minutes timeout_minutes with
  | None => None
  | Some delta =>
      let timeout := (datetime_now w + delta)%Q in
      if Qle_bool datetime_min timeout && Qle_bool timeout datetime_max
      then Some timeout
      else None
  end.

Definition _wait_for_response (fuel : nat) (self : SQSClient)
    (execution_id : string) (timeout_minutes wait_time_seconds : Z) (w : W)
  : option (outcome pyvalue * W * list event) :=
  match deadline w timeout_minutes with
  | None => Some (Raise (OtherError (overflow_text timeout_minutes)), w, [])
  | Some timeout =>
      wait_loop fuel self execution_id timeout wait_time_seconds initial_poll_delay w
  end.

(** [execution_id], [timestamp] and the request, with the world after
    [uuid4()]. *)
Definition prepare_request (operation : string) (params : option pydict) (w : W)
  : string * pydict * W :=
  let '(execution_id, w0) := uuid4 w in
  let timestamp := isoformat (datetime_now w0) in
  (execution_id, build_request operation execution_id timestamp params, w0).

Definition send_request (fuel : nat) (self : SQSClient) (operation : string)
    (params : option pydict) (timeout_minutes wait_time_seconds : Z) (w : W)
  : option (outcome pyvalue * W * list event) :=
  let '(execution_id, request, w0) := prepare_request operation params w in
  let log1 := EvLog LogInfo
    ("Sending request " +:+ execution_id +:+ " for operation '" +:+ operation +:+ "'") in
  match send_message self request w0 with
  | (Raise (BotoClientError e), w1, t1) =>
      Some (Raise (SQSClientError ("Failed to send request: " +:+ client_error_text e)),
            w1, log1 :: t1)
  | (Raise e, w1, t1) => Some (Raise e, w1, log1 :: t1)
  | (Ok _, w1, t1) =>
      let log2 := EvLog LogInfo ("Waiting for response to " +:+ execution_id) in
      match _wait_for_response fuel self execution_id timeout_minutes
              wait_time_seconds w1 with
      | Some (r, w2, t2) => Some (r, w2, log1 :: t1 ++ log2 :: t2)
      | None => None
      end
  end.

(** The exception that [self.send_message(request)] raises in
    [send_request], if it raises one. *)
Definition publish_answer (self : SQSClient) (operation : string)
    (params : option pydict) (w : W) : option exn :=
  let '(_, request, w0) := prepare_request operation params w in
  match send_message self request w0 with
  | (Raise e, _, _) => Some e
  | (Ok _, _, _) => None
  end.

End Client.

(** Time does not run backwards across a call of the transport, and
    [time.sleep(d)] returns no earlier than [d] seconds later. *)
Class ClockLaws (W : Type) `{!SQS W, !Runtime W} := {
  receive_clock : forall q n t w,
    (datetime_now w <= datetime_now (sqs_receive_message q n t w).2)%Q;
  visibility_clock : forall q h v w,
    (datetime_now w <= datetime_now (sqs_change_message_visibility q h v w).2)%Q;
  delete_clock : forall q h w,
    (datetime_now w <= datetime_now (sqs_delete_message q h w).2)%Q;
  sleep_clock : forall d w,
    (datetime_now w + d <= datetime_now (time_sleep d w))%Q
}.

(** [uuid4] never yields an identifier it has issued before; [issued] is the
    set of those, which nothing else changes. *)
Class UuidLaws (W : Type) `{!SQS W, !Runtime W} := {
  issued : W -> gset string;
  uuid4_fresh : forall w, (uuid4 w).1 ∉ issued w;
  uuid4_issued : forall w, issued (uuid4 w).2 = {[ (uuid4 w).1 ]} ∪ issued w;
  send_issued : forall q b w, issued (sqs_send_message q b w).2 = issued w;
  receive_issued : forall q n t w, issued (sqs_receive_message q n t w).2 = issued w;
  visibility_issued : forall q h v w,
    issued (sqs_change_message_visibility q h v w).2 = issued w;
  delete_issued : forall q h w, issued (sqs_delete_message q h w).2 = issued w;
  sleep_issued : forall d w, issued (time_sleep d w) = issued w
}.

(** What a list of events shows. *)
Definition released (tr : list event) : list string :=
  omap (fun e => match e with EvChangeVisibility _ h Z0 _ => Some h | _ => None end) tr.

Definition deleted (tr : list event) : list string :=
  omap (fun e => match e with EvDelete _ h _ => Some h | _ => None end) tr.

Definition sleeps (tr : list event) : list Q :=
  omap (fun e => match e with EvSleep d => Some d | _ => None end) tr.

Definition fetched (tr : list event) : list (list Message) :=
  omap (fun e => match e with EvReceive _ _ _ (inr (Some l)) => Some l | _ => None end) tr.

Definition observed (tr : list event) : list Message := concat (fetched tr).

Definition sent (tr : list event) : list pydict :=
  omap (fun e => match e with EvSend _ message _ => Some message | _ => None end) tr.

(** The exception of another class that the call of an event raised. *)
Definition raised_other (e : event) : option string :=
  match e with
  | EvSend _ _ (Some (RaisedOther text))
  | EvReceive _ _ _ (inl (RaisedOther text))
  | EvChangeVisibility _ _ _ (Some (RaisedOther text))
  | EvDelete _ _ (Some (RaisedOther text)) => Some text
  | _ => None
  end.

(** What the server does: what its client does, and the line of
    [logger.exception]. *)
Inductive server_event :=
| SvClient (e : event)
| SvLogException (msg : string).

Definition client_events (tr : list server_event) : list event :=
  omap (fun e => match e with SvClient e => Some e | _ => None end) tr.

Section Server.
Context {W : Type} `{!SQS W, !Runtime W, !Json, !Datetime, !Format}.

(** The convenience methods of [SQSClient]; [wait_time_seconds] keeps its
    default 3. *)
Definition health_check (fuel : nat) (self : SQSClient) (timeout_minutes : Z) :=
  send_request fuel self "tws_health" None timeout_minutes 3.

Definition account_values (fuel : nat) (self : SQSClient) (timeout_minutes : Z) :=
  send_request fuel self "account_values" None timeout_minutes 3.

Definition positions (fuel : nat) (self : SQSClient) (timeout_minutes : Z) :=
  send_request fuel self "raw_positions" None timeout_minutes 3.

Definition daily_ohlcv (fuel : nat) (self : SQSClient) (timeout_minutes : Z) :=
  send_request fuel self "daily_ohlcv" None timeout_minutes 3.

Definition hourly_ohlcv (fuel : nat) (self : SQSClient) (timeout_minutes : Z) :=
  send_request fuel self "hourly_ohlcv" None timeout_minutes 3.

Definition contract_details (fuel : nat) (self : SQSClient) (timeout_minutes : Z) :=
  send_request fuel self "contract_details" None timeout_minutes 3.

Definition find_symbols (fuel : nat) (self : SQSClient) (query : pyvalue)
    (timeout_minutes : Z) :=
  send_request fuel self "find_symbols" (Some {[ "query" := query ]}) timeout_minutes 3.

Definition get_contract_by_id (fuel : nat) (self : SQSClient)
    (contract_id check_ohlcv : pyvalue) (timeout_minutes : Z) :=
  send_request fuel self "get_contract_details_by_id"
    (Some (<["contract_id" := contract_id]>
             {[ "check_ohlcv_availability" := check_ohlcv ]}))
    timeout_minutes 3.

Definition custom_ohlcv (fuel : nat) (self : SQSClient)
    (symbols duration_str bar_size_setting : pyvalue) (timeout_minutes : Z) :=
  send_request fuel self "ohlcv"
    (Some (<["symbols" := symbols]>
             (<["duration_str" := duration_str]>
                {[ "bar_size_setting" := bar_size_setting ]})))
    timeout_minutes 3.

(** [return [TextContent(type="text", text=f"{title}{format_response(result)}")]]
    after a call of the client. *)
Definition answered (title : string) (run : option (outcome pyvalue * W * list event))
  : option (outcome string * W * list event) :=
  match run with
  | Some (Ok result, w', tr) => Some (Ok (title +:+ format_response result), w', tr)
  | Some (Raise e, w', tr) => Some (Raise e, w', tr)
  | None => None
  end.

(** The body of the [try] of [call_tool]. *)
Definition dispatch (fuel : nat) (client : SQSClient) (name : string)
    (arguments : pydict) (w : W) : option (outcome string * W * list event) :=
  if decide (name = "ibkr_health") then
    answered ("TWS Health Check:" +:+ newline) (health_check fuel client 2 w)
  else if decide (name = "ibkr_account_summary") then
    answered ("Account Summary:" +:+ newline) (account_values fuel client 5 w)
  else if decide (name = "ibkr_positions") then
    answered ("Positions:" +:+ newline) (positions fuel client 5 w)
  else if decide (name = "ibkr_daily_ohlcv") then
    answered ("Daily OHLCV Processing Result:" +:+ newline) (daily_ohlcv fuel client 20 w)
  else if decide (name = "ibkr_hourly_ohlcv") then
    answered ("Hourly OHLCV Processing Result:" +:+ newline) (hourly_ohlcv fuel client 20 w)
  else if decide (name = "ibkr_contract_details") then
    answered ("Contract Details Processing Result:" +:+ newline)
      (contract_details fuel client 20 w)
  else if decide (name = "ibkr_search_symbols") then
    let query := default (PStr "") (arguments !! "query") in
    if negb (truthy query) then
      Some (Ok "Error: 'query' parameter is required", w, [])
    else
      answered ("Symbol Search Results for '" +:+ py_str query +:+ "':" +:+ newline)
        (find_symbols fuel client query 2 w)
  else if decide (name = "ibkr_contract_by_id") then
    match arguments !! "contract_id" with
    | None | Some PNone =>
        Some (Ok "Error: 'contract_id' parameter is required", w, [])
    | Some contract_id =>
        let check_ohlcv := default (PBool false) (arguments !! "check_ohlcv") in
        answered ("Contract Details for ID " +:+ py_str contract_id +:+ ":" +:+ newline)
          (get_contract_by_id fuel client contract_id check_ohlcv 2 w)
    end
  else if decide (name = "ibkr_custom_ohlcv") then
    let symbols := default (PList []) (arguments !! "symbols") in
    if negb (truthy symbols) then
      Some (Ok "Error: 'symbols' parameter is required and must be non-empty", w, [])
    else
      let duration := default (PStr "7 D") (arguments !! "duration") in
      let bar_size := default (PStr "1 day") (arguments !! "bar_size") in
      answered ("Custom OHLCV Result:" +:+ newline)
        (custom_ohlcv fuel client symbols duration bar_size 20 w)
  else
    Some (Ok ("Unknown tool: " +:+ name), w, []).

(** [call_tool]: a [ValueError] that leaves it or the text it answers, the
    global [_sqs_client] afterwards, the world and the events.  [except
    Exception] catches whatever the client raises. *)
Definition call_tool (fuel : nat) (name : string) (arguments : pydict)
    (environ : gmap string string) (_sqs_client : option SQSClient) (w : W)
  : option ((ValueError + string) * option SQSClient * W * list server_event) :=
  match get_sqs_client environ _sqs_client with
  | (inl e, cache) => Some (inl e, cache, w, [])
  | (inr client, cache) =>
      match dispatch fuel client name arguments w with
      | Some (Ok text, w', tr) => Some (inr text, cache, w', map SvClient tr)
      | Some (Raise e, w', tr) =>
          Some (inr (report_text (handle_error e) (exn_text e)), cache, w',
                map SvClient tr ++ [SvLogException ("Error calling tool " +:+ name)])
      | None => None
      end
  end.

End Server.

End Full.

(** ** A scripted world for [Full] *)

Module FullScript.
Import Full.

Record world := {
  clock : Q;
  inbox : list (raised + option (list Message));
  send_error : option raised;
  release_error : option raised;
  delete_error : option raised;
  counter : nat
}.

Definition tick (d : Q) (w : world) : world :=
  {| clock := Qred (clock w + d); inbox := inbox w; send_error := send_error w;
     release_error := release_error w; delete_error := delete_error w;
     counter := counter w |}.

Definition pop (w : world) : (raised + option (list Message)) * world :=
  match inbox w with
  | [] => (inr None, w)
  | r :: rest =>
      (r, {| clock := clock w; inbox := rest; send_error := send_error w;
             release_error := release_error w; delete_error := delete_error w;
             counter := counter w |})
  end.

Definition fresh (w : world) : string * world :=
  ("uuid-" +:+ pretty (counter w),
   {| clock := clock w; inbox := inbox w; send_error := send_error w;
      release_error := release_error w; delete_error := delete_error w;
      counter := S (counter w) |}).

#[global] Instance sqs : SQS world := {|
  sqs_send_message _ _ w := (send_error w, w);
  sqs_receive_message _ _ _ w := pop w;
  sqs_change_message_visibility _ _ _ w := (release_error w, w);
  sqs_delete_message _ _ w := (delete_error w, w)
|}.

#[global] Instance runtime : Runtime world := {|
  datetime_now := clock;
  isoformat _ := "2024-01-01T00:00:00";
  time_sleep := tick;
  uuid4 := fresh
|}.

(** Accepts the bodies ["1"] and ["2"], runs out of stack on ["[[[["], and
    finds no JSON in anything else; a dictionary with the key ["deep"] is too
    deep to write. *)
#[global] Instance json : Json := {|
  json_dumps message :=
    match message !! "deep" with
    | Some _ => inl "maximum recursion depth exceeded while encoding a JSON object"
    | None => inr "{}"
    end;
  json_loads s :=
    if decide (s = "1") then Loaded (PInt 1)
    else if decide (s = "2") then Loaded (PInt 2)
    else if decide (s = "[[[[") then
      LoadRaised "maximum recursion depth exceeded while decoding a JSON array from a unicode string"
    else JSONDecodeError "Expecting value"
|}.

(** A calendar of ten thousand days. *)
#[global] Instance datetime : Datetime := {|
  datetime_min := 0;
  datetime_max := 864000000;
  overflow_text _ := "date value out of range"
|}.

Definition start (t : Q) (msgs : list (raised + option (list Message))) : world :=
  {| clock := t; inbox := msgs; send_error := None; release_error := None;
     delete_error := None; counter := 0 |}.

(** The same, with what the transport raises at a send, a release and a
    delete. *)
Definition faulty (t : Q) (msgs : list (raised + option (list Message)))
    (se re de : option raised) : world :=
  {| clock := t; inbox := msgs; send_error := se; release_error := re;
     delete_error := de; counter := 0 |}.

End FullScript.

(** ** The first definitions inside [Full] *)

(** A transport and a parser of the first kind as ones of [Full]: they raise
    nothing but [ClientError] and [JSONDecodeError], and [json.dumps] does not
    raise. *)
Definition lift_sqs {W} `{!SQS W} : Full.SQS W := {|
  Full.sqs_send_message q body w :=
    let '(r, w') := sqs_send_message q body w in (Full.RaisedClientError <$> r, w');
  Full.sqs_receive_message q n t w :=
    let '(r, w') := sqs_receive_message q n t w in
    (match r with
     | inl e => inl (Full.RaisedClientError e)
     | inr response => inr response
     end, w');
  Full.sqs_change_message_visibility q h v w :=
    let '(r, w') := sqs_change_message_visibility q h v w in
    (Full.RaisedClientError <$> r, w');
  Full.sqs_delete_message q h w :=
    let '(r, w') := sqs_delete_message q h w in (Full.RaisedClientError <$> r, w')
|}.

Definition lift_json `{!Json} : Full.Json := {|
  Full.json_dumps message := inr (json_dumps message);
  Full.json_loads s :=
    match json_loads s with
    | inl e => Full.JSONDecodeError e
    | inr v => Full.Loaded v
    end
|}.

Definition lift_exn (e : exn) : Full.exn :=
  match e with
  | BotoClientError c => Full.BotoClientError c
  | SQSClientError msg => Full.SQSClientError msg
  | SQSTimeoutError msg => Full.SQSTimeoutError msg
  end.

Definition lift_event (e : event) : Full.event :=
  match e with
  | EvSend q message r => Full.EvSend q message (Full.RaisedClientError <$> r)
  | EvReceive q n t r =>
      Full.EvReceive q n t
        (match r with
         | inl e => inl (Full.RaisedClientError e)
         | inr response => inr response
         end)
  | EvChangeVisibility q h v r =>
      Full.EvChangeVisibility q h v (Full.RaisedClientError <$> r)
  | EvDelete q h r => Full.EvDelete q h (Full.RaisedClientError <$> r)
  | EvSleep d => Full.EvSleep d
  | EvLog level msg => Full.EvLog level msg
  end.

Definition lift_outcome {A} (r : outcome A) : Full.outcome A :=
  match r with
  | Ok a => Full.Ok a
  | Raise e => Full.Raise (lift_exn e)
  end.

Definition lift_run {A W} (run : option (outcome A * W * list event))
  : option (Full.outcome A * W * list Full.event) :=
  match run with
  | Some (r, w, tr) => Some (lift_outcome r, w, lift_event <$> tr)
  | None => None
  end.

Definition lift_ctl (c : loop_ctl) : Full.loop_ctl :=
  match c with
  | Continue d => Full.Continue d
  | Return p => Full.Return p
  end.

(** ** The rate limiter on floats *)

(** [RateLimiter] above computes on rationals, so its subtraction is exact.
    Python computes [now - self._last_resolve_time] and
    [self.min_delay - elapsed] on binary64 floats, where each is rounded.  The
    module [OnFloats] follows [acquire] over the floats of a class: their
    subtraction, their order, and the rational each stands for. *)
Module OnFloats.

Class Float := {
  float : Type;
  zero : float;
  sub : float -> float -> float;
  ltb : float -> float -> bool;
  exact : float -> Q
}.

Inductive event `{Float} :=
| EvSleep (seconds : float)
| EvLog (level : loglevel) (msg : string).

Record RateLimiter `{Float} := {
  min_delay : float;
  _last_resolve_time : float
}.

(** [RateLimiter.__init__] *)
Definition RateLimiter_init `{Float} (min_delay_seconds : float) : RateLimiter :=
  {| min_delay := min_delay_seconds; _last_resolve_time := zero |}.

(** [time.monotonic()], [asyncio.sleep], and the [:.2f] of the debug line. *)
Class Monotonic `{Float} (W : Type) := {
  time_monotonic : W -> float;
  asyncio_sleep : float -> W -> W;
  format_2f : float -> string
}.

(** [RateLimiter.acquire], the body run under [self._lock]. *)
Definition acquire `{Float} {W} `{!Monotonic W} (self : RateLimiter) (w : W)
  : RateLimiter * W * list event :=
  let now := time_monotonic w in
  let elapsed := sub now (_last_resolve_time self) in
  let '(w1, t) :=
    if ltb elapsed (min_delay self) && ltb zero (_last_resolve_time self) then
      let wait_time := sub (min_delay self) elapsed in
      (asyncio_sleep wait_time w,
       [EvLog LogDebug ("Rate limiting: waiting " +:+ format_2f wait_time +:+ "s");
        EvSleep wait_time])
    else (w, []) in
  ({| min_delay := min_delay self; _last_resolve_time := time_monotonic w1 |}, w1, t).

Definition sleeps `{Float} (tr : list event) : list float :=
  omap (fun e => match e with EvSleep d => Some d | _ => None end) tr.

(** The unit roundoff of binary64, [2^-53]. *)
Definition unit_roundoff : Q := 1 # 9007199254740992.

(** What rounding to nearest gives, away from overflow and from [nan]: the
    order of floats is that of the numbers they stand for; a difference of a
    float and a smaller one is off by at most the unit roundoff of its exact
    value; and rounding keeps a difference on the side of a float where its
    exact value is. *)
Class FloatLaws `{Float} := {
  exact_zero : (exact zero == 0)%Q;
  ltb_exact : forall x y, ltb x y = true <-> (exact x < exact y)%Q;
  sub_error : forall x y,
    (exact y <= exact x)%Q ->
    ((1 - unit_roundoff) * (exact x - exact y) <= exact (sub x y))%Q /\
    (exact (sub x y) <= (1 + unit_roundoff) * (exact x - exact y))%Q;
  sub_monotone : forall x y z,
    (exact z <= exact x - exact y)%Q -> (exact z <= exact (sub x y))%Q
}.

(** [asyncio.sleep(d)] returns no earlier than [d] seconds later. *)
Class MonotonicLaws `{Float} (W : Type) `{!Monotonic W} := {
  asyncio_sleep_clock : forall d w,
    (exact (time_monotonic w) + exact d
     <= exact (time_monotonic (asyncio_sleep d w)))%Q
}.

(** The binary64 floats of the kernel: those of Python. *)
Definition exact64 (x : PrimFloat.float) : Q :=
  match Prim2SF x with
  | S754_finite s m e =>
      ((if s then -1 else 1) * (inject_Z (Z.pos m) * Qpower 2 e))%Q
  | _ => 0%Q
  end.

Definition binary64 : Float := {|
  float := PrimFloat.float;
  zero := PrimFloat.zero;
  sub := PrimFloat.sub;
  ltb := PrimFloat.ltb;
  exact := exact64
|}.

(** Floats that never round: the rationals. *)
Definition rationals : Float := {|
  float := Q;
  zero := 0%Q;
  sub := Qminus;
  ltb := Qltb;
  exact := fun x => x
|}.

(** A world that is its clock. *)
Definition clock_world (F : Float) (add : @float F -> @float F -> @float F)
  : @Monotonic F (@float F) := {|
  time_monotonic := fun w => w;
  asyncio_sleep := fun d w => add w d;
  format_2f := fun _ => "0.00"
|}.

End OnFloats.

(** * Properties *)

(** ** The backoff sequence *)

Lemma Qmin_left (x y : Q) : (x <= y)%Q -> Qmin x y = x.
Proof.
  intros H. unfold Qmin, GenericMinMax.gmin.
  destruct (x ?= y)%Q eqn:E; try reflexivity.
  apply Qgt_alt in E. lra.
Qed.

Lemma Qmin_right (x y : Q) : (y < x)%Q -> Qmin x y = y.
Proof.
  intros H. unfold Qmin, GenericMinMax.gmin.
  apply Qgt_alt in H. now rewrite H.
Qed.

Lemma next_poll_delay_range (d : Q) :
  (1 # 2 <= d)%Q -> (d <= 5)%Q ->
  (1 # 2 <= next_poll_delay d)%Q /\ (next_poll_delay d <= 5)%Q /\
  (d <= next_poll_delay d)%Q.
Proof.
  intros Hlo Hhi. unfold next_poll_delay, poll_delay_cap.
  destruct (Qlt_le_dec 5 (d * (3 # 2))) as [Hc | Hc].
  - rewrite Qmin_right by exact Hc. lra.
  - rewrite Qmin_left by exact Hc. lra.
Qed.

Lemma backoff_range (k : nat) : (1 # 2 <= backoff k)%Q /\ (backoff k <= 5)%Q.
Proof.
  induction k as [| k [IHlo IHhi]]; simpl.
  - unfold initial_poll_delay. lra.
  - destruct (next_poll_delay_range (backoff k) IHlo IHhi) as (? & ? & ?). tauto.
Qed.

Lemma backoff_step (k : nat) : (backoff k <= backoff (S k))%Q.
Proof.
  destruct (backoff_range k) as [Hlo Hhi]. simpl.
  destruct (next_poll_delay_range (backoff k) Hlo Hhi) as (? & ? & ?). assumption.
Qed.

(** ** The scan of one batch *)

Section Scan.
Context {W : Type} {sqs : SQS W} {runtime : Runtime W} {json : Json}.

Lemma last_match_app eid l1 l2 acc :
  last_match eid (l1 ++ l2) acc = last_match eid l2 (last_match eid l1 acc).
Proof. unfold last_match. apply fold_left_app. Qed.

Lemma last_match_matches eid msgs acc m :
  last_match eid msgs acc = Some m ->
  (m ∈ msgs /\ id_matches eid m = true) \/ acc = Some m.
Proof.
  revert acc. induction msgs as [| x msgs IH]; intros acc H; simpl in *.
  - now right.
  - apply IH in H as [[Hin Hm] | H].
    + left. split; [rewrite elem_of_cons; now right | exact Hm].
    + destruct (id_matches eid x) eqn:E.
      * injection H as ->. left. split; [rewrite elem_of_cons; now left | exact E].
      * now right.
Qed.

Lemma last_match_none eid msgs :
  last_match eid msgs None = None <->
  (forall m, m ∈ msgs -> id_matches eid m = false).
Proof.
  split.
  - induction msgs as [| x msgs IH] using rev_ind; intros H m Hin.
    + inversion Hin.
    + rewrite last_match_app in H. simpl in H.
      destruct (id_matches eid x) eqn:E; [discriminate |].
      apply elem_of_app in Hin as [Hin | Hin]; [now apply IH |].
      apply list_elem_of_singleton in Hin. now subst.
  - intros H. destruct (last_match eid msgs None) as [m |] eqn:E; [| reflexivity].
    apply last_match_matches in E as [[Hin Hm] | ?]; [| discriminate].
    rewrite (H m Hin) in Hm. discriminate.
Qed.

Lemma scan_messages_spec self eid msgs acc (w : W) :
  exists w' tr,
    scan_messages self eid msgs acc w = (Ok (last_match eid msgs acc), w', tr) /\
    released tr = map ReceiptHandle (others eid msgs) /\
    deleted tr = [] /\ sleeps tr = [] /\ fetched tr = [].
Proof.
  revert acc w. induction msgs as [| m msgs IH]; intros acc w; simpl.
  - exists w, []. repeat split.
  - destruct (id_matches eid m) eqn:E; simpl.
    + apply IH.
    + unfold bind, release.
      destruct (sqs_change_message_visibility _ _ _ w) as [r w1].
      destruct (IH acc w1) as (w' & tr & -> & Hr & Hd & Hs & Hf).
      eexists _, _. split; [reflexivity |]. simpl.
      rewrite Hr, Hd, Hs, Hf. repeat split.
Qed.
End Scan.

(** ** One round of the loop *)

Section Round.
Context {W : Type} {sqs : SQS W} {runtime : Runtime W} {json : Json}.

Lemma bind_run {A B} (m : M W A) (f : A -> M W B) (w : W) :
  bind m f w =
  match m w with
  | (Ok a, w1, t1) => let '(r, w2, t2) := f a w1 in (r, w2, t1 ++ t2)
  | (Raise e, w1, t1) => (Raise e, w1, t1)
  end.
Proof. reflexivity. Qed.

(** The round written out: what it returns, where it leaves the world and
    which events it produces, by what the transport and the parser answer. *)
Lemma poll_once_cases self eid wt d (w : W) :
  let q := response_queue_url self in
  let nap := Qmin d poll_delay_cap in
  exists r0 w1,
    sqs_receive_message q 10 wt w = (r0, w1) /\
    match r0 with
    | inl e =>
        poll_once self eid wt d w =
          (Ok (Continue (next_poll_delay d)), time_sleep d w1,
           [EvReceive q 10 wt r0;
            EvLog LogWarning ("Error receiving message: " +:+ client_error_text e);
            EvSleep d])
    | inr resp =>
        match default [] resp with
        | [] =>
            poll_once self eid wt d w =
              (Ok (Continue (next_poll_delay d)), time_sleep nap w1,
               [EvReceive q 10 wt r0; EvSleep nap])
        | msgs =>
            exists w2 tr2,
              scan_messages self eid msgs None w1 =
                (Ok (last_match eid msgs None), w2, tr2) /\
              released tr2 = map ReceiptHandle (others eid msgs) /\
              deleted tr2 = [] /\ sleeps tr2 = [] /\ fetched tr2 = [] /\
              match last_match eid msgs None with
              | None =>
                  poll_once self eid wt d w =
                    (Ok (Continue (next_poll_delay d)), time_sleep nap w2,
                     EvReceive q 10 wt r0 :: tr2 ++ [EvSleep nap])
              | Some m =>
                  match json_loads (Body m) with
                  | inr p =>
                      exists r3 w3,
                        sqs_delete_message q (ReceiptHandle m) w2 = (r3, w3) /\
                        match r3 with
                        | None =>
                            poll_once self eid wt d w =
                              (Ok (Return p), w3,
                               EvReceive q 10 wt r0 :: tr2 ++
                               [EvDelete q (ReceiptHandle m) None;
                                EvLog LogInfo ("Received response for " +:+ eid)])
                        | Some err =>
                            poll_once self eid wt d w =
                              (Raise (BotoClientError err), w3,
                               EvReceive q 10 wt r0 :: tr2 ++
                               [EvDelete q (ReceiptHandle m) (Some err)])
                        end
                  | inl e =>
                      exists r3 w3,
                        sqs_change_message_visibility q (ReceiptHandle m) 0 w2 = (r3, w3) /\
                        poll_once self eid wt d w =
                          (Ok (Continue (next_poll_delay d)), time_sleep nap w3,
                           EvReceive q 10 wt r0 :: tr2 ++
                           [EvLog LogWarning ("Invalid JSON in response: " +:+ e);
                            EvChangeVisibility q (ReceiptHandle m) 0 r3;
                            EvSleep nap])
                  end
              end
        end
    end.
Proof.
  intros q nap.
  destruct (sqs_receive_message q 10 wt w) as [r0 w1] eqn:E0.
  exists r0, w1. split; [reflexivity |].
  assert (Hrecv : receive_message self wt w = (Ok r0, w1, [EvReceive q 10 wt r0])).
  { unfold receive_message. fold q. now rewrite E0. }
  unfold poll_once. rewrite bind_run, Hrecv. fold nap.
  destruct r0 as [e | resp]; [reflexivity |].
  destruct (default [] resp) as [| m0 msgs0] eqn:Emsgs; [reflexivity |].
  destruct (scan_messages_spec self eid (m0 :: msgs0) None w1)
    as (w2 & tr2 & Hscan & Hr & Hd & Hs & Hf).
  exists w2, tr2. repeat (split; [assumption |]).
  rewrite bind_run, Hscan.
  destruct (last_match eid (m0 :: msgs0) None) as [m |]; [| reflexivity].
  unfold handle_match. destruct (json_loads (Body m)) as [e | p].
  - destruct (sqs_change_message_visibility q (ReceiptHandle m) 0 w2)
      as [r3 w3] eqn:E3.
    exists r3, w3. split; [reflexivity |].
    unfold bind, logger, emit, release, sleep, ret. fold q. now rewrite E3.
  - destruct (sqs_delete_message q (ReceiptHandle m) w2) as [r3 w3] eqn:E3.
    exists r3, w3. split; [reflexivity |].
    unfold bind, logger, emit, delete, ret. fold q. rewrite E3.
    destruct r3; reflexivity.
Qed.
End Round.

(** ** What the events of a round show *)

Lemma released_app t1 t2 : released (t1 ++ t2) = released t1 ++ released t2.
Proof. apply omap_app. Qed.

Lemma deleted_app t1 t2 : deleted (t1 ++ t2) = deleted t1 ++ deleted t2.
Proof. apply omap_app. Qed.

Lemma sleeps_app t1 t2 : sleeps (t1 ++ t2) = sleeps t1 ++ sleeps t2.
Proof. apply omap_app. Qed.

Lemma fetched_app t1 t2 : fetched (t1 ++ t2) = fetched t1 ++ fetched t2.
Proof. apply omap_app. Qed.

Lemma observed_app t1 t2 : observed (t1 ++ t2) = observed t1 ++ observed t2.
Proof. unfold observed. now rewrite fetched_app, concat_app. Qed.

Lemma others_spec eid msgs m :
  m ∈ others eid msgs <-> m ∈ msgs /\ id_matches eid m = false.
Proof.
  unfold others. rewrite !list_elem_of_In, filter_In, negb_true_iff. reflexivity.
Qed.

(** Splits on the six ways a round can go; [Hc] is then the round's value. *)
Ltac round_cases self eid wt d w :=
  let Hc0 := fresh "Hc" in
  pose proof (poll_once_cases self eid wt d w) as Hc0; cbv zeta in Hc0;
  destruct Hc0 as ([?e0 | ?resp] & ?w1 & ?Hrecv & ?Hc);
  [ | match goal with
      | Hc : match default [] ?resp with _ => _ end |- _ =>
          destruct (default [] resp) as [| ?m0 ?msgs0] eqn:?Emsgs;
          [ | destruct Hc as (?w2 & ?tr2 & ?Hscan & ?Hrel & ?Hdel & ?Hsl & ?Hfe & ?Hc);
              match goal with
              | Hc' : match last_match ?a ?b ?c with _ => _ end |- _ =>
                  destruct (last_match a b c) as [?m |] eqn:?Elast;
                  [ match goal with
                    | Hc'' : match json_loads ?x with _ => _ end |- _ =>
                        destruct (json_loads x) as [?perr | ?pv] eqn:?Ejson;
                        destruct Hc'' as (?r3 & ?w3 & ?Hop & ?Hc);
                        [ | match goal with
                            | Hc3 : match ?r with Some _ => _ | None => _ end |- _ =>
                                destruct r as [?err |]
                            end ]
                    end
                  | ]
              end ]
      end ].

Ltac split_round self eid wt d w H :=
  round_cases self eid wt d w;
  match goal with
  | Hc : poll_once _ _ _ _ _ = _ |- _ => rewrite Hc in H; injection H as <- <- <-
  end.

Section RoundFacts.
Context {W : Type} {sqs : SQS W} {runtime : Runtime W} {json : Json}.

Lemma default_nonempty (resp : option (list Message)) m0 msgs0 :
  default [] resp = m0 :: msgs0 -> resp = Some (m0 :: msgs0).
Proof. destruct resp; simpl; congruence. Qed.

Lemma poll_once_observed self eid wt d (w : W) r w' tr :
  poll_once self eid wt d w = (r, w', tr) ->
  exists r0 rest,
    tr = EvReceive (response_queue_url self) 10 wt r0 :: rest /\
    fetched rest = [] /\
    observed tr = match r0 with inr (Some l) => l | _ => [] end.
Proof.
  intros H. split_round self eid wt d w H;
    try (apply default_nonempty in Emsgs; subst resp);
    eexists _, _; (split; [reflexivity |]);
    unfold observed; simpl; rewrite ?fetched_app, ?Hfe; simpl;
    rewrite ?app_nil_r; auto.
  destruct resp; simpl; rewrite ?app_nil_r; auto.
Qed.

Lemma released_others eid msgs tr2 rest x :
  released tr2 = map ReceiptHandle (others eid msgs) ->
  x ∈ msgs -> id_matches eid x = false ->
  ReceiptHandle x ∈ released (tr2 ++ rest).
Proof.
  intros Hrel Hx Hno. rewrite released_app, Hrel, elem_of_app. left.
  apply list_elem_of_fmap. exists x. split; [reflexivity |].
  now apply others_spec.
Qed.

(** Whatever was fetched and does not carry the wanted identifier has its
    visibility set to zero; whatever is deleted carries the identifier. *)
Lemma poll_once_hygiene self eid wt d (w : W) r w' tr :
  poll_once self eid wt d w = (r, w', tr) ->
  (forall m, m ∈ observed tr -> id_matches eid m = false ->
             ReceiptHandle m ∈ released tr) /\
  (forall h, h ∈ deleted tr ->
             exists m, m ∈ observed tr /\ id_matches eid m = true /\
                       ReceiptHandle m = h).
Proof.
  intros H.
  split_round self eid wt d w H;
    try (apply default_nonempty in Emsgs; subst resp);
    unfold observed; simpl; rewrite ?fetched_app, ?Hfe; simpl;
    rewrite ?app_nil_r.
  - split; [intros m Hm; inversion Hm | intros h Hh; inversion Hh].
  - split; [intros m Hm | intros h Hh; inversion Hh].
    destruct resp as [l |]; simpl in *; subst; inversion Hm.
  - split; [intros x Hx Hno; eapply released_others; eassumption |].
    intros h. rewrite deleted_app, Hdel. simpl. inversion 1.
  - split; [intros x Hx Hno; eapply released_others; eassumption |].
    intros h. rewrite deleted_app, Hdel. simpl.
    intros ->%list_elem_of_singleton.
    apply last_match_matches in Elast as [[Hin Hm] | ?]; [| discriminate].
    now exists m.
  - split; [intros x Hx Hno; eapply released_others; eassumption |].
    intros h. rewrite deleted_app, Hdel. simpl.
    intros ->%list_elem_of_singleton.
    apply last_match_matches in Elast as [[Hin Hm] | ?]; [| discriminate].
    now exists m.
  - split; [intros x Hx Hno; eapply released_others; eassumption |].
    intros h. rewrite deleted_app, Hdel. simpl. inversion 1.
Qed.

(** A round that goes on has slept once, for the delay in force, and grows
    the delay; a round that ends the call has not slept. *)
Lemma poll_once_sleeps self eid wt d (w : W) r w' tr :
  (d <= 5)%Q ->
  poll_once self eid wt d w = (r, w', tr) ->
  match r with
  | Ok (Continue d') => d' = next_poll_delay d /\ sleeps tr = [d]
  | _ => sleeps tr = []
  end.
Proof.
  intros Hd H.
  assert (Hnap : Qmin d poll_delay_cap = d) by now apply Qmin_left.
  split_round self eid wt d w H; rewrite ?Hnap; simpl;
    rewrite ?sleeps_app, ?Hsl; simpl; auto.
Qed.

(** The only exception a round lets through is the [ClientError] of a
    refused [delete_message], its last event. *)
Lemma poll_once_raise self eid wt d (w : W) e w' tr :
  poll_once self eid wt d w = (Raise e, w', tr) ->
  exists h err pre,
    e = BotoClientError err /\
    tr = pre ++ [EvDelete (response_queue_url self) h (Some err)].
Proof.
  intros H.
  pose proof (poll_once_cases self eid wt d w) as Hc; cbv zeta in Hc.
  destruct Hc as ([e0 | resp] & w1 & Hrecv & Hc); [congruence |].
  destruct (default [] resp) as [| m0 msgs0]; [congruence |].
  destruct Hc as (w2 & tr2 & _ & _ & _ & _ & _ & Hc).
  destruct (last_match eid (m0 :: msgs0) None) as [m |]; [| congruence].
  destruct (json_loads (Body m)); destruct Hc as (r3 & w3 & _ & Hc);
    [congruence |].
  destruct r3 as [err |]; [| congruence].
  rewrite Hc in H. injection H as <- <- <-.
  exists (ReceiptHandle m), err,
    (EvReceive (response_queue_url self) 10 wt (inr resp) :: tr2).
  split; reflexivity.
Qed.
End RoundFacts.

(** ** Time across a round *)

Section RoundClock.
Context {W : Type} {sqs : SQS W} {runtime : Runtime W} {json : Json}
        {clock_laws : ClockLaws W}.

Lemma scan_messages_clock self eid msgs acc (w : W) r w' tr :
  scan_messages self eid msgs acc w = (r, w', tr) ->
  (datetime_now w <= datetime_now w')%Q.
Proof.
  revert acc w r w' tr.
  induction msgs as [| m msgs IH]; intros acc w r w' tr; simpl.
  - unfold ret. intros [= <- <- <-]. lra.
  - destruct (id_matches eid m); [apply IH |].
    rewrite bind_run. unfold release.
    pose proof (visibility_clock (response_queue_url self) (ReceiptHandle m) 0 w) as Hv.
    destruct (sqs_change_message_visibility _ _ _ w) as [r1 w1]. simpl in Hv.
    destruct (scan_messages self eid msgs acc w1) as [[r2 w2] t2] eqn:E.
    intros [= <- <- <-]. apply IH in E. lra.
Qed.

(** Time does not go back in a round, and a round that goes on ends at
    least its delay later. *)
Lemma poll_once_clock self eid wt d (w : W) r w' tr :
  (0 <= d)%Q -> (d <= 5)%Q ->
  poll_once self eid wt d w = (r, w', tr) ->
  (datetime_now w <= datetime_now w')%Q /\
  (forall d', r = Ok (Continue d') -> (datetime_now w + d <= datetime_now w')%Q).
Proof.
  intros Hd0 Hd H.
  assert (Hnap : Qmin d poll_delay_cap = d) by now apply Qmin_left.
  pose proof (poll_once_cases self eid wt d w) as Hc; cbv zeta in Hc.
  rewrite Hnap in Hc.
  destruct Hc as (r0 & w1 & Hrecv & Hc).
  pose proof (receive_clock (response_queue_url self) 10 wt w) as H1.
  rewrite Hrecv in H1. simpl in H1.
  destruct r0 as [e0 | resp].
  { rewrite Hc in H. injection H as <- <- <-.
    pose proof (sleep_clock d w1). split; [| intros _ _]; lra. }
  destruct (default [] resp) as [| m0 msgs0].
  { rewrite Hc in H. injection H as <- <- <-.
    pose proof (sleep_clock d w1). split; [| intros _ _]; lra. }
  destruct Hc as (w2 & tr2 & Hscan & _ & _ & _ & _ & Hc).
  apply scan_messages_clock in Hscan.
  destruct (last_match eid (m0 :: msgs0) None) as [m |].
  2: { rewrite Hc in H. injection H as <- <- <-.
       pose proof (sleep_clock d w2). split; [| intros _ _]; lra. }
  destruct (json_loads (Body m)); destruct Hc as (r3 & w3 & Hop & Hc).
  - pose proof (visibility_clock (response_queue_url self) (ReceiptHandle m) 0 w2) as H3.
    rewrite Hop in H3. simpl in H3.
    rewrite Hc in H. injection H as <- <- <-.
    pose proof (sleep_clock d w3). split; [| intros _ _]; lra.
  - pose proof (delete_clock (response_queue_url self) (ReceiptHandle m) w2) as H3.
    rewrite Hop in H3. simpl in H3.
    destruct r3; rewrite Hc in H; injection H as <- <- <-;
      (split; [lra | intros ? [=]]).
Qed.
End RoundClock.

(** ** The whole wait *)

Section Loop.
Context {W : Type} {sqs : SQS W} {runtime : Runtime W} {json : Json}.

Lemma wait_loop_S n self eid T wt d (w : W) :
  wait_loop (S n) self eid T wt d w =
  if Qlt_le_dec (datetime_now w) T then
    match poll_once self eid wt d w with
    | (Ok (Continue d'), w1, t1) =>
        match wait_loop n self eid T wt d' w1 with
        | Some (r, w2, t2) => Some (r, w2, t1 ++ t2)
        | None => None
        end
    | (Ok (Return p), w1, t1) => Some (Ok p, w1, t1)
    | (Raise e, w1, t1) => Some (Raise e, w1, t1)
    end
  else Some (Raise (SQSTimeoutError (timeout_text eid)), w, []).
Proof. reflexivity. Qed.

(** One more unit of fuel changes no answer. *)
Lemma wait_loop_fuel_S n self eid T wt d (w : W) res :
  wait_loop n self eid T wt d w = Some res ->
  wait_loop (S n) self eid T wt d w = Some res.
Proof.
  revert d w res. induction n as [| n IH]; intros d w res H; [discriminate |].
  rewrite wait_loop_S in H. rewrite wait_loop_S.
  destruct (Qlt_le_dec (datetime_now w) T); [| exact H].
  destruct (poll_once self eid wt d w) as [[[[d' | p] | e] w1] t1]; try exact H.
  destruct (wait_loop n self eid T wt d' w1) as [[[r w2] t2] |] eqn:E;
    [| discriminate].
  now rewrite (IH _ _ _ E).
Qed.

Lemma wait_loop_fuel_le n n' self eid T wt d (w : W) res :
  n <= n' ->
  wait_loop n self eid T wt d w = Some res ->
  wait_loop n' self eid T wt d w = Some res.
Proof.
  induction 1 as [| n' _ IH]; [auto |].
  intros H. apply wait_loop_fuel_S. auto.
Qed.

(** The delays slept in one call are the backoff sequence from where the
    call stands in it. *)
Lemma wait_loop_sleeps n self eid T wt k (w : W) r w' tr :
  wait_loop n self eid T wt (backoff k) w = Some (r, w', tr) ->
  sleeps tr = map backoff (seq k (length (sleeps tr))).
Proof.
  revert k w r w' tr.
  induction n as [| n IH]; intros k w r w' tr H; [discriminate |].
  rewrite wait_loop_S in H.
  destruct (Qlt_le_dec (datetime_now w) T); [| injection H as <- <- <-; reflexivity].
  destruct (poll_once self eid wt (backoff k) w) as [[r1 w1] t1] eqn:E1.
  pose proof (poll_once_sleeps _ _ _ _ _ _ _ _ (proj2 (backoff_range k)) E1) as Hs.
  destruct r1 as [[d' | p] | e].
  - destruct Hs as [-> Hs].
    destruct (wait_loop n self eid T wt (next_poll_delay (backoff k)) w1)
      as [[[r2 w2] t2] |] eqn:E2; [| discriminate].
    injection H as <- <- <-.
    apply (IH (S k)) in E2.
    rewrite sleeps_app, Hs. simpl. f_equal. exact E2.
  - injection H as <- <- <-. now rewrite Hs.
  - injection H as <- <- <-. now rewrite Hs.
Qed.

(** Across the call: what is fetched without the identifier is released,
    what is deleted carries it, and nothing is raised but the timeout or
    the error of a refused delete. *)
Lemma wait_loop_hygiene n self eid T wt d (w : W) r w' tr :
  wait_loop n self eid T wt d w = Some (r, w', tr) ->
  (forall m, m ∈ observed tr -> id_matches eid m = false ->
             ReceiptHandle m ∈ released tr) /\
  (forall h, h ∈ deleted tr ->
             exists m, m ∈ observed tr /\ id_matches eid m = true /\
                       ReceiptHandle m = h) /\
  (forall e, r = Raise e ->
             e = SQSTimeoutError (timeout_text eid) \/
             exists h err pre,
               e = BotoClientError err /\
               tr = pre ++ [EvDelete (response_queue_url self) h (Some err)]).
Proof.
  revert d w r w' tr.
  induction n as [| n IH]; intros d w r w' tr H; [discriminate |].
  rewrite wait_loop_S in H.
  destruct (Qlt_le_dec (datetime_now w) T).
  2: { injection H as <- <- <-. repeat split.
       - inversion 1.
       - inversion 1.
       - intros e [= <-]. now left. }
  destruct (poll_once self eid wt d w) as [[r1 w1] t1] eqn:E1.
  pose proof (poll_once_hygiene _ _ _ _ _ _ _ _ E1) as [Hrel Hdel].
  destruct r1 as [[d' | p] | e1].
  - destruct (wait_loop n self eid T wt d' w1) as [[[r2 w2] t2] |] eqn:E2;
      [| discriminate].
    injection H as <- <- <-.
    apply IH in E2 as (Hrel2 & Hdel2 & Hraise2).
    repeat split.
    + intros m. rewrite observed_app, released_app, !elem_of_app.
      intros [Hm | Hm] Hno; [left | right]; auto.
    + intros h. rewrite deleted_app, elem_of_app.
      intros [Hh | Hh]; [apply Hdel in Hh | apply Hdel2 in Hh];
        destruct Hh as (m & Hm & Hid & Hh); exists m;
        rewrite observed_app, elem_of_app; auto.
    + intros e He. apply Hraise2 in He as [-> | (h & err & pre & -> & ->)];
        [now left | right].
      exists h, err, (t1 ++ pre). now rewrite app_assoc.
  - injection H as <- <- <-. repeat split; auto. discriminate.
  - injection H as <- <- <-. repeat split; auto.
    intros e [= <-]. right. now apply poll_once_raise in E1.
Qed.

(** The timeout is raised at a moment when the clock has reached the
    deadline, with the identifier in its text. *)
Lemma wait_loop_timeout n self eid T wt d (w : W) msg w' tr :
  wait_loop n self eid T wt d w = Some (Raise (SQSTimeoutError msg), w', tr) ->
  (T <= datetime_now w')%Q /\ msg = timeout_text eid.
Proof.
  revert d w tr.
  induction n as [| n IH]; intros d w tr H; [discriminate |].
  rewrite wait_loop_S in H.
  destruct (Qlt_le_dec (datetime_now w) T) as [Hlt | Hge].
  2: { injection H as <- <- <-. now split. }
  destruct (poll_once self eid wt d w) as [[r1 w1] t1] eqn:E1.
  destruct r1 as [[d' | p] | e1].
  - destruct (wait_loop n self eid T wt d' w1) as [[[r2 w2] t2] |] eqn:E2;
      [| discriminate].
    injection H as -> <- <-. now apply IH in E2.
  - discriminate.
  - injection H as -> <- <-.
    apply poll_once_raise in E1 as (h & err & pre & [=] & _).
Qed.
End Loop.

(** ** Answers and termination *)

Section Answers.
Context {W : Type} {sqs : SQS W} {runtime : Runtime W} {json : Json}.

(** A round that returns took its payload from a fetched message with the
    identifier, and deleted that message and no other. *)
Lemma poll_once_return self eid wt d (w : W) p w' tr :
  poll_once self eid wt d w = (Ok (Return p), w', tr) ->
  exists m, m ∈ observed tr /\ id_matches eid m = true /\
            json_loads (Body m) = inr p /\ deleted tr = [ReceiptHandle m].
Proof.
  intros H.
  round_cases self eid wt d w; rewrite Hc in H; try discriminate.
  injection H as <- <- <-.
  apply default_nonempty in Emsgs. subst resp.
  exists m. unfold observed. simpl. rewrite fetched_app, deleted_app, Hfe, Hdel. simpl.
  rewrite app_nil_r.
  apply last_match_matches in Elast as [[Hin Hm] | ?]; [| discriminate].
  auto.
Qed.

Lemma wait_loop_return n self eid T wt d (w : W) p w' tr :
  wait_loop n self eid T wt d w = Some (Ok p, w', tr) ->
  exists m, m ∈ observed tr /\ id_matches eid m = true /\
            json_loads (Body m) = inr p.
Proof.
  revert d w tr.
  induction n as [| n IH]; intros d w tr H; [discriminate |].
  rewrite wait_loop_S in H.
  destruct (Qlt_le_dec (datetime_now w) T); [| discriminate].
  destruct (poll_once self eid wt d w) as [[r1 w1] t1] eqn:E1.
  destruct r1 as [[d' | p1] | e1].
  - destruct (wait_loop n self eid T wt d' w1) as [[[r2 w2] t2] |] eqn:E2;
      [| discriminate].
    injection H as -> <- <-.
    apply IH in E2 as (m & Hm & Hid & Hp). exists m.
    rewrite observed_app, elem_of_app. auto.
  - injection H as -> <- <-.
    apply poll_once_return in E1 as (m & Hm & Hid & Hp & _). now exists m.
  - discriminate.
Qed.

(** With no fetched message carrying the identifier, the call can only end
    in the timeout. *)
Lemma wait_loop_unanswered n self eid T wt d (w : W) r w' tr :
  wait_loop n self eid T wt d w = Some (r, w', tr) ->
  (forall m, m ∈ observed tr -> id_matches eid m = false) ->
  r = Raise (SQSTimeoutError (timeout_text eid)).
Proof.
  intros H Hno.
  destruct r as [p | e].
  - apply wait_loop_return in H as (m & Hm & Hid & _).
    rewrite (Hno m Hm) in Hid. discriminate.
  - pose proof (wait_loop_hygiene _ _ _ _ _ _ _ _ _ _ H) as (_ & Hdel & Hraise).
    destruct (Hraise e eq_refl) as [-> | (h & err & pre & -> & ->)]; [reflexivity |].
    destruct (Hdel h) as (m & Hm & Hid & _).
    { rewrite deleted_app, elem_of_app. right. simpl. apply list_elem_of_singleton.
      reflexivity. }
    rewrite (Hno m Hm) in Hid. discriminate.
Qed.
End Answers.

Section Termination.
Context {W : Type} {sqs : SQS W} {runtime : Runtime W} {json : Json}
        {clock_laws : ClockLaws W}.

(** Each round that goes on takes half a second or more, so a loop that is
    [n] half seconds from its deadline ends within [n] rounds. *)
Lemma wait_loop_terminates n self eid T wt d (w : W) :
  (1 # 2 <= d)%Q -> (d <= 5)%Q ->
  (T - datetime_now w <= inject_Z (Z.of_nat n) * (1 # 2))%Q ->
  exists res, wait_loop (S n) self eid T wt d w = Some res.
Proof.
  revert d w. induction n as [| n IH]; intros d w Hlo Hhi Hleft;
    rewrite wait_loop_S;
    destruct (Qlt_le_dec (datetime_now w) T) as [Hlt | Hge]; eauto.
  - change (inject_Z (Z.of_nat 0)) with 0%Q in Hleft. lra.
  - destruct (poll_once self eid wt d w) as [[r1 w1] t1] eqn:E1.
    destruct r1 as [[d' | p] | e]; eauto.
    assert (Hd0 : (0 <= d)%Q) by lra.
    pose proof (poll_once_clock _ _ _ _ _ _ _ _ Hd0 Hhi E1) as [_ Hadv].
    specialize (Hadv d' eq_refl).
    pose proof (poll_once_sleeps _ _ _ _ _ _ _ _ Hhi E1) as [-> _].
    destruct (next_poll_delay_range d Hlo Hhi) as (Hlo' & Hhi' & _).
    destruct (IH (next_poll_delay d) w1 Hlo' Hhi') as [[[r2 w2] t2] E2].
    + rewrite Nat2Z.inj_succ in Hleft. unfold Z.succ in Hleft.
      rewrite inject_Z_plus in Hleft. change (inject_Z 1) with 1%Q in Hleft. lra.
    + rewrite E2. eauto.
Qed.

Lemma fuel_for_enough (timeout_minutes : Z) :
  (inject_Z (60 * timeout_minutes)
   <= inject_Z (Z.of_nat (Z.to_nat (120 * timeout_minutes))) * (1 # 2))%Q.
Proof.
  unfold Qle. simpl. lia.
Qed.
End Termination.

(** ** The scripted world obeys the clock assumptions *)

Lemma script_tick_clock d (w : Script.world) :
  (Script.clock w + d <= Script.clock (Script.tick d w))%Q.
Proof. unfold Script.tick. simpl. rewrite Qred_correct. lra. Qed.

Lemma script_pop_clock (w : Script.world) :
  Script.clock (Script.pop w).2 = Script.clock w.
Proof. unfold Script.pop. destruct (Script.inbox w); reflexivity. Qed.

#[global] Instance script_clock_laws : ClockLaws Script.world.
Proof.
  split; simpl; intros.
  - rewrite script_pop_clock. lra.
  - lra.
  - lra.
  - apply script_tick_clock.
Qed.

(** * The claims *)

Section WaitClaims.
Context {W : Type} {sqs : SQS W} {runtime : Runtime W} {json : Json}.

(** C4. Within one call of [_wait_for_response] the delays slept are, in
    order, [backoff 0], [backoff 1], ...: the sequence that starts at half a
    second in every call, follows [min(delay * 1.5, 5.0)] with no reset, never
    decreases and never exceeds five seconds. *)
Theorem backoff_within_a_call fuel self eid tm wt (w : W) r w' tr :
  _wait_for_response fuel self eid tm wt w = Some (r, w', tr) ->
  sleeps tr = map backoff (seq 0 (length (sleeps tr))) /\
  backoff 0 = (1 # 2)%Q /\
  (forall k, backoff (S k) = Qmin (backoff k * (3 # 2)) 5) /\
  (forall k, (backoff k <= backoff (S k))%Q /\ (backoff k <= 5)%Q).
Proof.
  intros H. repeat split.
  - unfold _wait_for_response in H. change initial_poll_delay with (backoff 0) in H.
    exact (wait_loop_sleeps _ _ _ _ _ _ _ _ _ _ H).
  - apply backoff_step.
  - apply backoff_range.
Qed.

End WaitClaims.

Lemma backoff_within_a_call_witness :
  exists r w' tr,
    _wait_for_response 200 Script.client "X" 1 3 (Script.start 0 []) = Some (r, w', tr) /\
    sleeps tr = map backoff (seq 0 (length (sleeps tr))) /\
    backoff 0 = (1 # 2)%Q /\
    (forall k, backoff (S k) = Qmin (backoff k * (3 # 2)) 5) /\
    (forall k, (backoff k <= backoff (S k))%Q /\ (backoff k <= 5)%Q).
Proof.
  destruct (_wait_for_response 200 Script.client "X" 1 3 (Script.start 0 []))
    as [[[r w'] tr] |] eqn:E; [| vm_compute in E; discriminate].
  exists r, w', tr. split; [reflexivity |].
  exact (backoff_within_a_call 200 Script.client "X" 1 3 (Script.start 0 []) r w' tr E).
Defined.

(** ** The matched message *)

Section MatchClaims.
Context {W : Type} {sqs : SQS W} {runtime : Runtime W} {json : Json}.

Lemma last_match_unmatched eid msgs acc :
  (forall x, x ∈ msgs -> id_matches eid x = false) ->
  last_match eid msgs acc = acc.
Proof.
  revert acc. induction msgs as [| x msgs IH]; intros acc H; [reflexivity |].
  simpl. rewrite (H x) by (rewrite elem_of_cons; now left).
  apply IH. intros y Hy. apply H. rewrite elem_of_cons. now right.
Qed.

Lemma last_match_last eid before m after acc :
  id_matches eid m = true ->
  (forall x, x ∈ after -> id_matches eid x = false) ->
  last_match eid (before ++ m :: after) acc = Some m.
Proof.
  intros Hm Hafter. rewrite last_match_app. simpl. rewrite Hm.
  now apply last_match_unmatched.
Qed.

Lemma last_match_some eid msgs :
  0 < length (List.filter (id_matches eid) msgs) ->
  exists m, last_match eid msgs None = Some m.
Proof.
  intros H. destruct (last_match eid msgs None) as [m |] eqn:E; [now exists m |].
  rewrite last_match_none in E.
  assert (List.filter (id_matches eid) msgs = []) as Hnil.
  { clear H. induction msgs as [| x msgs IH]; [reflexivity |]. simpl.
    rewrite (E x) by (rewrite elem_of_cons; now left).
    apply IH. intros y Hy. apply E. rewrite elem_of_cons. now right. }
  rewrite Hnil in H. simpl in H. lia.
Qed.

(** The round of a batch whose scan settles on [m], written out. *)
Lemma poll_once_matched self eid wt d (w w1 : W) msgs m :
  sqs_receive_message (response_queue_url self) 10 wt w = (inr (Some msgs), w1) ->
  last_match eid msgs None = Some m ->
  let q := response_queue_url self in
  let nap := Qmin d poll_delay_cap in
  exists w2 tr2,
    scan_messages self eid msgs None w1 = (Ok (Some m), w2, tr2) /\
    released tr2 = map ReceiptHandle (others eid msgs) /\
    deleted tr2 = [] /\
    match json_loads (Body m) with
    | inr p =>
        exists r3 w3,
          sqs_delete_message q (ReceiptHandle m) w2 = (r3, w3) /\
          poll_once self eid wt d w =
            (match r3 with
             | None => Ok (Return p)
             | Some err => Raise (BotoClientError err)
             end, w3,
             EvReceive q 10 wt (inr (Some msgs)) :: tr2 ++
             EvDelete q (ReceiptHandle m) r3 ::
             match r3 with
             | None => [EvLog LogInfo ("Received response for " +:+ eid)]
             | Some _ => []
             end)
    | inl e =>
        exists r3 w3,
          sqs_change_message_visibility q (ReceiptHandle m) 0 w2 = (r3, w3) /\
          poll_once self eid wt d w =
            (Ok (Continue (next_poll_delay d)), time_sleep nap w3,
             EvReceive q 10 wt (inr (Some msgs)) :: tr2 ++
             [EvLog LogWarning ("Invalid JSON in response: " +:+ e);
              EvChangeVisibility q (ReceiptHandle m) 0 r3;
              EvSleep nap])
    end.
Proof.
  intros Hrecv Hlast q nap.
  destruct (poll_once_cases self eid wt d w) as (r0 & w1' & Hrecv' & Hc).
  fold q in Hrecv'. unfold q in Hrecv'. rewrite Hrecv in Hrecv'.
  injection Hrecv' as <- <-.
  destruct msgs as [| m0 msgs0]; [discriminate |].
  change (default [] (Some (m0 :: msgs0))) with (m0 :: msgs0) in Hc.
  cbv beta iota in Hc.
  destruct Hc as (w2 & tr2 & Hscan & Hrel & Hdel & _ & _ & Hc).
  rewrite Hlast in Hscan, Hc.
  exists w2, tr2. repeat (split; [assumption |]).
  destruct (json_loads (Body m)) as [e | p].
  - exact Hc.
  - destruct Hc as (r3 & w3 & Hop & Hc). exists r3, w3. split; [exact Hop |].
    destruct r3; exact Hc.
Qed.
End MatchClaims.

Section MatchTheorems.
Context {W : Type} {sqs : SQS W} {runtime : Runtime W} {json : Json}.


(** What a round does with the message [m] its scan settles on, by whether
    the body of [m] parses. *)
Lemma poll_once_matched_outcomes n self eid T wt d (w w1 : W) msgs m :
  sqs_receive_message (response_queue_url self) 10 wt w = (inr (Some msgs), w1) ->
  last_match eid msgs None = Some m ->
  exists r w' tr,
    poll_once self eid wt d w = (r, w', tr) /\
    match json_loads (Body m) with
    | inr p =>
        deleted tr = [ReceiptHandle m] /\
        released tr = map ReceiptHandle (others eid msgs) /\
        ((sqs_delete_message (response_queue_url self) (ReceiptHandle m)
            (scan_messages self eid msgs None w1).1.2).1 = None ->
         r = Ok (Return p))
    | inl e =>
        r = Ok (Continue (next_poll_delay d)) /\
        deleted tr = [] /\
        released tr = map ReceiptHandle (others eid msgs) ++ [ReceiptHandle m] /\
        EvLog LogWarning ("Invalid JSON in response: " +:+ e) ∈ tr /\
        ((datetime_now w < T)%Q ->
         wait_loop (S n) self eid T wt d w =
         match wait_loop n self eid T wt (next_poll_delay d) w' with
         | Some (r2, w2, t2) => Some (r2, w2, tr ++ t2)
         | None => None
         end)
    end.
Proof.
  intros Hrecv Hlast.
  destruct (poll_once_matched self eid wt d w w1 _ m Hrecv Hlast)
    as (w2 & tr2 & Hscan & Hrel & Hdel & Hc).
  destruct (json_loads (Body m)) as [e | p]; destruct Hc as (r3 & w3 & Hop & Hc);
    eexists _, _, _; (split; [exact Hc |]).
  - split; [reflexivity |].
    split; [simpl; now rewrite deleted_app, Hdel |].
    split; [simpl; now rewrite released_app, Hrel |].
    split.
    + rewrite elem_of_cons. right. rewrite elem_of_app. right.
      rewrite elem_of_cons. now left.
    + intros Hnow. rewrite wait_loop_S.
      destruct (Qlt_le_dec (datetime_now w) T) as [_ | Hge]; [| lra].
      now rewrite Hc.
  - split; [simpl; rewrite deleted_app, Hdel; destruct r3; reflexivity |].
    split.
    + simpl. rewrite released_app, Hrel. destruct r3; simpl; now rewrite app_nil_r.
    + rewrite Hscan. simpl. rewrite Hop. simpl. now intros ->.
Qed.


End MatchTheorems.




(** ** Identifiers across a call *)

Section Issued.
Context {W : Type} {sqs : SQS W} {runtime : Runtime W} {json : Json}
        {uuid_laws : UuidLaws W}.

Lemma scan_messages_issued self eid msgs acc (w : W) r w' tr :
  scan_messages self eid msgs acc w = (r, w', tr) -> issued w' = issued w.
Proof.
  revert acc w r w' tr.
  induction msgs as [| m msgs IH]; intros acc w r w' tr; simpl.
  - unfold ret. now intros [= <- <- <-].
  - destruct (id_matches eid m); [apply IH |].
    rewrite bind_run. unfold release.
    pose proof (visibility_issued (response_queue_url self) (ReceiptHandle m) 0 w) as Hv.
    destruct (sqs_change_message_visibility _ _ _ w) as [r1 w1]. simpl in Hv.
    destruct (scan_messages self eid msgs acc w1) as [[r2 w2] t2] eqn:E.
    intros [= <- <- <-]. apply IH in E. congruence.
Qed.

Lemma poll_once_issued self eid wt d (w : W) r w' tr :
  poll_once self eid wt d w = (r, w', tr) -> issued w' = issued w.
Proof.
  intros H.
  pose proof (receive_issued (response_queue_url self) 10 wt w) as H1.
  round_cases self eid wt d w; rewrite Hrecv in H1; simpl in H1;
    try (apply scan_messages_issued in Hscan);
    try (pose proof (visibility_issued (response_queue_url self) (ReceiptHandle m) 0 w2) as H3;
         rewrite Hop in H3; simpl in H3);
    try (pose proof (delete_issued (response_queue_url self) (ReceiptHandle m) w2) as H3;
         rewrite Hop in H3; simpl in H3);
    rewrite Hc in H; injection H as <- <- <-;
    rewrite ?sleep_issued; congruence.
Qed.

Lemma wait_loop_issued n self eid T wt d (w : W) r w' tr :
  wait_loop n self eid T wt d w = Some (r, w', tr) -> issued w' = issued w.
Proof.
  revert d w r w' tr.
  induction n as [| n IH]; intros d w r w' tr H; [discriminate |].
  rewrite wait_loop_S in H.
  destruct (Qlt_le_dec (datetime_now w) T); [| now injection H as <- <- <-].
  destruct (poll_once self eid wt d w) as [[r1 w1] t1] eqn:E1.
  apply poll_once_issued in E1.
  destruct r1 as [[d' | p] | e].
  - destruct (wait_loop n self eid T wt d' w1) as [[[r2 w2] t2] |] eqn:E2;
      [| discriminate].
    injection H as <- <- <-. apply IH in E2. congruence.
  - injection H as <- <- <-. exact E1.
  - injection H as <- <- <-. exact E1.
Qed.
End Issued.

(** ** Sending a request *)

Section Send.
Context {W : Type} {sqs : SQS W} {runtime : Runtime W} {json : Json}.

(** What [send_request] gives, by the answer to its publish. *)
Lemma send_request_cases fuel self op params tm wt (w : W) :
  let eid := (uuid4 w).1 in
  let w0 := (uuid4 w).2 in
  let request := build_request op eid (isoformat (datetime_now w0)) params in
  let log1 := EvLog LogInfo
    ("Sending request " +:+ eid +:+ " for operation '" +:+ op +:+ "'") in
  let sent := sqs_send_message (request_queue_url self) (json_dumps request) w0 in
  publish_answer self op params w = sent.1 /\
  match sent.1 with
  | Some err =>
      send_request fuel self op params tm wt w =
        Some (Raise (SQSClientError ("Failed to send request: " +:+ client_error_text err)),
              sent.2, [log1; EvSend (request_queue_url self) request (Some err)])
  | None =>
      send_request fuel self op params tm wt w =
        match _wait_for_response fuel self eid tm wt sent.2 with
        | Some (r, w2, t2) =>
            Some (r, w2,
                  log1 :: EvSend (request_queue_url self) request None
                       :: EvLog LogInfo ("Waiting for response to " +:+ eid) :: t2)
        | None => None
        end
  end.
Proof.
  cbv zeta. unfold publish_answer, send_request, prepare_request, send_message.
  destruct (uuid4 w) as [eid w0]. simpl.
  destruct (sqs_send_message _ _ w0) as [[err |] w1]; simpl; split; reflexivity.
Qed.

Lemma build_request_lookup op eid ts params k :
  build_request op eid ts params !! k =
  match default ∅ params !! k with
  | Some v => Some v
  | None =>
      if decide (k = "timestamp") then Some (PStr ts)
      else if decide (k = "execution_id") then Some (PStr eid)
      else if decide (k = "operation") then Some (PStr op)
      else None
  end.
Proof.
  assert (Hbase : forall j,
    (<["timestamp" := PStr ts]> (<["execution_id" := PStr eid]>
       (<["operation" := PStr op]> (∅ : pydict)))) !! j =
    if decide (j = "timestamp") then Some (PStr ts)
    else if decide (j = "execution_id") then Some (PStr eid)
    else if decide (j = "operation") then Some (PStr op)
    else None).
  { intros j. repeat case_decide; simplify_map_eq; reflexivity. }
  unfold build_request. destruct params as [p |]; simpl.
  - case_decide as Hp.
    + subst p. rewrite lookup_empty. apply Hbase.
    + destruct (p !! k) as [v |] eqn:E.
      * rewrite lookup_union_l' by (now exists v). exact E.
      * rewrite lookup_union_r by exact E. apply Hbase.
  - rewrite lookup_empty. apply Hbase.
Qed.
End Send.

Section SendTheorems.
Context {W : Type} {sqs : SQS W} {runtime : Runtime W} {json : Json}.



End SendTheorems.

(** ** The scripted world never repeats an identifier *)

#[global] Instance script_uuid_laws : UuidLaws Script.world.
Proof.
  refine {| issued := fun w =>
              list_to_set ((fun k : nat => "uuid-" +:+ pretty k) <$> seq 0 (Script.counter w)) |}.
  - intros w. simpl. rewrite elem_of_list_to_set, list_elem_of_fmap.
    intros (k & Heq & Hk). apply (inj (String.app "uuid-")) in Heq.
    apply (inj pretty) in Heq. apply elem_of_seq in Hk. lia.
  - intros w. cbn -[seq]. rewrite seq_S, fmap_app, list_to_set_app_L. cbn -[seq].
    rewrite union_empty_r_L. apply union_comm_L.
  - reflexivity.
  - intros q n t w. simpl. unfold Script.pop. destruct (Script.inbox w); reflexivity.
  - reflexivity.
  - reflexivity.
  - reflexivity.
Qed.



(** ** The rate limiter *)

Lemma Qltb_spec (x y : Q) : Qltb x y = true <-> (x < y)%Q.
Proof.
  unfold Qltb. rewrite negb_true_iff. split.
  - intros H. apply Qnot_le_lt. intros Hle. apply Qle_bool_iff in Hle. congruence.
  - intros H. destruct (Qle_bool y x) eqn:E; [| reflexivity].
    apply Qle_bool_iff in E. lra.
Qed.

#[global] Instance script_monotonic_laws : MonotonicLaws Script.world.
Proof. split. intros d w. apply script_tick_clock. Qed.

Section Limiter.
Context {W : Type} {monotonic : Monotonic W}.

(** X10.  A limiter whose stored time is zero or below, as it is after
    [__init__], never waits: [acquire] does not sleep, whatever the clock
    reads, and stores the reading. *)
Theorem acquire_without_history (self : RateLimiter) (w : W) :
  (_last_resolve_time self <= 0)%Q ->
  acquire self w =
    ({| min_delay := min_delay self; _last_resolve_time := time_monotonic w |}, w, []).
Proof.
  intros Hlast. unfold acquire.
  destruct (Qltb 0 (_last_resolve_time self)) eqn:E.
  - apply Qltb_spec in E. lra.
  - rewrite andb_false_r. reflexivity.
Qed.
End Limiter.

Lemma acquire_without_history_witness :
  acquire (RateLimiter_init 1) (Script.start 3 []) =
    ({| min_delay := 1; _last_resolve_time := 3 |}, Script.start 3 [], []).
Proof.
  assert (H : (_last_resolve_time (RateLimiter_init 1) <= 0)%Q) by (simpl; lra).
  exact (acquire_without_history (RateLimiter_init 1) (Script.start 3 []) H).
Defined.

(** ** The tools of the IBKR server *)

Lemma sent_app t1 t2 : sent (t1 ++ t2) = sent t1 ++ sent t2.
Proof. apply omap_app. Qed.

Lemma client_events_app t1 t2 :
  client_events (t1 ++ t2) = client_events t1 ++ client_events t2.
Proof. apply omap_app. Qed.

Lemma client_events_map tr : client_events (map SvClient tr) = tr.
Proof. induction tr as [| e tr IH]; simpl; [reflexivity | now rewrite IH]. Qed.

Section Sent.
Context {W : Type} {sqs : SQS W} {runtime : Runtime W} {json : Json}.

Lemma scan_messages_sent self eid msgs acc (w : W) r w' tr :
  scan_messages self eid msgs acc w = (r, w', tr) -> sent tr = [].
Proof.
  revert acc w r w' tr.
  induction msgs as [| m msgs IH]; intros acc w r w' tr; simpl.
  - unfold ret. now intros [= <- <- <-].
  - destruct (id_matches eid m); [apply IH |].
    rewrite bind_run. unfold release.
    destruct (sqs_change_message_visibility _ _ _ w) as [r1 w1].
    destruct (scan_messages self eid msgs acc w1) as [[r2 w2] t2] eqn:E.
    intros [= <- <- <-]. apply IH in E. simpl. exact E.
Qed.

Lemma poll_once_sent self eid wt d (w : W) r w' tr :
  poll_once self eid wt d w = (r, w', tr) -> sent tr = [].
Proof.
  intros H.
  round_cases self eid wt d w;
    try (apply scan_messages_sent in Hscan);
    rewrite Hc in H; injection H as <- <- <-; simpl;
    rewrite ?sent_app, ?Hscan; reflexivity.
Qed.

(** The wait publishes nothing. *)
Lemma wait_loop_sent n self eid T wt d (w : W) r w' tr :
  wait_loop n self eid T wt d w = Some (r, w', tr) -> sent tr = [].
Proof.
  revert d w r w' tr.
  induction n as [| n IH]; intros d w r w' tr H; [discriminate |].
  rewrite wait_loop_S in H.
  destruct (Qlt_le_dec (datetime_now w) T); [| now injection H as <- <- <-].
  destruct (poll_once self eid wt d w) as [[r1 w1] t1] eqn:E1.
  apply poll_once_sent in E1.
  destruct r1 as [[d' | p] | e].
  - destruct (wait_loop n self eid T wt d' w1) as [[[r2 w2] t2] |] eqn:E2;
      [| discriminate].
    injection H as <- <- <-. apply IH in E2. now rewrite sent_app, E1, E2.
  - injection H as <- <- <-. exact E1.
  - injection H as <- <- <-. exact E1.
Qed.

(** A call of [send_request] publishes once, the request it has built. *)
Lemma send_request_sent fuel self op params tm wt (w : W) r w' tr :
  send_request fuel self op params tm wt w = Some (r, w', tr) ->
  sent tr = [build_request op (uuid4 w).1 (isoformat (datetime_now (uuid4 w).2)) params].
Proof.
  intros H.
  pose proof (send_request_cases fuel self op params tm wt w) as [_ Hc].
  cbv zeta in Hc.
  destruct (sqs_send_message _ _ (uuid4 w).2) as [[err |] w1]; simpl in Hc;
    rewrite Hc in H.
  - injection H as <- <- <-. reflexivity.
  - destruct (_wait_for_response fuel self (uuid4 w).1 tm wt w1)
      as [[[r2 w2] t2] |] eqn:E; [| discriminate].
    injection H as <- <- <-. apply wait_loop_sent in E. simpl. now rewrite E.
Qed.
End Sent.

Section Plans.
Context {W : Type} {sqs : SQS W} {runtime : Runtime W} {json : Json} {format : Format}.

Lemma dispatch_plan fuel client name arguments (w : W) :
  dispatch fuel client name arguments w =
  match plan_of name arguments with
  | Refuse text => Some (Ok text, w, [])
  | Ask title op params tm => answered title (send_request fuel client op params tm 3 w)
  end.
Proof.
  unfold dispatch, plan_of.
  repeat (case_decide; [reflexivity |]).
  case_decide.
  { destruct (negb (truthy (default (PStr "") (arguments !! "query")))); reflexivity. }
  case_decide.
  { destruct (arguments !! "contract_id") as [[] |]; reflexivity. }
  case_decide; [| reflexivity].
  destruct (negb (truthy (default (PList []) (arguments !! "symbols")))); reflexivity.
Qed.
End Plans.

Section Tools.
Context {W : Type} {sqs : SQS W} {runtime : Runtime W} {json : Json} {format : Format}.

Lemma get_sqs_client_cases environ cache :
  match cache with
  | Some client => get_sqs_client environ cache = (inr client, Some client)
  | None =>
      if unset (environ !! "IBKR_REQUEST_QUEUE_URL")
         || unset (environ !! "IBKR_RESPONSE_QUEUE_URL")
      then get_sqs_client environ cache =
             (inl {| value_error_text :=
                       "IBKR_REQUEST_QUEUE_URL and IBKR_RESPONSE_QUEUE_URL environment "
                       +:+ "variables must be set. See README for configuration details." |},
              None)
      else exists request_queue response_queue,
             environ !! "IBKR_REQUEST_QUEUE_URL" = Some request_queue /\
             environ !! "IBKR_RESPONSE_QUEUE_URL" = Some response_queue /\
             request_queue <> "" /\ response_queue <> "" /\
             let client := {| request_queue_url := request_queue;
                              response_queue_url := response_queue;
                              region := default "us-west-2" (environ !! "AWS_REGION") |} in
             get_sqs_client environ cache = (inr client, Some client)
  end.
Proof.
  destruct cache as [client |]; [reflexivity |].
  unfold get_sqs_client.
  destruct (environ !! "IBKR_REQUEST_QUEUE_URL") as [rq |]; simpl; [| reflexivity].
  destruct (bool_decide (rq = "")) eqn:Erq; simpl; [reflexivity |].
  destruct (environ !! "IBKR_RESPONSE_QUEUE_URL") as [rs |]; simpl; [| reflexivity].
  destruct (bool_decide (rs = "")) eqn:Ers; simpl; [reflexivity |].
  apply bool_decide_eq_false in Erq, Ers.
  exists rq, rs. repeat (split; [easy |]).
  unfold SQSClient_init. now rewrite !decide_False by assumption.
Qed.

Lemma call_tool_run fuel name arguments environ cache (w : W) res cache' w' tr :
  call_tool fuel name arguments environ cache w = Some (res, cache', w', tr) ->
  (exists e, get_sqs_client environ cache = (inl e, None) /\
             res = inl e /\ cache' = None /\ w' = w /\ tr = []) \/
  (exists client,
     get_sqs_client environ cache = (inr client, Some client) /\ cache' = Some client /\
     match plan_of name arguments with
     | Refuse text => res = inr text /\ w' = w /\ tr = []
     | Ask title op params tm =>
         exists r tr0,
           send_request fuel client op params tm 3 w = Some (r, w', tr0) /\
           match r with
           | Ok data =>
               res = inr (title +:+ format_response data) /\ tr = map SvClient tr0
           | Raise e =>
               res = inr (report_text (handle_error e) (exn_text e)) /\
               tr = map SvClient tr0 ++ [SvLogException ("Error calling tool " +:+ name)]
           end
     end).
Proof.
  intros H. unfold call_tool in H.
  pose proof (get_sqs_client_cases environ cache) as Hg.
  assert (Hinr : forall client,
    get_sqs_client environ cache = (inr client, Some client) ->
    exists client0,
      get_sqs_client environ cache = (inr client0, Some client0) /\ cache' = Some client0 /\
      match plan_of name arguments with
      | Refuse text => res = inr text /\ w' = w /\ tr = []
      | Ask title op params tm =>
          exists r tr0,
            send_request fuel client0 op params tm 3 w = Some (r, w', tr0) /\
            match r with
            | Ok data =>
                res = inr (title +:+ format_response data) /\ tr = map SvClient tr0
            | Raise e =>
                res = inr (report_text (handle_error e) (exn_text e)) /\
                tr = map SvClient tr0 ++ [SvLogException ("Error calling tool " +:+ name)]
            end
      end).
  { intros client Hgc. rewrite Hgc in H. rewrite dispatch_plan in H.
    exists client. split; [exact Hgc |].
    destruct (plan_of name arguments) as [text | title op params tm].
    - injection H as <- <- <- <-. repeat split.
    - unfold answered in H.
      destruct (send_request fuel client op params tm 3 w) as [[[[data | e] w1] tr0] |];
        [| | discriminate]; injection H as <- <- <- <-;
        (split; [reflexivity |]); eexists _, _; (split; [reflexivity |]); split; reflexivity. }
  destruct cache as [client |]; [right; now apply (Hinr client) |].
  destruct (unset _ || unset _).
  - rewrite Hg in H. injection H as <- <- <- <-. left. eauto 10.
  - destruct Hg as (rq & rs & _ & _ & _ & _ & Hg). right. now apply (Hinr _ Hg).
Qed.

Lemma elem_of_tool_operations name op tm :
  (name, (op, tm)) ∈ tool_operations <->
  (name, (op, tm)) ∈ [("ibkr_health", ("tws_health", 2%Z));
   ("ibkr_account_summary", ("account_values", 5%Z));
   ("ibkr_positions", ("raw_positions", 5%Z));
   ("ibkr_daily_ohlcv", ("daily_ohlcv", 20%Z));
   ("ibkr_hourly_ohlcv", ("hourly_ohlcv", 20%Z));
   ("ibkr_contract_details", ("contract_details", 20%Z));
   ("ibkr_search_symbols", ("find_symbols", 2%Z));
   ("ibkr_contract_by_id", ("get_contract_details_by_id", 2%Z));
   ("ibkr_custom_ohlcv", ("ohlcv", 20%Z))].
Proof. reflexivity. Qed.

(** What a plan that asks the client is made of. *)
Lemma plan_of_ask name arguments title op params tm :
  plan_of name arguments = Ask title op params tm ->
  (name, (op, tm)) ∈ tool_operations /\
  (tm <= 20)%Z /\
  match params with
  | None =>
      name <> "ibkr_search_symbols" /\ name <> "ibkr_contract_by_id" /\
      name <> "ibkr_custom_ohlcv"
  | Some p =>
      p <> ∅ /\
      ((name = "ibkr_search_symbols" /\
        exists query, arguments !! "query" = Some query /\ truthy query = true /\
                      p = {[ "query" := query ]}) \/
       (name = "ibkr_contract_by_id" /\
        exists contract_id, arguments !! "contract_id" = Some contract_id /\
                            contract_id <> PNone /\
          p = <["contract_id" := contract_id]>
                {[ "check_ohlcv_availability" :=
                     default (PBool false) (arguments !! "check_ohlcv") ]}) \/
       (name = "ibkr_custom_ohlcv" /\
        exists symbols, arguments !! "symbols" = Some symbols /\ truthy symbols = true /\
          p = <["symbols" := symbols]>
                (<["duration_str" := default (PStr "7 D") (arguments !! "duration")]>
                   {[ "bar_size_setting" :=
                        default (PStr "1 day") (arguments !! "bar_size") ]})))
  end.
Proof.
  unfold plan_of.
  repeat (let Hn := fresh "Hn" in
          case_decide as Hn;
          [ subst name; intros [= <- <- <- <-];
            (split; [rewrite elem_of_tool_operations, !elem_of_cons; tauto |]);
            (split; [lia |]); repeat split; discriminate | ]).
  case_decide as Hq.
  { subst name. destruct (arguments !! "query") as [query |] eqn:Eq; simpl;
      [| discriminate].
    destruct (truthy query) eqn:Et; simpl; [| discriminate].
    intros [= <- <- <- <-].
    split; [rewrite elem_of_tool_operations, !elem_of_cons; tauto |].
    split; [lia |]. split; [apply insert_non_empty |].
    left. split; [reflexivity |]. eauto. }
  case_decide as Hn'.
  { subst name. destruct (arguments !! "contract_id") as [cid |] eqn:Ec;
      [| discriminate].
    assert (Hcid : cid <> PNone -> Ask
      ("Contract Details for ID " +:+ py_str cid +:+ ":" +:+ newline)
      "get_contract_details_by_id"
      (Some (<["contract_id" := cid]>
         {[ "check_ohlcv_availability" :=
              default (PBool false) (arguments !! "check_ohlcv") ]})) 2
      = Ask title op params tm ->
      (("ibkr_contract_by_id", (op, tm)) ∈ tool_operations) /\ (tm <= 20)%Z /\
      match params with
      | None => "ibkr_contract_by_id" <> "ibkr_search_symbols" /\
                "ibkr_contract_by_id" <> "ibkr_contract_by_id" /\
                "ibkr_contract_by_id" <> "ibkr_custom_ohlcv"
      | Some p => p <> ∅ /\
         (("ibkr_contract_by_id" = "ibkr_search_symbols" /\
           exists query, arguments !! "query" = Some query /\ truthy query = true /\
                         p = {[ "query" := query ]}) \/
          ("ibkr_contract_by_id" = "ibkr_contract_by_id" /\
           exists contract_id, Some cid = Some contract_id /\ contract_id <> PNone /\
             p = <["contract_id" := contract_id]>
                   {[ "check_ohlcv_availability" :=
                        default (PBool false) (arguments !! "check_ohlcv") ]}) \/
          ("ibkr_contract_by_id" = "ibkr_custom_ohlcv" /\
           exists symbols, arguments !! "symbols" = Some symbols /\
             truthy symbols = true /\
             p = <["symbols" := symbols]>
                   (<["duration_str" := default (PStr "7 D") (arguments !! "duration")]>
                      {[ "bar_size_setting" :=
                           default (PStr "1 day") (arguments !! "bar_size") ]})))
      end).
    { intros Hne [= <- <- <- <-].
      split; [rewrite elem_of_tool_operations, !elem_of_cons; tauto |].
      split; [lia |]. split; [apply insert_non_empty |].
      right. left. split; [reflexivity |]. eauto. }
    destruct cid; try discriminate; apply Hcid; discriminate. }
  case_decide as Hn''; [| discriminate].
  subst name. destruct (arguments !! "symbols") as [symbols |] eqn:Es; simpl;
    [| discriminate].
  destruct (truthy symbols) eqn:Et; simpl; [| discriminate].
  intros [= <- <- <- <-].
  split; [rewrite elem_of_tool_operations, !elem_of_cons; tauto |].
  split; [lia |]. split; [apply insert_non_empty |].
  right. right. split; [reflexivity |]. eauto.
Qed.
End Tools.

Section ToolTheorems.
Context {W : Type} {sqs : SQS W} {runtime : Runtime W} {json : Json} {format : Format}.

(** X11.  [get_sqs_client] fails exactly when no client is kept and one of
    the two queue variables is missing or empty; it then keeps nothing, so the
    next call reads the environment again.  A client it builds has the two
    queue addresses of the environment, both not empty, so the checks of
    [SQSClient.__init__] never fire, and the region of [AWS_REGION] or
    [us-west-2].  Once a client is kept every later call answers with that
    client, whatever the environment has become. *)
Theorem sqs_client_from_environment environ cache r cache' :
  get_sqs_client environ cache = (r, cache') ->
  ((exists e, r = inl e) <->
   cache = None /\
   (unset (environ !! "IBKR_REQUEST_QUEUE_URL") = true \/
    unset (environ !! "IBKR_RESPONSE_QUEUE_URL") = true)) /\
  (forall e, r = inl e ->
     cache' = None /\
     value_error_text e <> "request_queue_url is required" /\
     value_error_text e <> "response_queue_url is required") /\
  (forall client, r = inr client ->
     cache' = Some client /\
     (cache = None ->
        environ !! "IBKR_REQUEST_QUEUE_URL" = Some (request_queue_url client) /\
        environ !! "IBKR_RESPONSE_QUEUE_URL" = Some (response_queue_url client) /\
        request_queue_url client <> "" /\ response_queue_url client <> "" /\
        region client = default "us-west-2" (environ !! "AWS_REGION")) /\
     (forall environ', get_sqs_client environ' cache' = (inr client, cache'))).
Proof.
  intros H. pose proof (get_sqs_client_cases environ cache) as Hg.
  destruct cache as [client0 |].
  - rewrite Hg in H. injection H as <- <-.
    split; [split; [intros [e [=]] | intros [[=] _]] |].
    split; [discriminate |].
    intros client [= <-]. split; [reflexivity |]. split; [discriminate | reflexivity].
  - destruct (unset _ || unset _) eqn:Eu.
    + rewrite Hg in H. injection H as <- <-.
      split; [split; [intros _; split; [reflexivity |]; now apply orb_true_iff | eauto] |].
      split; [| discriminate].
      intros e [= <-]. split; [reflexivity |]. split; discriminate.
    + destruct Hg as (rq & rs & Hrq & Hrs & Hnq & Hns & Hg). cbv zeta in Hg.
      rewrite Hg in H. injection H as <- <-.
      apply orb_false_iff in Eu as [Eu1 Eu2].
      split; [split; [intros [e [=]] | intros [_ [Hu | Hu]]; congruence] |].
      split; [discriminate |].
      intros client [= <-]. split; [reflexivity |].
      split; [intros _; simpl; auto |]. reflexivity.
Qed.

(** X12.  A call that lacks what its tool requires is answered at once:
    [ibkr_search_symbols] without [query] or with an empty or otherwise false
    one, [ibkr_contract_by_id] without [contract_id] or with [None],
    [ibkr_custom_ohlcv] without [symbols] or with an empty list, and any name
    that is no tool.  The answer is the text of the source; nothing is
    published or fetched, no identifier is drawn, and this holds with no fuel
    at all. *)
Theorem invalid_call_is_answered_at_once fuel client name arguments environ (w : W) :
  (name = "ibkr_search_symbols" /\
   truthy (default (PStr "") (arguments !! "query")) = false) \/
  (name = "ibkr_contract_by_id" /\
   (arguments !! "contract_id" = None \/ arguments !! "contract_id" = Some PNone)) \/
  (name = "ibkr_custom_ohlcv" /\
   truthy (default (PList []) (arguments !! "symbols")) = false) \/
  name ∉ tool_operations.*1 ->
  call_tool fuel name arguments environ (Some client) w =
    Some (inr (if decide (name = "ibkr_search_symbols")
               then "Error: 'query' parameter is required"
               else if decide (name = "ibkr_contract_by_id")
               then "Error: 'contract_id' parameter is required"
               else if decide (name = "ibkr_custom_ohlcv")
               then "Error: 'symbols' parameter is required and must be non-empty"
               else "Unknown tool: " +:+ name),
          Some client, w, []).
Proof.
  intros Hbad. unfold call_tool, get_sqs_client. rewrite dispatch_plan.
  assert (Hplan : plan_of name arguments =
    Refuse (if decide (name = "ibkr_search_symbols")
            then "Error: 'query' parameter is required"
            else if decide (name = "ibkr_contract_by_id")
            then "Error: 'contract_id' parameter is required"
            else if decide (name = "ibkr_custom_ohlcv")
            then "Error: 'symbols' parameter is required and must be non-empty"
            else "Unknown tool: " +:+ name)); [| now rewrite Hplan].
  destruct Hbad as [[-> Hq] | [[-> Hc] | [[-> Hs] | Hno]]].
  - unfold plan_of. simpl. now rewrite Hq.
  - unfold plan_of. simpl. destruct Hc as [-> | ->]; reflexivity.
  - unfold plan_of. simpl. now rewrite Hs.
  - assert (Hne : forall n, n ∈ tool_operations.*1 -> name <> n)
      by (intros n Hn ->; contradiction).
    unfold plan_of.
    rewrite !decide_False
      by (apply Hne; cbv [tool_operations fmap list_fmap fst];
          rewrite !elem_of_cons; tauto).
    reflexivity.
Qed.

(** X13.  Whatever a call of a tool publishes, it publishes once, to the
    request queue: a request whose [operation] is the one of the tool, whose
    [execution_id] is the identifier [uuid4] has just produced and whose
    [timestamp] is the ISO text of the current time.  Of the caller's
    arguments it carries the ones of the tool and no other, under the keys of
    the service: [query]; [contract_id] and [check_ohlcv] as
    [check_ohlcv_availability], false when absent; [symbols], [duration] as
    [duration_str], ["7 D"] when absent, and [bar_size] as [bar_size_setting],
    ["1 day"] when absent.  No argument can replace a key of the envelope. *)
Theorem tool_call_publishes fuel name arguments environ cache (w : W)
    res cache' w' tr request :
  call_tool fuel name arguments environ cache w = Some (res, cache', w', tr) ->
  request ∈ sent (client_events tr) ->
  sent (client_events tr) = [request] /\
  (exists client ans,
     cache' = Some client /\
     SvClient (EvSend (request_queue_url client) request ans) ∈ tr) /\
  (exists op tm, (name, (op, tm)) ∈ tool_operations /\
                 request !! "operation" = Some (PStr op)) /\
  request !! "execution_id" = Some (PStr (uuid4 w).1) /\
  request !! "timestamp" = Some (PStr (isoformat (datetime_now (uuid4 w).2))) /\
  request !! "query" =
    (if decide (name = "ibkr_search_symbols") then arguments !! "query" else None) /\
  request !! "contract_id" =
    (if decide (name = "ibkr_contract_by_id") then arguments !! "contract_id" else None) /\
  request !! "check_ohlcv_availability" =
    (if decide (name = "ibkr_contract_by_id")
     then Some (default (PBool false) (arguments !! "check_ohlcv")) else None) /\
  request !! "symbols" =
    (if decide (name = "ibkr_custom_ohlcv") then arguments !! "symbols" else None) /\
  request !! "duration_str" =
    (if decide (name = "ibkr_custom_ohlcv")
     then Some (default (PStr "7 D") (arguments !! "duration")) else None) /\
  request !! "bar_size_setting" =
    (if decide (name = "ibkr_custom_ohlcv")
     then Some (default (PStr "1 day") (arguments !! "bar_size")) else None) /\
  (forall k, k ∉ reserved_keys ++
                 ["query"; "contract_id"; "check_ohlcv_availability";
                  "symbols"; "duration_str"; "bar_size_setting"] ->
             request !! k = None).
Proof.
  intros H Hin.
  apply call_tool_run in H as [(e & _ & _ & _ & _ & ->) | (client & _ & -> & H)];
    [inversion Hin |].
  destruct (plan_of name arguments) as [text | title op params tm] eqn:Eplan;
    [destruct H as (_ & _ & ->); inversion Hin |].
  destruct H as (r & tr0 & Hrun & H).
  assert (Hev : client_events tr = tr0).
  { destruct r; destruct H as [_ ->];
      rewrite ?client_events_app, client_events_map; simpl;
      now rewrite ?app_nil_r. }
  assert (Hsend : exists ans,
             SvClient (EvSend (request_queue_url client) request ans) ∈ tr /\
             sent tr0 = [request]).
  { pose proof (send_request_sent _ _ _ _ _ _ _ _ _ _ Hrun) as Hs.
    rewrite Hev, Hs in Hin. apply list_elem_of_singleton in Hin. subst request.
    pose proof (send_request_cases fuel client op params tm 3 w) as [_ Hc].
    cbv zeta in Hc.
    assert (Htr0 : exists ans rest,
      tr0 = EvLog LogInfo ("Sending request " +:+ (uuid4 w).1 +:+ " for operation '"
                           +:+ op +:+ "'")
            :: EvSend (request_queue_url client)
                 (build_request op (uuid4 w).1 (isoformat (datetime_now (uuid4 w).2))
                    params) ans :: rest).
    { destruct (sqs_send_message _ _ (uuid4 w).2) as [[err |] w1]; simpl in Hc;
        rewrite Hc in Hrun.
      - injection Hrun as <- <- <-. eauto.
      - destruct (_wait_for_response fuel client (uuid4 w).1 tm 3 w1)
          as [[[r2 w2] t2] |]; [| discriminate].
        injection Hrun as <- <- <-. eauto. }
    destruct Htr0 as (ans & rest & Htr0). exists ans. split; [| exact Hs].
    destruct r; destruct H as [_ ->]; rewrite Htr0; simpl;
      rewrite !elem_of_cons; auto. }
  destruct Hsend as (ans & Hsent & Hs).
  rewrite Hev. split; [exact Hs |].
  split; [eauto |].
  pose proof (send_request_sent _ _ _ _ _ _ _ _ _ _ Hrun) as Hs'.
  rewrite Hs in Hs'. injection Hs' as Hreq.
  pose proof (build_request_lookup op (uuid4 w).1
                (isoformat (datetime_now (uuid4 w).2)) params) as Hlook.
  rewrite <- Hreq in Hlook. clear Hreq Hin Hsent Hs.
  apply plan_of_ask in Eplan as (Htool & _ & Hparams).
  split; [exists op, tm; split; [exact Htool |] |].
  { rewrite Hlook.
    destruct params as [p |]; simpl.
    - destruct Hparams as
        (_ & [(-> & q & _ & _ & ->) | [(-> & c & _ & _ & ->) | (-> & s & _ & _ & ->)]]);
        reflexivity.
    - reflexivity. }
  rewrite !Hlook.
  destruct params as [p |]; simpl.
  - destruct Hparams as
      (_ & [(-> & q & Hq & _ & ->) | [(-> & c & Hc & _ & ->) | (-> & s & Hsy & _ & ->)]]);
      simpl; rewrite ?Hq, ?Hc, ?Hsy;
      repeat (split; [reflexivity |]);
      intros k Hk; rewrite Hlook; simpl;
      unfold reserved_keys in Hk; simpl in Hk; rewrite !not_elem_of_cons in Hk;
      destruct Hk as (? & ? & ? & ? & ? & ? & ? & ? & ? & _);
      rewrite ?lookup_insert_ne, ?lookup_singleton_ne by congruence;
      repeat case_decide; congruence.
  - destruct Hparams as (H1 & H2 & H3).
    rewrite !decide_False by assumption.
    repeat (split; [reflexivity |]).
    intros k Hk. rewrite Hlook. simpl.
    unfold reserved_keys in Hk. simpl in Hk. rewrite !not_elem_of_cons in Hk.
    destruct Hk as (? & ? & ? & _).
    rewrite lookup_empty. repeat case_decide; congruence.
Qed.
End ToolTheorems.

Section ToolFailures.
Context {W : Type} {sqs : SQS W} {runtime : Runtime W} {json : Json} {format : Format}.

(** The three ways a call of [send_request] can raise. *)
Lemma send_request_raise fuel self op params tm wt (w : W) e w' tr :
  send_request fuel self op params tm wt w = Some (Raise e, w', tr) ->
  let request := build_request op (uuid4 w).1 (isoformat (datetime_now (uuid4 w).2))
                   params in
  let sent1 := sqs_send_message (request_queue_url self) (json_dumps request) (uuid4 w).2 in
  (exists err,
     sent1.1 = Some err /\
     e = SQSClientError ("Failed to send request: " +:+ client_error_text err) /\
     EvSend (request_queue_url self) request (Some err) ∈ tr /\
     observed tr = [] /\ w' = sent1.2) \/
  (sent1.1 = None /\
   e = SQSTimeoutError (timeout_text (uuid4 w).1) /\
   (deadline sent1.2 tm <= datetime_now w')%Q) \/
  (sent1.1 = None /\
   exists err h,
     e = BotoClientError err /\
     EvDelete (response_queue_url self) h (Some err) ∈ tr /\ h ∈ deleted tr).
Proof.
  intros H request sent1.
  pose proof (send_request_cases fuel self op params tm wt w) as [_ Hc].
  cbv zeta in Hc. fold request in Hc. fold sent1 in Hc.
  destruct sent1 as [[err |] w1] eqn:Es; simpl in *; rewrite Hc in H.
  - injection H as <- <- <-. left. exists err.
    repeat split. rewrite !elem_of_cons. auto.
  - destruct (_wait_for_response fuel self (uuid4 w).1 tm wt w1)
      as [[[r2 w2] t2] |] eqn:E; [| discriminate].
    injection H as -> <- <-. right.
    pose proof (wait_loop_hygiene _ _ _ _ _ _ _ _ _ _ E) as (_ & _ & Hraise).
    destruct (Hraise _ eq_refl) as [-> | (h & err & pre & -> & ->)].
    + left. split; [reflexivity |]. split; [reflexivity |].
      now apply wait_loop_timeout in E.
    + right. split; [reflexivity |]. exists err, h. split; [reflexivity |].
      split.
      * rewrite !elem_of_cons, elem_of_app, list_elem_of_singleton. auto.
      * simpl. rewrite deleted_app, elem_of_app. right. simpl.
        now apply list_elem_of_singleton.
Qed.

(** A wait of [tm] minutes ends within [fuel_for tm] rounds. *)
Lemma send_request_terminates {clock_laws : ClockLaws W}
    fuel self op params tm wt (w : W) :
  fuel_for tm <= fuel ->
  exists res, send_request fuel self op params tm wt w = Some res.
Proof.
  intros Hfuel.
  pose proof (send_request_cases fuel self op params tm wt w) as [_ Hc].
  cbv zeta in Hc.
  destruct (sqs_send_message _ _ (uuid4 w).2) as [[err |] w1]; simpl in Hc;
    rewrite Hc; [eauto |].
  unfold _wait_for_response.
  destruct (wait_loop_terminates (Z.to_nat (120 * tm)) self (uuid4 w).1
              (deadline w1 tm) wt initial_poll_delay w1) as [[[r w'] tr] Hrun].
  - unfold initial_poll_delay. lra.
  - unfold initial_poll_delay. lra.
  - unfold deadline. pose proof (fuel_for_enough tm). lra.
  - apply (wait_loop_fuel_le _ fuel) in Hrun; [| exact Hfuel].
    rewrite Hrun. eauto.
Qed.

Lemma fuel_for_mono (a b : Z) : (a <= b)%Z -> fuel_for a <= fuel_for b.
Proof. unfold fuel_for. lia. Qed.

(** X15.  Under the clock assumptions a call of a tool ends within the
    rounds of a wait of twenty minutes, whatever the tool and the arguments.
    It lets an exception escape only when the queues are not configured: the
    [ValueError] of [get_sqs_client], raised before the name of the tool is
    looked at and with nothing done.  In every other case it answers with a
    text, and then a client is kept. *)
Theorem tool_call_answers {clock_laws : ClockLaws W}
    fuel name arguments environ cache (w : W) :
  fuel_for 20 <= fuel ->
  exists res cache' w' tr,
    call_tool fuel name arguments environ cache w = Some (res, cache', w', tr) /\
    ((exists e, res = inl e) <->
     cache = None /\
     (unset (environ !! "IBKR_REQUEST_QUEUE_URL") = true \/
      unset (environ !! "IBKR_RESPONSE_QUEUE_URL") = true)) /\
    (forall e, res = inl e -> cache' = None /\ w' = w /\ tr = []) /\
    (forall text, res = inr text -> exists client, cache' = Some client).
Proof.
  intros Hfuel.
  assert (Hrun : exists res cache' w' tr,
             call_tool fuel name arguments environ cache w = Some (res, cache', w', tr)).
  { unfold call_tool.
    destruct (get_sqs_client environ cache) as [[e | client] cache1]; [eauto 10 |].
    rewrite dispatch_plan.
    destruct (plan_of name arguments) as [text | title op params tm] eqn:Eplan;
      [eauto 10 |].
    apply plan_of_ask in Eplan as (_ & Htm & _).
    destruct (send_request_terminates fuel client op params tm 3 w) as [[[r w1] tr1] E].
    - etransitivity; [apply fuel_for_mono, Htm | exact Hfuel].
    - rewrite E. destruct r; simpl; eauto 10. }
  destruct Hrun as (res & cache' & w' & tr & Hrun).
  exists res, cache', w', tr. split; [exact Hrun |].
  apply call_tool_run in Hrun.
  pose proof (get_sqs_client_cases environ cache) as Hg.
  destruct Hrun as [(e & Hget & -> & -> & -> & ->) | (client & Hget & -> & Hplan)].
  - split; [| split; [intros e' _; repeat split | discriminate]].
    split; [intros _ | eauto].
    destruct cache as [c |]; [congruence |]. split; [reflexivity |].
    destruct (unset _ || unset _) eqn:Eu; [now apply orb_true_iff |].
    destruct Hg as (rq & rs & _ & _ & _ & _ & Hg). cbv zeta in Hg. congruence.
  - assert (Hres : exists text, res = inr text).
    { destruct (plan_of name arguments); [destruct Hplan as (-> & _); eauto |].
      destruct Hplan as ([data | e] & tr0 & _ & -> & _); eauto. }
    destruct Hres as [text ->].
    split; [| split; [discriminate | eauto]].
    split; [intros [e [=]] |].
    intros [-> Hu]. apply orb_true_iff in Hu. rewrite Hu in Hg. congruence.
Qed.
End ToolFailures.

Lemma sqs_client_from_environment_witness :
  exists client,
    get_sqs_client {[ "IBKR_REQUEST_QUEUE_URL" := "requests";
                      "IBKR_RESPONSE_QUEUE_URL" := "responses" ]} None
      = (inr client, Some client) /\
    request_queue_url client <> "" /\
    region client = "us-west-2" /\
    get_sqs_client ∅ (Some client) = (inr client, Some client).
Proof.
  destruct (get_sqs_client {[ "IBKR_REQUEST_QUEUE_URL" := "requests";
                              "IBKR_RESPONSE_QUEUE_URL" := "responses" ]} None)
    as [r cache'] eqn:E.
  destruct (sqs_client_from_environment _ _ _ _ E) as (_ & _ & Hok).
  pose proof E as E'. vm_compute in E'. injection E' as <- <-.
  destruct (Hok _ eq_refl) as (_ & Hnew & Hstable).
  destruct (Hnew eq_refl) as (_ & _ & Hrq & _ & Hregion).
  eexists. split; [reflexivity |]. split; [exact Hrq |].
  split; [exact Hregion | apply Hstable].
Defined.

Lemma invalid_call_is_answered_at_once_witness :
  call_tool 0 "ibkr_search_symbols" {[ "query" := PStr "" ]} ∅
    (Some Script.client) (Script.start 0 [])
  = Some (inr "Error: 'query' parameter is required", Some Script.client,
          Script.start 0 [], []).
Proof.
  assert (H : ("ibkr_search_symbols" = "ibkr_search_symbols" /\
       truthy (default (PStr "") (({[ "query" := PStr "" ]} : pydict) !! "query")) = false) \/
      ("ibkr_search_symbols" = "ibkr_contract_by_id" /\
       ((({[ "query" := PStr "" ]} : pydict) !! "contract_id" = None) \/
        (({[ "query" := PStr "" ]} : pydict) !! "contract_id" = Some PNone))) \/
      ("ibkr_search_symbols" = "ibkr_custom_ohlcv" /\
       truthy (default (PList []) (({[ "query" := PStr "" ]} : pydict) !! "symbols")) = false) \/
      "ibkr_search_symbols" ∉ tool_operations.*1)
    by (left; split; reflexivity).
  exact (invalid_call_is_answered_at_once 0 Script.client "ibkr_search_symbols"
           {[ "query" := PStr "" ]} ∅ (Script.start 0 []) H).
Defined.

Lemma tool_call_publishes_witness :
  exists res cache' w' tr request,
    call_tool 1 "ibkr_contract_by_id"
      {[ "contract_id" := PInt 0; "execution_id" := PStr "mine" ]} ∅
      (Some Script.client)
      (Script.start 0 [inr (Some [Script.tagged "uuid-0" "h1" "1"])])
    = Some (res, cache', w', tr) /\
    sent (client_events tr) = [request] /\
    request !! "contract_id" = Some (PInt 0) /\
    request !! "check_ohlcv_availability" = Some (PBool false) /\
    request !! "execution_id" = Some (PStr "uuid-0").
Proof.
  destruct (call_tool 1 "ibkr_contract_by_id"
      {[ "contract_id" := PInt 0; "execution_id" := PStr "mine" ]} ∅
      (Some Script.client)
      (Script.start 0 [inr (Some [Script.tagged "uuid-0" "h1" "1"])]))
    as [[[[res cache'] w'] tr] |] eqn:E; [| vm_compute in E; discriminate].
  assert (Hs : exists request, sent (client_events tr) = [request]).
  { pose proof E as E'. vm_compute in E'. injection E' as <- <- <- <-.
    eexists. vm_compute. reflexivity. }
  destruct Hs as [request Hs].
  assert (Hin : request ∈ sent (client_events tr))
    by (rewrite Hs; now apply list_elem_of_singleton).
  destruct (tool_call_publishes _ _ _ _ _ _ _ _ _ _ _ E Hin)
    as (_ & _ & _ & Hid & _ & _ & Hc & Hck & _).
  exists res, cache', w', tr, request. split; [reflexivity |].
  split; [exact Hs |]. split; [exact Hc |]. split; [exact Hck | exact Hid].
Defined.

Lemma tool_call_answers_witness :
  exists res cache' w' tr,
    call_tool (fuel_for 20) "ibkr_health" ∅ ∅ (Some Script.client) (Script.start 0 [])
    = Some (res, cache', w', tr) /\
    forall text, res = inr text -> exists client, cache' = Some client.
Proof.
  destruct (tool_call_answers (fuel_for 20) "ibkr_health" ∅ ∅ (Some Script.client)
              (Script.start 0 []) (le_n _))
    as (res & cache' & w' & tr & Hrun & _ & _ & Htext).
  exists res, cache', w', tr. split; [exact Hrun | exact Htext].
Defined.

(** ** Strings *)

Lemma prefix_spec (p s : string) :
  String.prefix p s = true <-> exists rest, s = p +:+ rest.
Proof.
  revert s. induction p as [| c p IH]; intros s.
  - split; [intros _; now exists s | intros _; now destruct s].
  - destruct s as [| d s]; [split; [discriminate | intros [rest [=]]] |].
    change (String.prefix (String c p) (String d s))
      with (if Ascii.ascii_dec c d then String.prefix p s else false).
    destruct (Ascii.ascii_dec c d) as [<- | Hne].
    + rewrite IH. split; intros [rest H]; exists rest.
      * now rewrite H.
      * now injection H.
    + split; [discriminate | intros [rest [= ? _]]; congruence].
Qed.

(** [str_in sub s] holds exactly when [sub] occurs somewhere in [s]. *)
Lemma str_in_spec (sub s : string) :
  str_in sub s = true <-> exists before after, s = before +:+ sub +:+ after.
Proof.
  induction s as [| c s IH].
  - change (str_in sub "") with (String.prefix sub "" || false).
    rewrite orb_false_r, prefix_spec. split.
    + intros [rest H]. now exists "", rest.
    + intros (before & after & H). exists after.
      destruct before; [exact H | discriminate].
  - change (str_in sub (String c s))
      with (String.prefix sub (String c s) || str_in sub s).
    rewrite orb_true_iff, prefix_spec, IH. split.
    + intros [[rest H] | (before & after & H)].
      * now exists "", rest.
      * exists (String c before), after. simpl. now rewrite H.
    + intros (before & after & H). destruct before as [| d before]; simpl in H.
      * left. now exists after.
      * right. injection H as _ H. now exists before, after.
Qed.

(** ** The vault allowlist *)

Section Allowlist.
Context {pystr : PyStr}.

Lemma elem_of_allowed_vaults allowed environ x :
  x ∈ allowed_vaults (VaultFilter_init allowed environ).1 <->
  exists v, v ∈ str_split comma (allowlist_text allowed environ) /\
            str_strip v <> "" /\ x = str_lower (str_strip v).
Proof.
  unfold VaultFilter_init. simpl.
  rewrite elem_of_list_to_set, list_elem_of_fmap.
  split; intros (v & H1 & H2).
  - apply list_elem_of_filter in H2 as [H2 H3]. eauto.
  - destruct H2 as [H2 H3]. exists v. split; [exact H3 |].
    apply list_elem_of_filter. now split.
Qed.
End Allowlist.

Lemma str_split_nonempty sep s : str_split sep s <> [].
Proof.
  destruct s as [| c s]; simpl; [discriminate |].
  case_decide; [discriminate |]. destruct (str_split sep s); discriminate.
Qed.

Section AllowlistTheorems.
Context {pystr : PyStr}.

(** X16.  A vault name is allowed exactly when its lower case is the lower
    case of the stripped text of some entry of the comma-separated list that
    is not blank.  The list is the argument of [VaultFilter] when that is a
    non-empty string, else the variable [OP_ALLOWED_VAULTS] when it is set,
    were it to the empty string, else ["AI"].  So two names with the same
    lower case are allowed or refused together, and neither the order of the
    entries nor a repeated entry matters. *)
Theorem vault_allowed_iff_listed allowed environ name :
  (is_allowed (VaultFilter_init allowed environ).1 name = true <->
   exists v, v ∈ str_split comma (allowlist_text allowed environ) /\
             str_strip v <> "" /\ str_lower (str_strip v) = str_lower name) /\
  (forall arg, allowed = Some arg -> arg <> "" ->
               allowlist_text allowed environ = arg) /\
  (allowed = None \/ allowed = Some "" ->
   allowlist_text allowed environ = default "AI" (environ !! "OP_ALLOWED_VAULTS")) /\
  (forall name', str_lower name' = str_lower name ->
     is_allowed (VaultFilter_init allowed environ).1 name'
     = is_allowed (VaultFilter_init allowed environ).1 name) /\
  (forall allowed' environ',
     (forall v, v ∈ str_split comma (allowlist_text allowed environ) <->
                v ∈ str_split comma (allowlist_text allowed' environ')) ->
     (VaultFilter_init allowed' environ').1 = (VaultFilter_init allowed environ).1).
Proof.
  split; [| split; [| split; [| split]]].
  - unfold is_allowed. rewrite bool_decide_eq_true, elem_of_allowed_vaults.
    split; intros (v & H1 & H2 & H3); eauto.
  - intros arg -> Harg. unfold allowlist_text. simpl.
    now rewrite bool_decide_eq_false_2.
  - intros [-> | ->]; reflexivity.
  - intros name' Heq. unfold is_allowed. now rewrite Heq.
  - intros allowed' environ' Hsame.
    assert (Hset : allowed_vaults (VaultFilter_init allowed' environ').1
                   = allowed_vaults (VaultFilter_init allowed environ).1).
    { apply set_eq. intros x. rewrite !elem_of_allowed_vaults.
      split; intros (v & H1 & H2 & H3); exists v; (split; [now apply Hsame | auto]). }
    destruct (VaultFilter_init allowed' environ').1, (VaultFilter_init allowed environ).1.
    simpl in Hset. now subst.
Qed.

(** X17.  Under the assumptions on the string methods: the vault without a
    name is never allowed, whatever the list; and when the list in force is
    the empty string, as it is when [OP_ALLOWED_VAULTS] is set to nothing and
    no argument is given, no vault at all is allowed: the default ["AI"] is
    not taken. *)
Theorem blank_allowlist_allows_nothing {laws : PyStrLaws} allowed environ :
  is_allowed (VaultFilter_init allowed environ).1 "" = false /\
  (allowlist_text allowed environ = "" ->
   forall name, is_allowed (VaultFilter_init allowed environ).1 name = false) /\
  (unset allowed = true -> environ !! "OP_ALLOWED_VAULTS" = Some "" ->
   forall name, is_allowed (VaultFilter_init allowed environ).1 name = false).
Proof.
  assert (Hblank : allowlist_text allowed environ = "" ->
            forall name, is_allowed (VaultFilter_init allowed environ).1 name = false).
  { intros Hraw name. unfold is_allowed. apply bool_decide_eq_false.
    rewrite elem_of_allowed_vaults, Hraw. intros (v & Hv & Hne & _).
    apply list_elem_of_singleton in Hv. subst v. apply Hne, str_strip_empty. }
  split; [| split; [exact Hblank |]].
  - unfold is_allowed. apply bool_decide_eq_false.
    rewrite elem_of_allowed_vaults. intros (v & _ & Hne & Heq).
    rewrite str_lower_empty in Heq. symmetry in Heq.
    now apply str_lower_nonempty in Heq.
  - intros Hun Henv. apply Hblank. unfold allowlist_text. now rewrite Hun, Henv.
Qed.

Lemma filter_vaults_cons self v rest :
  filter_vaults self (v :: rest) =
  match get_str v "name" "lower" with
  | inl e => inl e
  | inr name =>
      match filter_vaults self rest with
      | inl e => inl e
      | inr kept => inr (if is_allowed self name then v :: kept else kept)
      end
  end.
Proof. reflexivity. Qed.

Lemma get_str_inr d key method s :
  get_str d key method = inr s <->
  d !! key = Some (PStr s) \/ (d !! key = None /\ s = "").
Proof.
  unfold get_str. destruct (d !! key) as [[] |]; simpl; split;
    try discriminate; try (intros [[=] | [[=] _]]; fail);
    try (intros [= <-]; auto; fail).
  - intros [[= <-] | [[=] _]]. reflexivity.
  - intros [[=] | [_ ->]]. reflexivity.
Qed.

(** X18.  When every vault of the list has a string for a name or no name,
    [filter_vaults] returns, in their order, exactly the vaults of the list
    whose name is allowed, a vault without a name counting as the vault named
    by the empty string; it fails, with an [AttributeError], exactly when some
    vault has a name that is no string. *)
Theorem filter_vaults_keeps_allowed self vaults :
  match filter_vaults self vaults with
  | inr kept =>
      (forall v, v ∈ vaults -> exists name, get_str v "name" "lower" = inr name) /\
      kept = List.filter
               (fun v => match get_str v "name" "lower" with
                         | inr name => is_allowed self name
                         | inl _ => false
                         end) vaults
  | inl e =>
      exists v value,
        v ∈ vaults /\ v !! "name" = Some value /\ (forall s, value <> PStr s) /\
        e = AttributeError
              ("'" +:+ type_name value +:+ "' object has no attribute 'lower'")
  end.
Proof.
  induction vaults as [| v rest IH]; [split; [inversion 1 | reflexivity] |].
  rewrite filter_vaults_cons.
  destruct (get_str v "name" "lower") as [e | name] eqn:Ev.
  - unfold get_str in Ev. destruct (v !! "name") as [value |] eqn:En;
      simpl in Ev; [| discriminate].
    exists v, value. split; [rewrite elem_of_cons; auto |].
    split; [exact En |].
    destruct value; try discriminate; injection Ev as <-; split;
      try reflexivity; discriminate.
  - destruct (filter_vaults self rest) as [e | kept].
    + destruct IH as (v' & value & Hin & H). exists v', value.
      split; [rewrite elem_of_cons; auto | exact H].
    + destruct IH as [Hall ->]. split.
      * intros v' [-> | Hin]%elem_of_cons; eauto.
      * simpl. rewrite Ev. reflexivity.
Qed.
End AllowlistTheorems.

(** ** Redaction *)

Lemma should_redact_spec field_type field_id :
  should_redact field_type field_id = true <->
  field_type ∈ SENSITIVE_FIELD_TYPES \/
  exists s before after,
    s ∈ SENSITIVE_FIELD_IDS /\ field_id = before +:+ s +:+ after.
Proof.
  unfold should_redact.
  rewrite orb_true_iff, bool_decide_eq_true, existsb_exists.
  split; (intros [H | H]; [now left | right]).
  - destruct H as (s & Hin & Hs). apply str_in_spec in Hs as (before & after & Hs).
    exists s, before, after. split; [now apply list_elem_of_In | exact Hs].
  - destruct H as (s & before & after & Hin & Hs). exists s.
    split; [now apply list_elem_of_In |]. apply str_in_spec. eauto.
Qed.

Section Redaction.
Context {pystr : PyStr}.

Lemma redact_field_cases field :
  match get_str field "field_type" "upper", get_str field "id" "lower" with
  | inl e, _ => redact_field field = inl e
  | inr _, inl e => redact_field field = inl e
  | inr field_type, inr field_id =>
      redact_field field =
        inr (if should_redact (str_upper field_type) (str_lower field_id)
                && bool_decide (is_Some (field !! "value"))
             then <["value" := PStr REDACTED]> field else field)
  end.
Proof.
  unfold redact_field.
  destruct (get_str field "field_type" "upper"); [reflexivity |].
  destruct (get_str field "id" "lower"); [reflexivity |].
  now destruct (_ && _).
Qed.

Lemma get_str_insert_ne field key method k v :
  k <> key -> get_str (<[k := v]> field) key method = get_str field key method.
Proof. intros Hk. unfold get_str. now rewrite lookup_insert_ne. Qed.

Lemma get_str_inl d key method e :
  get_str d key method = inl e ->
  exists value,
    d !! key = Some value /\ (forall s, value <> PStr s) /\
    e = AttributeError
          ("'" +:+ type_name value +:+ "' object has no attribute '" +:+ method +:+ "'").
Proof.
  unfold get_str. destruct (d !! key) as [value |]; simpl; [| discriminate].
  intros H. exists value. split; [reflexivity |].
  destruct value; try discriminate; injection H as <-; split;
    try reflexivity; discriminate.
Qed.

(** X19.  What [redact_field] returns for a field whose type and identifier
    are strings or absent: a field with the same keys, equal to the given one
    under every key but [value]; under [value] the mark [[REDACTED]] when the
    field has a value and is sensitive, that is when the upper case of its
    type is one of the four sensitive types or the lower case of its
    identifier contains one of the five sensitive words, and the value it had
    otherwise.  A field that is not sensitive or has no value comes back as it
    is, and redacting twice is redacting once.  The function fails, with an
    [AttributeError], exactly when the type or the identifier is present and
    is no string. *)
Theorem redact_field_marks_sensitive field :
  match redact_field field with
  | inr out =>
      exists field_type field_id,
        get_str field "field_type" "upper" = inr field_type /\
        get_str field "id" "lower" = inr field_id /\
        dom out = dom field /\
        (forall k, k <> "value" -> out !! k = field !! k) /\
        (out !! "value" = Some (PStr "[REDACTED]") \/ out = field) /\
        (str_upper field_type ∈ SENSITIVE_FIELD_TYPES \/
         (exists s before after,
            s ∈ SENSITIVE_FIELD_IDS /\ str_lower field_id = before +:+ s +:+ after) ->
         is_Some (field !! "value") ->
         out !! "value" = Some (PStr "[REDACTED]")) /\
        (~ (str_upper field_type ∈ SENSITIVE_FIELD_TYPES \/
            exists s before after,
              s ∈ SENSITIVE_FIELD_IDS /\ str_lower field_id = before +:+ s +:+ after) ->
         out = field) /\
        (field !! "value" = None -> out = field) /\
        redact_field out = inr out
  | inl e =>
      exists key method value,
        (key, method) ∈ [("field_type", "upper"); ("id", "lower")] /\
        field !! key = Some value /\ (forall s, value <> PStr s) /\
        e = AttributeError
              ("'" +:+ type_name value +:+ "' object has no attribute '"
               +:+ method +:+ "'")
  end.
Proof.
  pose proof (redact_field_cases field) as Hc.
  destruct (get_str field "field_type" "upper") as [e | field_type] eqn:Et.
  { rewrite Hc. apply get_str_inl in Et as (value & H1 & H2 & H3).
    exists "field_type", "upper", value. rewrite !elem_of_cons. auto. }
  destruct (get_str field "id" "lower") as [e | field_id] eqn:Ei.
  { rewrite Hc. apply get_str_inl in Ei as (value & H1 & H2 & H3).
    exists "id", "lower", value. rewrite !elem_of_cons. auto. }
  rewrite Hc. exists field_type, field_id.
  split; [reflexivity |]. split; [reflexivity |].
  destruct (should_redact (str_upper field_type) (str_lower field_id)) eqn:Es;
    destruct (bool_decide (is_Some (field !! "value"))) eqn:Ev; simpl.
  - apply bool_decide_eq_true in Ev.
    split; [now apply dom_insert_lookup_L |].
    split; [intros k Hk; now rewrite lookup_insert_ne |].
    split; [left; apply lookup_insert_eq |].
    split; [intros _ _; apply lookup_insert_eq |].
    split; [intros Hno; apply should_redact_spec in Es; contradiction |].
    split; [intros Hnone; rewrite Hnone in Ev; now destruct Ev |].
    pose proof (redact_field_cases (<["value" := PStr REDACTED]> field)) as Hc2.
    rewrite !get_str_insert_ne, Et, Ei in Hc2 by discriminate.
    rewrite Hc2, Es. simpl. rewrite insert_insert_eq. now destruct (bool_decide _).
  - apply bool_decide_eq_false in Ev.
    split; [reflexivity |]. split; [reflexivity |]. split; [now right |].
    split; [intros _ Hv; contradiction |]. split; [reflexivity |].
    split; [reflexivity |].
    exact Hc.
  - split; [reflexivity |]. split; [reflexivity |]. split; [now right |].
    split; [intros Hs; apply should_redact_spec in Hs; congruence |].
    split; [reflexivity |]. split; [reflexivity |].
    exact Hc.
  - split; [reflexivity |]. split; [reflexivity |]. split; [now right |].
    split; [intros Hs; apply should_redact_spec in Hs; congruence |].
    split; [reflexivity |]. split; [reflexivity |].
    exact Hc.
Qed.

(** X20.  The value of a sensitive field has no part in what [redact_field]
    returns: two fields that differ in their value only, and are sensitive by
    their type or by their identifier, are redacted to the same field, in
    which the mark stands for the value. *)
Theorem redacted_value_is_not_revealed field field_type field_id v1 v2 :
  get_str field "field_type" "upper" = inr field_type ->
  get_str field "id" "lower" = inr field_id ->
  str_upper field_type ∈ SENSITIVE_FIELD_TYPES \/
  (exists s before after,
     s ∈ SENSITIVE_FIELD_IDS /\ str_lower field_id = before +:+ s +:+ after) ->
  redact_field (<["value" := v1]> field) = redact_field (<["value" := v2]> field) /\
  redact_field (<["value" := v1]> field)
    = inr (<["value" := PStr "[REDACTED]"]> field).
Proof.
  intros Ht Hi Hs. apply should_redact_spec in Hs.
  assert (Hred : forall v, redact_field (<["value" := v]> field)
                           = inr (<["value" := PStr "[REDACTED]"]> field)).
  { intros v. pose proof (redact_field_cases (<["value" := v]> field)) as Hc.
    rewrite !get_str_insert_ne, Ht, Hi in Hc by discriminate.
    rewrite Hc, Hs, lookup_insert_eq. simpl. now rewrite insert_insert_eq. }
  split; [now rewrite !Hred | apply Hred].
Qed.
End Redaction.

(** ** The scripted strings obey the assumptions *)

#[global] Instance script_pystr_laws : PyStrLaws.
Proof.
  split.
  - reflexivity.
  - reflexivity.
  - intros [| c s] Hs; [congruence | discriminate].
Qed.

Lemma blank_allowlist_allows_nothing_witness :
  is_allowed (VaultFilter_init (Some "AI, Dev") ∅).1 "" = false /\
  forall name,
    is_allowed (VaultFilter_init None {[ "OP_ALLOWED_VAULTS" := "" ]}).1 name = false.
Proof.
  destruct (blank_allowlist_allows_nothing (Some "AI, Dev") ∅) as (Hnameless & _).
  destruct (blank_allowlist_allows_nothing None {[ "OP_ALLOWED_VAULTS" := "" ]})
    as (_ & _ & Hblank).
  split; [exact Hnameless |]. apply Hblank; reflexivity.
Defined.

Lemma redacted_value_is_not_revealed_witness :
  redact_field (<["value" := PStr "sk-123456"]>
                  {[ "id" := PStr "api_SECRET_key"; "field_type" := PStr "TEXT" ]})
  = inr (<["value" := PStr "[REDACTED]"]>
           {[ "id" := PStr "api_SECRET_key"; "field_type" := PStr "TEXT" ]}).
Proof.
  assert (Hs : str_upper "TEXT" ∈ SENSITIVE_FIELD_TYPES \/
               exists s before after,
                 s ∈ SENSITIVE_FIELD_IDS /\
                 str_lower "api_SECRET_key" = before +:+ s +:+ after).
  { right. exists "secret", "api_", "_key". split; [| reflexivity].
    unfold SENSITIVE_FIELD_IDS. rewrite !elem_of_cons. auto. }
  assert (Ht : get_str {[ "id" := PStr "api_SECRET_key"; "field_type" := PStr "TEXT" ]}
                 "field_type" "upper" = inr "TEXT") by (vm_compute; reflexivity).
  assert (Hi : get_str {[ "id" := PStr "api_SECRET_key"; "field_type" := PStr "TEXT" ]}
                 "id" "lower" = inr "api_SECRET_key") by (vm_compute; reflexivity).
  destruct (redacted_value_is_not_revealed
              {[ "id" := PStr "api_SECRET_key"; "field_type" := PStr "TEXT" ]}
              "TEXT" "api_SECRET_key" (PStr "sk-123456") (PStr "other")
              Ht Hi Hs) as [_ Hred].
  exact Hred.
Defined.

(** ** The 1Password client *)

Section OpRuns.
Context {W : Type} {sdk : OnePasswordSDK W} {pystr : PyStr}.

Lemma op_bind_run {A B} (m : Op W A) (f : A -> Op W B) self (w : W) :
  (m ≫= f) self w =
  match m self w with
  | (inr a, self1, w1, t1) =>
      let '(r, self2, w2, t2) := f a self1 w1 in (r, self2, w2, t1 ++ t2)
  | (inl e, self1, w1, t1) => (inl e, self1, w1, t1)
  end.
Proof. reflexivity. Qed.

(** [_get_client] written out. *)
Lemma _get_client_cases self (w : W) :
  match _client self with
  | Some _ => _get_client self w = (inr tt, self, w, [])
  | None =>
      match Client_authenticate (_token self) w with
      | (Some e, w') =>
          _get_client self w =
            (inl (OnePasswordClientError ("Failed to authenticate: " +:+ e)), self, w',
             [OpAuthenticate (_token self) (Some e)])
      | (None, w') =>
          _get_client self w =
            (inr tt, set_client (Some Authenticated) self, w',
             [OpAuthenticate (_token self) None;
              OpEvent (EvLog LogInfo "1Password client authenticated successfully")])
      end
  end.
Proof.
  unfold _get_client. rewrite op_bind_run. unfold op_self.
  destruct (_client self) as [c |]; [reflexivity |].
  rewrite op_bind_run. unfold authenticate.
  destruct (Client_authenticate (_token self) w) as [[e |] w']; reflexivity.
Qed.

(** What every run of [_get_client] keeps and shows. *)
Lemma _get_client_run self (w : W) r self' w' tr :
  _get_client self w = (r, self', w', tr) ->
  _vault_filter self' = _vault_filter self /\
  _vault_cache self' = _vault_cache self /\
  _token self' = _token self /\
  resolved tr = [] /\ item_calls tr = [] /\
  match r with
  | inr _ => _client self' = Some Authenticated
  | inl e => exists msg, e = OnePasswordClientError ("Failed to authenticate: " +:+ msg) /\
                         self' = self
  end.
Proof.
  intros H. pose proof (_get_client_cases self w) as Hc.
  destruct (_client self) as [[] |] eqn:Ec.
  - rewrite Hc in H. injection H as <- <- <- <-. repeat split. exact Ec.
  - destruct (Client_authenticate (_token self) w) as [[e |] w1];
      rewrite Hc in H; injection H as <- <- <- <-; repeat split; eauto.
Qed.
End OpRuns.

(** ** Splitting a reference *)

Lemma str_split_cons sep c s :
  str_split sep (String c s) =
  if decide (c = sep) then "" :: str_split sep s
  else match str_split sep s with
       | [] => [String c ""]
       | part :: parts => String c part :: parts
       end.
Proof. reflexivity. Qed.

Lemma str_in_char_cons sep c s :
  str_in (String sep "") (String c s) =
  bool_decide (sep = c) || str_in (String sep "") s.
Proof.
  change (str_in (String sep "") (String c s))
    with ((if Ascii.ascii_dec sep c then String.prefix "" s else false)
          || str_in (String sep "") s).
  destruct (Ascii.ascii_dec sep c) as [-> | Hne].
  - rewrite bool_decide_eq_true_2 by reflexivity. now destruct s.
  - now rewrite bool_decide_eq_false_2.
Qed.

(** The first part of a split has no separator in it; when it is the only
    part it is the whole text, and otherwise the text is that part, the
    separator and a rest that splits into the other parts. *)
Lemma str_split_head sep s :
  exists part parts,
    str_split sep s = part :: parts /\
    str_in (String sep "") part = false /\
    match parts with
    | [] => s = part
    | _ :: _ => exists rest, s = part +:+ String sep rest /\ str_split sep rest = parts
    end.
Proof.
  induction s as [| c s IH].
  - exists "", []. repeat split.
  - rewrite str_split_cons. case_decide as Hc.
    + subst c. exists "", (str_split sep s). split; [reflexivity |].
      split; [reflexivity |].
      destruct (str_split sep s) eqn:E; [now apply str_split_nonempty in E |].
      exists s. split; [reflexivity | exact E].
    + destruct IH as (part & parts & -> & Hfree & Hrest).
      exists (String c part), parts. split; [reflexivity |].
      split.
      * rewrite str_in_char_cons, Hfree, bool_decide_eq_false_2 by congruence.
        reflexivity.
      * destruct parts as [| p ps]; [now subst |].
        destruct Hrest as (rest & -> & Hsplit). exists rest. now split.
Qed.

Lemma str_split_app sep part rest :
  str_in (String sep "") part = false ->
  str_split sep (part +:+ String sep rest) = part :: str_split sep rest.
Proof.
  induction part as [| c part IH]; intros Hfree.
  - simpl. now rewrite decide_True.
  - rewrite str_in_char_cons in Hfree. apply orb_false_iff in Hfree as [Hc Hfree].
    apply bool_decide_eq_false in Hc.
    change (String c part +:+ String sep rest) with (String c (part +:+ String sep rest)).
    rewrite str_split_cons, decide_False by congruence.
    now rewrite IH.
Qed.

(** Three parts or more: a vault, an item and the rest, with a separator
    after each of the first two. *)
Lemma str_split_three sep s :
  (3 <= length (str_split sep s)) <->
  exists vault item rest,
    s = vault +:+ String sep (item +:+ String sep rest) /\
    str_in (String sep "") vault = false /\ str_in (String sep "") item = false.
Proof.
  split.
  - intros Hlen.
    destruct (str_split_head sep s) as (vault & parts & Hs & Hv & Hrest).
    rewrite Hs in Hlen. destruct parts as [| p ps]; [simpl in Hlen; lia |].
    destruct Hrest as (rest1 & -> & Hsplit1).
    destruct (str_split_head sep rest1) as (item & parts2 & Hs2 & Hi & Hrest2).
    rewrite Hsplit1 in Hs2. injection Hs2 as -> ->.
    destruct parts2 as [| p2 ps2]; [simpl in Hlen; lia |].
    destruct Hrest2 as (rest & -> & _). eauto 10.
  - intros (vault & item & rest & -> & Hv & Hi).
    rewrite !str_split_app by assumption.
    pose proof (str_split_nonempty sep rest).
    destruct (str_split sep rest); [congruence | simpl; lia].
Qed.

Lemma str_split_three_head sep vault item rest :
  str_in (String sep "") vault = false ->
  head (str_split sep (vault +:+ String sep (item +:+ String sep rest))) = Some vault.
Proof. intros Hv. now rewrite str_split_app. Qed.

Lemma str_from_app rest : str_from 5 ("op://" +:+ rest) = rest.
Proof. reflexivity. Qed.

(** ** Resolving a secret *)

Section Resolve.
Context {W : Type} {sdk : OnePasswordSDK W} {pystr : PyStr}.

Lemma resolve_secret_cases secret_reference self (w : W) :
  (str_startswith secret_reference "op://" = false /\
   resolve_secret secret_reference self w =
     (inl (OnePasswordClientError "Secret reference must start with 'op://'"),
      self, w, [])) \/
  (str_startswith secret_reference "op://" = true /\
   (forall vault, ~ wellformed secret_reference vault) /\
   resolve_secret secret_reference self w =
     (inl (OnePasswordClientError
             "Invalid secret reference format. Use: op://vault/item/field"),
      self, w, [])) \/
  (exists vault,
     wellformed secret_reference vault /\
     if is_allowed (_vault_filter self) vault then
       match _get_client self w with
       | (inl e, self1, w1, t1) =>
           resolve_secret secret_reference self w = (inl e, self1, w1, t1)
       | (inr _, self1, w1, t1) =>
           match secrets_resolve secret_reference w1 with
           | (inl e, w2) =>
               resolve_secret secret_reference self w =
                 (inl (OnePasswordClientError ("Failed to resolve secret: " +:+ e)),
                  self1, w2, t1 ++ [OpSecretsResolve secret_reference (inl e)])
           | (inr secret, w2) =>
               resolve_secret secret_reference self w =
                 (inr secret, self1, w2,
                  t1 ++ [OpSecretsResolve secret_reference (inr secret)])
           end
       end
     else
       resolve_secret secret_reference self w =
         (inl (OnePasswordClientError
                 ("Vault '" +:+ vault +:+ "' is not in the allowed vaults list")),
          self, w, [])).
Proof.
  unfold resolve_secret.
  destruct (str_startswith secret_reference "op://") eqn:Ep;
    [| left; now split].
  right. apply prefix_spec in Ep as [body ->]. cbn [negb].
  change (str_from 5 ("op://" +:+ body)) with body. cbv zeta.
  destruct (length (str_split slash body) <? 3)%nat eqn:El.
  - left. split; [reflexivity |]. split; [| reflexivity].
    intros vault (item & rest & Heq & Hv & Hi).
    apply Nat.ltb_lt in El.
    assert (3 <= length (str_split slash body)); [| lia].
    apply str_split_three. exists vault, item, rest.
    split; [| now split].
    apply (inj (String.app "op://")). exact Heq.
  - right. apply Nat.ltb_ge in El.
    apply str_split_three in El as (vault & item & rest & -> & Hv & Hi).
    exists vault. split; [exists item, rest; now repeat split |].
    rewrite str_split_three_head by exact Hv. simpl.
    rewrite op_bind_run. unfold op_self.
    destruct (is_allowed (_vault_filter self) vault); simpl; [| reflexivity].
    rewrite op_bind_run.
    destruct (_get_client self w) as [[[[e | []] self1] w1] t1]; [reflexivity |].
    rewrite op_bind_run. unfold resolve.
    destruct (secrets_resolve _ w1) as [[e | secret] w2]; reflexivity.
Qed.

Lemma wellformed_vault secret_reference vault vault' :
  wellformed secret_reference vault -> wellformed secret_reference vault' ->
  vault = vault'.
Proof.
  intros (item & rest & -> & Hv & _) (item' & rest' & Heq & Hv' & _).
  apply (inj (String.app "op://")) in Heq.
  pose proof (str_split_three_head slash vault item rest Hv) as H1.
  pose proof (str_split_three_head slash vault' item' rest' Hv') as H2.
  change (vault +:+ "/" +:+ item +:+ "/" +:+ rest)
    with (vault +:+ String slash (item +:+ String slash rest)) in Heq.
  change (vault' +:+ "/" +:+ item' +:+ "/" +:+ rest')
    with (vault' +:+ String slash (item' +:+ String slash rest')) in Heq.
  rewrite Heq in H1. congruence.
Qed.
End Resolve.

Lemma resolved_app t1 t2 : resolved (t1 ++ t2) = resolved t1 ++ resolved t2.
Proof. apply omap_app. Qed.

Lemma item_calls_app t1 t2 : item_calls (t1 ++ t2) = item_calls t1 ++ item_calls t2.
Proof. apply omap_app. Qed.

Section ResolveTheorems.
Context {W : Type} {sdk : OnePasswordSDK W} {pystr : PyStr}.

(** The reference the SDK is asked for, in a run of [resolve_secret]. *)
Lemma resolve_secret_run secret_reference self (w : W) r self' w' tr :
  resolve_secret secret_reference self w = (r, self', w', tr) ->
  (forall reference, reference ∈ resolved tr ->
     reference = secret_reference /\ resolved tr = [secret_reference] /\
     _client self' = Some Authenticated /\
     exists vault, wellformed secret_reference vault /\
                   is_allowed (_vault_filter self) vault = true) /\
  _vault_filter self' = _vault_filter self.
Proof.
  intros H.
  destruct (resolve_secret_cases secret_reference self w)
    as [[Hp Hc] | [(Hp & Hill & Hc) | (vault & Hwf & Hc)]].
  - rewrite Hc in H. injection H as <- <- <- <-.
    split; [intros reference Hin; inversion Hin | reflexivity].
  - rewrite Hc in H. injection H as <- <- <- <-.
    split; [intros reference Hin; inversion Hin | reflexivity].
  - destruct (is_allowed (_vault_filter self) vault) eqn:Ea.
    + destruct (_get_client self w) as [[[[e | []] self1] w1] t1] eqn:Eg.
      * rewrite Hc in H. injection H as <- <- <- <-.
        apply _get_client_run in Eg as (Hf & _ & _ & Hres & _).
        split; [intros reference Hin; rewrite Hres in Hin; inversion Hin | exact Hf].
      * apply _get_client_run in Eg as (Hf & _ & _ & Hres & _ & Hauth).
        assert (Hone : forall ans,
                  resolved (t1 ++ [OpSecretsResolve secret_reference ans])
                  = [secret_reference]).
        { intros ans. now rewrite resolved_app, Hres. }
        destruct (secrets_resolve secret_reference w1) as [[e | secret] w2];
          rewrite Hc in H; injection H as <- <- <- <-;
          (split; [| exact Hf]); intros reference Hin; rewrite Hone in Hin;
          apply list_elem_of_singleton in Hin; subst reference;
          rewrite Hone; eauto 10.
    + rewrite Hc in H. injection H as <- <- <- <-.
      split; [intros reference Hin; inversion Hin | reflexivity].
Qed.

(** X21.  [resolve_secret] asks the SDK for nothing before the reference has
    passed its checks.  A reference that does not read [op://], a vault, a
    slash, an item, a slash and a rest, or whose vault is not allowed, is
    refused with an [OnePasswordClientError], with no event at all and the
    client and the world untouched; a refused vault is named in the text.
    Whatever reference the SDK is asked to resolve is the given one, asked
    once, well formed, with an allowed vault, and the client is then
    authenticated.  Every failure, those of the SDK included, reaches the
    caller as an [OnePasswordClientError], and a secret that is returned is
    the answer of the SDK to that reference. *)
Theorem secret_reference_is_checked_first secret_reference self (w : W)
    r self' w' tr :
  resolve_secret secret_reference self w = (r, self', w', tr) ->
  ((forall vault, wellformed secret_reference vault ->
                  is_allowed (_vault_filter self) vault = false) ->
   (exists msg, r = inl (OnePasswordClientError msg)) /\
   tr = [] /\ self' = self /\ w' = w) /\
  (forall vault, wellformed secret_reference vault ->
                 is_allowed (_vault_filter self) vault = false ->
     r = inl (OnePasswordClientError
                ("Vault '" +:+ vault +:+ "' is not in the allowed vaults list"))) /\
  (forall reference, reference ∈ resolved tr ->
     reference = secret_reference /\ resolved tr = [secret_reference] /\
     _client self' = Some Authenticated /\
     exists vault, wellformed secret_reference vault /\
                   is_allowed (_vault_filter self) vault = true) /\
  (forall e, r = inl e -> exists msg, e = OnePasswordClientError msg) /\
  (forall secret, r = inr secret ->
     OpSecretsResolve secret_reference (inr secret) ∈ tr) /\
  _vault_filter self' = _vault_filter self.
Proof.
  intros H.
  destruct (resolve_secret_cases secret_reference self w)
    as [[Hp Hc] | [(Hp & Hill & Hc) | (vault & Hwf & Hc)]].
  - rewrite Hc in H. injection H as <- <- <- <-.
    split; [intros _; eauto |].
    split.
    { intros vault (item & rest & Heq & _) _.
      assert (Hpre : str_startswith secret_reference "op://" = true)
        by (apply prefix_spec; eauto).
      congruence. }
    split; [intros reference Hin; inversion Hin |].
    split; [intros e [= <-]; eauto |]. split; [discriminate | reflexivity].
  - rewrite Hc in H. injection H as <- <- <- <-.
    split; [intros _; eauto |].
    split; [intros vault Hwf; now apply Hill in Hwf |].
    split; [intros reference Hin; inversion Hin |].
    split; [intros e [= <-]; eauto |]. split; [discriminate | reflexivity].
  - destruct (is_allowed (_vault_filter self) vault) eqn:Ea.
    + destruct (_get_client self w) as [[[[e | []] self1] w1] t1] eqn:Eg.
      * rewrite Hc in H. injection H as <- <- <- <-.
        apply _get_client_run in Eg as (Hf & _ & _ & Hres & _ & msg & -> & _).
        split; [intros Hno; rewrite (Hno vault Hwf) in Ea; discriminate |].
        split; [intros v Hv Hno; rewrite (wellformed_vault _ _ _ Hv Hwf) in Hno;
                congruence |].
        split; [intros reference Hin; rewrite Hres in Hin; inversion Hin |].
        split; [intros e [= <-]; eauto |]. split; [discriminate | exact Hf].
      * apply _get_client_run in Eg as (Hf & _ & _ & Hres & _ & Hauth).
        assert (Hone : forall ans,
                  resolved (t1 ++ [OpSecretsResolve secret_reference ans])
                  = [secret_reference]).
        { intros ans. now rewrite resolved_app, Hres. }
        destruct (secrets_resolve secret_reference w1) as [[e | secret] w2];
          rewrite Hc in H; injection H as <- <- <- <-;
          (split; [intros Hno; rewrite (Hno vault Hwf) in Ea; discriminate |]);
          (split; [intros v Hv Hno; rewrite (wellformed_vault _ _ _ Hv Hwf) in Hno;
                   congruence |]);
          (split; [intros reference Hin; rewrite Hone in Hin;
                   apply list_elem_of_singleton in Hin; subst reference;
                   rewrite Hone; eauto 10 |]).
        -- split; [intros e' [= <-]; eauto |]. split; [discriminate | exact Hf].
        -- split; [discriminate |]. split; [| exact Hf].
           intros secret' [= <-]. rewrite elem_of_app, list_elem_of_singleton. auto.
    + rewrite Hc in H. injection H as <- <- <- <-.
      split; [intros _; eauto |].
      split; [intros v Hv _; now rewrite (wellformed_vault _ _ _ Hv Hwf) |].
      split; [intros reference Hin; inversion Hin |].
      split; [intros e [= <-]; eauto |]. split; [discriminate | reflexivity].
Qed.
End ResolveTheorems.

Lemma secret_reference_is_checked_first_witness :
  exists self' w' tr,
    resolve_secret "op://Personal/GitHub/password" (ScriptVault.client "AI")
      (ScriptVault.start 0)
    = (inl (OnePasswordClientError "Vault 'Personal' is not in the allowed vaults list"),
       self', w', tr) /\
    resolved tr = [].
Proof.
  destruct (resolve_secret "op://Personal/GitHub/password" (ScriptVault.client "AI")
              (ScriptVault.start 0)) as [[[r self'] w'] tr] eqn:E.
  destruct (secret_reference_is_checked_first _ _ _ _ _ _ _ E)
    as (Hrefused & Hname & _).
  assert (Hwf : wellformed "op://Personal/GitHub/password" "Personal").
  { exists "GitHub", "password". repeat split. }
  assert (Hno : forall vault, wellformed "op://Personal/GitHub/password" vault ->
                  is_allowed (_vault_filter (ScriptVault.client "AI")) vault = false).
  { intros vault Hv. rewrite (wellformed_vault _ _ _ Hv Hwf). vm_compute. reflexivity. }
  destruct (Hrefused Hno) as (_ & -> & _ & _).
  rewrite (Hname "Personal" Hwf (Hno _ Hwf)).
  exists self', w', []. split; reflexivity.
Defined.

(** ** The guard on vaults *)

(** Runs the plumbing of a method of the client, up to the next call of
    another method or of the SDK. *)
Ltac op_unfold :=
  cbv beta iota zeta delta
    [mbind op_bind mret op_ret mthrow op_throw op_self op_update op_log
     list_all_vaults list_all_items get_one_item resolve authenticate].

Ltac op_unfold_in H :=
  cbv beta iota zeta delta
    [mbind op_bind mret op_ret mthrow op_throw op_self op_update op_log
     list_all_vaults list_all_items get_one_item resolve authenticate] in H.

Section Guard.
Context {W : Type} {sdk : OnePasswordSDK W} {pystr : PyStr}.

Lemma _refresh_vault_cache_run self (w : W) r self' w' tr :
  _refresh_vault_cache self w = (r, self', w', tr) ->
  _vault_filter self' = _vault_filter self /\
  resolved tr = [] /\ item_calls tr = [] /\
  match r with
  | inr _ => _client self' = Some Authenticated
  | inl e => early_failure e tr
  end.
Proof.
  unfold _refresh_vault_cache. op_unfold.
  destruct (_get_client self w) as [[[[e | []] self1] w1] t1] eqn:Eg.
  - intros [= <- <- <- <-].
    apply _get_client_run in Eg as (Hf & _ & _ & Hr & Hi & msg & -> & _).
    repeat split; auto. left. eauto.
  - apply _get_client_run in Eg as (Hf & _ & _ & Hr & Hi & Hauth).
    destruct (vaults_list_all w1) as [[listing [msg |]] w2]; op_unfold;
      intros [= <- <- <- <-]; simpl;
      rewrite resolved_app, item_calls_app, Hr, Hi; simpl;
      (split; [exact Hf |]); (split; [reflexivity |]); (split; [reflexivity |]).
    + right. exists msg, listing, t1. split; reflexivity.
    + exact Hauth.
Qed.

Lemma _is_vault_allowed_run vault_id self (w : W) r self' w' tr :
  _is_vault_allowed vault_id self w = (r, self', w', tr) ->
  _vault_filter self' = _vault_filter self /\
  resolved tr = [] /\ item_calls tr = [] /\
  match r with
  | inr allowed =>
      allowed = is_allowed (_vault_filter self)
                  (default "" (_vault_cache self' !! vault_id))
  | inl e => early_failure e tr
  end.
Proof.
  unfold _is_vault_allowed. op_unfold.
  destruct (bool_decide (is_Some (_vault_cache self !! vault_id))).
  - intros [= <- <- <- <-]. repeat split.
  - destruct (_refresh_vault_cache self w) as [[[[e | []] self1] w1] t1] eqn:Er;
      apply _refresh_vault_cache_run in Er as (Hf & Hr & Hi & Hrest).
    + intros [= <- <- <- <-]. repeat split; auto.
    + intros [= <- <- <- <-]. rewrite app_nil_r, Hf. repeat split; auto.
Qed.
End Guard.

Section GuardLemmas.
Context {W : Type} {sdk : OnePasswordSDK W} {pystr : PyStr}.

(** A vault the check lets through is named in the cache, when the vault
    without a name is not allowed. *)
Lemma allowed_is_cached vault_filter (cache : gmap string string) vault_id :
  is_allowed vault_filter "" = false ->
  is_allowed vault_filter (default "" (cache !! vault_id)) = true ->
  exists vault_name,
    cache !! vault_id = Some vault_name /\ is_allowed vault_filter vault_name = true.
Proof.
  intros Hno Hok.
  destruct (cache !! vault_id) as [vault_name |]; [eauto |].
  simpl in Hok. congruence.
Qed.

(** A run that ends before anything was asked about items or secrets. *)
Lemma guarded_early {A} vault_id self (e : op_exn) self' (w' : W) tr :
  _vault_filter self' = _vault_filter self ->
  resolved tr = [] -> item_calls tr = [] ->
  (exists msg, e = OnePasswordClientError msg) \/ early_failure e tr ->
  guarded (A := A) vault_id self (inl e, self', w', tr).
Proof.
  intros Hf Hr Hi He. unfold guarded.
  split; [exact Hf |]. split; [discriminate |].
  split; [intros [H | H]; congruence |].
  split; [rewrite Hi; inversion 1 |]. now intros e' [= <-].
Qed.

Lemma early_failure_app e t1 t2 :
  early_failure e t2 -> early_failure e (t1 ++ t2).
Proof.
  intros [H | (msg & listing & before & -> & ->)]; [now left | right].
  exists msg, listing, (t1 ++ before). now rewrite app_assoc.
Qed.

Lemma list_items_guarded vault_id category self (w : W) r self' w' tr :
  is_allowed (_vault_filter self) "" = false ->
  list_items vault_id category self w = (r, self', w', tr) ->
  guarded vault_id self (r, self', w', tr) /\ resolved tr = [].
Proof.
  intros Hno. unfold list_items. op_unfold.
  destruct (_is_vault_allowed vault_id self w) as [[[[e | allowed] self1] w1] t1] eqn:Ea;
    apply _is_vault_allowed_run in Ea as (Hf & Hr & Hi & Ha).
  { intros [= <- <- <- <-]. split; [| exact Hr]. apply guarded_early; auto. }
  destruct allowed; cbn [negb]; op_unfold.
  2: { unfold refuse_vault. op_unfold. intros [= <- <- <- <-].
       rewrite app_nil_r. split; [| exact Hr]. apply guarded_early; eauto. }
  symmetry in Ha. rewrite <- Hf in Hno.
  destruct (_get_client self1 w1) as [[[[e | []] self2] w2] t2] eqn:Eg;
    apply _get_client_run in Eg as (Hf2 & Hc2 & _ & Hr2 & Hi2 & Hrest).
  { destruct Hrest as (msg & -> & ->). intros [= <- <- <- <-].
    split; [| now rewrite resolved_app, Hr, Hr2].
    apply guarded_early; eauto.
    - now rewrite resolved_app, Hr, Hr2.
    - now rewrite item_calls_app, Hi, Hi2. }
  assert (Hknown : exists vault_name,
             _vault_cache self2 !! vault_id = Some vault_name /\
             is_allowed (_vault_filter self) vault_name = true).
  { rewrite Hc2, <- Hf. apply allowed_is_cached; [exact Hno |].
    now rewrite Hf. }
  destruct (items_list_all vault_id w2) as [[listing [msg |]] w3]; op_unfold;
    intros [= <- <- <- <-];
    (split; [| now rewrite !resolved_app, Hr, Hr2]); unfold guarded;
    (split; [congruence |]); (split; [intros a _; exact Hknown |]);
    (split; [intros _; exact Hknown |]);
    (split; [rewrite !item_calls_app, Hi, Hi2; simpl;
             intros v Hv; apply list_elem_of_singleton in Hv; exact Hv |]).
  - intros e' [= <-]. left. eauto.
  - discriminate.
Qed.
End GuardLemmas.

Section ItemLemmas.
Context {W : Type} {sdk : OnePasswordSDK W} {pystr : PyStr}.

(** The field as [get_item] shows it. *)
Lemma redact_field_dict field :
  redact_field (field_dict field) =
  inr (if should_redact (str_upper (default "TEXT" (Field_type field)))
            (str_lower (Field_id field))
       then <["value" := PStr REDACTED]> (field_dict field)
       else field_dict field).
Proof.
  pose proof (redact_field_cases (field_dict field)) as Hc.
  assert (Ht : get_str (field_dict field) "field_type" "upper"
               = inr (default "TEXT" (Field_type field))) by reflexivity.
  assert (Hi : get_str (field_dict field) "id" "lower" = inr (Field_id field))
    by reflexivity.
  rewrite Ht, Hi in Hc. rewrite Hc.
  assert (Hv : bool_decide (is_Some (field_dict field !! "value")) = true)
    by (apply bool_decide_eq_true; eexists; reflexivity).
  now rewrite Hv, andb_true_r.
Qed.

Lemma redact_fields_spec fields :
  redact_fields fields =
  inr ((fun field =>
          if should_redact (str_upper (default "TEXT" (Field_type field)))
               (str_lower (Field_id field))
          then <["value" := PStr REDACTED]> (field_dict field)
          else field_dict field) <$> fields).
Proof.
  induction fields as [| field rest IH]; [reflexivity |].
  cbn [redact_fields]. now rewrite redact_field_dict, IH.
Qed.

Lemma get_item_guarded vault_id item_id self (w : W) r self' w' tr :
  get_item vault_id item_id self w = (r, self', w', tr) ->
  (is_allowed (_vault_filter self) "" = false ->
   guarded vault_id self (r, self', w', tr)) /\
  resolved tr = [] /\
  forall d, r = inr d ->
    exists item fields,
      OpItemsGet vault_id item_id (inr item) ∈ tr /\
      redact_fields (default [] (Item_fields item)) = inr fields /\
      d = {| dict_id := Item_id item; dict_title := Item_title item;
             dict_category := Item_category item; dict_vault_id := vault_id;
             dict_fields := fields; dict_tags := default [] (Item_tags item);
             dict_urls := (fun url => (Url_href url, Url_primary url))
                          <$> default [] (Item_urls item) |}.
Proof.
  unfold get_item. op_unfold.
  destruct (_is_vault_allowed vault_id self w) as [[[[e | allowed] self1] w1] t1] eqn:Ea;
    apply _is_vault_allowed_run in Ea as (Hf & Hr & Hi & Ha).
  { intros [= <- <- <- <-]. split; [| split; [exact Hr | discriminate]].
    intros _. apply guarded_early; auto. }
  destruct allowed; cbn [negb]; op_unfold.
  2: { unfold refuse_vault. op_unfold. intros [= <- <- <- <-].
       rewrite app_nil_r. split; [| split; [exact Hr | discriminate]].
       intros _. apply guarded_early; eauto. }
  symmetry in Ha.
  destruct (_get_client self1 w1) as [[[[e | []] self2] w2] t2] eqn:Eg;
    apply _get_client_run in Eg as (Hf2 & Hc2 & _ & Hr2 & Hi2 & Hrest).
  { destruct Hrest as (msg & -> & ->). intros [= <- <- <- <-].
    split; [| split; [now rewrite resolved_app, Hr, Hr2 | discriminate]].
    intros _. apply guarded_early; eauto.
    - now rewrite resolved_app, Hr, Hr2.
    - now rewrite item_calls_app, Hi, Hi2. }
  assert (Hguard : forall (r0 : op_exn + ItemDict) ans (w3 : W),
             (forall e, r0 = inl e -> exists msg, e = OnePasswordClientError msg) ->
             is_allowed (_vault_filter self) "" = false ->
             guarded vault_id self
               (r0, self2, w3, t1 ++ t2 ++ [OpItemsGet vault_id item_id ans] ++ [])).
  { intros r0 ans w3 Herr Hno.
    assert (Hknown : exists vault_name,
               _vault_cache self2 !! vault_id = Some vault_name /\
               is_allowed (_vault_filter self) vault_name = true).
    { rewrite Hc2. now apply allowed_is_cached. }
    unfold guarded.
    split; [congruence |]. split; [intros a _; exact Hknown |].
    split; [intros _; exact Hknown |].
    split; [rewrite !item_calls_app, Hi, Hi2; simpl;
            intros v Hv; apply list_elem_of_singleton in Hv; exact Hv |].
    intros e He. left. eauto. }
  assert (Hres : forall ans,
             resolved (t1 ++ t2 ++ [OpItemsGet vault_id item_id ans] ++ []) = []).
  { intros ans. now rewrite !resolved_app, Hr, Hr2. }
  destruct (items_get vault_id item_id w2) as [[msg | item] w3]; op_unfold.
  - intros [= <- <- <- <-].
    split; [apply Hguard; intros e [= <-]; eauto |].
    split; [apply Hres | discriminate].
  - rewrite redact_fields_spec. op_unfold. intros [= <- <- <- <-].
    split; [apply Hguard; discriminate |]. split; [apply Hres |].
    intros d [= <-]. eexists item, _.
    split; [rewrite !elem_of_app, list_elem_of_singleton; auto |].
    split; [apply redact_fields_spec | reflexivity].
Qed.

Lemma get_otp_guarded vault_id item_id field_id self (w : W) r self' w' tr :
  is_allowed (_vault_filter self) "" = false ->
  get_otp vault_id item_id field_id self w = (r, self', w', tr) ->
  guarded vault_id self (r, self', w', tr) /\ item_calls tr = [] /\
  forall reference, reference ∈ resolved tr ->
    exists vault_name,
      _vault_cache self' !! vault_id = Some vault_name /\
      reference =
        "op://" +:+ vault_name +:+ "/" +:+ item_id +:+ "/"
        +:+ (if unset field_id then "one-time password" else default "" field_id)
        +:+ "?attribute=otp".
Proof.
  intros Hno. unfold get_otp. op_unfold.
  destruct (_is_vault_allowed vault_id self w) as [[[[e | allowed] self1] w1] t1] eqn:Ea;
    apply _is_vault_allowed_run in Ea as (Hf & Hr & Hi & Ha).
  { intros [= <- <- <- <-]. split; [| split; [exact Hi | rewrite Hr; inversion 1]].
    apply guarded_early; auto. }
  destruct allowed; cbn [negb]; op_unfold.
  2: { unfold refuse_vault. op_unfold. intros [= <- <- <- <-].
       rewrite app_nil_r. split; [| split; [exact Hi | rewrite Hr; inversion 1]].
       apply guarded_early; eauto. }
  symmetry in Ha. pose proof Hno as Hno1. rewrite <- Hf in Hno1.
  assert (Ha1 : is_allowed (_vault_filter self1)
                  (default "" (_vault_cache self1 !! vault_id)) = true)
    by now rewrite Hf.
  destruct (allowed_is_cached _ _ _ Hno1 Ha1) as (vault_name & Hcache & Hallowed).
  rewrite bool_decide_eq_true_2 by (rewrite Hcache; eauto).
  op_unfold. rewrite Hcache. op_unfold.
  destruct (_get_client self1 w1) as [[[[e | []] self2] w2] t2] eqn:Eg;
    apply _get_client_run in Eg as (Hf2 & Hc2 & _ & Hr2 & Hi2 & Hrest).
  { destruct Hrest as (msg & -> & ->). intros [= <- <- <- <-].
    split; [| split].
    - apply guarded_early; eauto;
        rewrite ?resolved_app, ?item_calls_app, ?Hr, ?Hr2, ?Hi, ?Hi2; reflexivity.
    - rewrite ?item_calls_app, ?Hi, ?Hi2. reflexivity.
    - rewrite ?resolved_app, ?Hr, ?Hr2. inversion 1. }
  assert (Hknown : exists vault_name,
             _vault_cache self2 !! vault_id = Some vault_name /\
             is_allowed (_vault_filter self) vault_name = true).
  { exists vault_name. rewrite Hc2, <- Hf. now split. }
  set (reference := "op://" +:+ vault_name +:+ "/" +:+ item_id +:+ "/"
        +:+ (if unset field_id then "one-time password" else default "" field_id)
        +:+ "?attribute=otp").
  destruct (secrets_resolve reference w2) as [[msg | otp] w3]; op_unfold;
    intros [= <- <- <- <-];
    (split; [| split; [now rewrite !item_calls_app, Hi, Hi2 |]]).
  - unfold guarded. split; [congruence |]. split; [discriminate |].
    split; [intros _; exact Hknown |].
    split; [rewrite !item_calls_app, Hi, Hi2; inversion 1 |].
    intros e [= <-]. left. eauto.
  - rewrite !resolved_app, Hr, Hr2. simpl.
    intros ref Href. apply list_elem_of_singleton in Href. subst ref.
    exists vault_name. split; [now rewrite Hc2 | reflexivity].
  - unfold guarded. split; [congruence |]. split; [intros a _; exact Hknown |].
    split; [intros _; exact Hknown |].
    split; [rewrite !item_calls_app, Hi, Hi2; inversion 1 |]. discriminate.
  - rewrite !resolved_app, Hr, Hr2. simpl.
    intros ref Href. apply list_elem_of_singleton in Href. subst ref.
    exists vault_name. split; [now rewrite Hc2 | reflexivity].
Qed.
End ItemLemmas.

Lemma cache_vaults_lookup listing (cache : gmap string string) vault_id vault_name :
  cache_vaults listing cache !! vault_id = Some vault_name ->
  cache !! vault_id = Some vault_name \/
  exists vault, vault ∈ listing /\ Vault_id vault = vault_id /\
                Vault_name vault = vault_name.
Proof.
  unfold cache_vaults. revert cache.
  induction listing as [| vault listing IH]; intros cache; simpl; [auto |].
  intros H. apply IH in H as [H | (v & Hin & Hid & Hname)].
  - destruct (decide (Vault_id vault = vault_id)) as [Heq | Hne].
    + rewrite Heq, lookup_insert_eq in H. injection H as <-.
      right. exists vault. rewrite elem_of_cons. auto.
    + rewrite lookup_insert_ne in H by exact Hne. now left.
  - right. exists v. rewrite elem_of_cons. auto.
Qed.

Section VaultTheorems.
Context {W : Type} {sdk : OnePasswordSDK W} {pystr : PyStr}.

(** X22.  For a client whose allowlist refuses the vault without a name, as
    every allowlist of [VaultFilter] does: in a call of [list_items],
    [get_item] or [get_otp] for a vault, the SDK is asked for items or for a
    secret only after the cache names that vault and the name is allowed, and
    an answer means the same.  Items are asked of that vault only;
    [list_items] and [get_item] resolve no secret; [get_otp] asks for no item,
    and the one reference it may resolve is [op://], the cached name of the
    vault, the item, the field, or [one-time password] when none is given, and
    [?attribute=otp].  The allowlist is never changed.  A failure is an
    [OnePasswordClientError], but for one case: what the listing of the vaults
    raises while the cache is filled is not wrapped. *)
Theorem vault_is_checked_before_use vault_id item_id category field_id self (w : W) :
  is_allowed (_vault_filter self) "" = false ->
  guarded vault_id self (list_items vault_id category self w) /\
  guarded vault_id self (get_item vault_id item_id self w) /\
  guarded vault_id self (get_otp vault_id item_id field_id self w) /\
  resolved (list_items vault_id category self w).2 = [] /\
  resolved (get_item vault_id item_id self w).2 = [] /\
  item_calls (get_otp vault_id item_id field_id self w).2 = [] /\
  (forall reference,
     reference ∈ resolved (get_otp vault_id item_id field_id self w).2 ->
     exists vault_name,
       _vault_cache (get_otp vault_id item_id field_id self w).1.1.2 !! vault_id
         = Some vault_name /\
       is_allowed (_vault_filter self) vault_name = true /\
       reference =
         "op://" +:+ vault_name +:+ "/" +:+ item_id +:+ "/"
         +:+ (if unset field_id then "one-time password" else default "" field_id)
         +:+ "?attribute=otp").
Proof.
  intros Hno.
  destruct (list_items vault_id category self w) as [[[r1 s1] w1] t1] eqn:E1.
  destruct (get_item vault_id item_id self w) as [[[r2 s2] w2] t2] eqn:E2.
  destruct (get_otp vault_id item_id field_id self w) as [[[r3 s3] w3] t3] eqn:E3.
  apply (list_items_guarded _ _ _ _ _ _ _ _ Hno) in E1 as [G1 R1].
  apply get_item_guarded in E2 as (G2 & R2 & _).
  apply (get_otp_guarded _ _ _ _ _ _ _ _ _ Hno) in E3 as (G3 & I3 & R3).
  cbn [fst snd].
  split; [exact G1 |]. split; [now apply G2 |]. split; [exact G3 |].
  split; [exact R1 |]. split; [exact R2 |]. split; [exact I3 |].
  intros reference Href. destruct (R3 _ Href) as (vault_name & Hcache & ->).
  exists vault_name. split; [exact Hcache |]. split; [| reflexivity].
  destruct G3 as (_ & _ & Hknown & _).
  destruct Hknown as (name' & Hc' & Hallowed).
  - right. intros Hnil. rewrite Hnil in Href. inversion Href.
  - congruence.
Qed.

(** X23.  What [get_item] answers is the item of the SDK, its fields in their
    order.  Each field is shown with its identifier, its title, the name of
    its type, [TEXT] when it has none, and under [value] the mark
    [[REDACTED]] when the field is sensitive by that type or by its
    identifier, and its value, the empty string when it has none, otherwise.
    The value of a sensitive field is in no part of the answer, and the title
    of a field plays no part in the decision. *)
Theorem item_shows_no_sensitive_value vault_id item_id self (w : W) d self' w' tr :
  get_item vault_id item_id self w = (inr d, self', w', tr) ->
  exists item,
    OpItemsGet vault_id item_id (inr item) ∈ tr /\
    dict_id d = Item_id item /\ dict_title d = Item_title item /\
    dict_category d = Item_category item /\ dict_vault_id d = vault_id /\
    dict_tags d = default [] (Item_tags item) /\
    dict_urls d = (fun url => (Url_href url, Url_primary url))
                  <$> default [] (Item_urls item) /\
    length (dict_fields d) = length (default [] (Item_fields item)) /\
    forall n field,
      default [] (Item_fields item) !! n = Some field ->
      exists shown,
        dict_fields d !! n = Some shown /\
        (forall k, is_Some (shown !! k) <->
                   k ∈ ["id"; "title"; "field_type"; "value"]) /\
        shown !! "id" = Some (PStr (Field_id field)) /\
        shown !! "title" = Some (PStr (Field_title field)) /\
        shown !! "field_type" = Some (PStr (default "TEXT" (Field_type field))) /\
        shown !! "value" =
          Some (PStr (if should_redact (str_upper (default "TEXT" (Field_type field)))
                           (str_lower (Field_id field))
                      then "[REDACTED]" else default "" (Field_value field))).
Proof.
  intros H. apply get_item_guarded in H as (_ & _ & Hd).
  destruct (Hd d eq_refl) as (item & fields & Hin & Hfields & ->).
  exists item. split; [exact Hin |]. simpl.
  repeat (split; [reflexivity |]).
  rewrite redact_fields_spec in Hfields. injection Hfields as <-.
  split; [apply length_fmap |].
  intros n field Hn. rewrite list_lookup_fmap, Hn. simpl.
  eexists. split; [reflexivity |].
  assert (Hkeys : forall (m : pydict) k,
            (forall j, j ∉ ["id"; "title"; "field_type"; "value"] -> m !! j = None) ->
            is_Some (m !! "id") -> is_Some (m !! "title") ->
            is_Some (m !! "field_type") -> is_Some (m !! "value") ->
            is_Some (m !! k) <-> k ∈ ["id"; "title"; "field_type"; "value"]).
  { intros m k Hout H1 H2 H3 H4. split.
    - intros Hk. destruct (decide (k ∈ ["id"; "title"; "field_type"; "value"]))
        as [Hin' | Hnot]; [exact Hin' |].
      rewrite (Hout k Hnot) in Hk. now destruct Hk.
    - rewrite !elem_of_cons. intros [-> | [-> | [-> | [-> | Hk]]]]; auto.
      inversion Hk. }
  assert (Hout : forall j, j ∉ ["id"; "title"; "field_type"; "value"] ->
                           field_dict field !! j = None).
  { intros j Hj. rewrite !not_elem_of_cons in Hj. destruct Hj as (? & ? & ? & ? & _).
    unfold field_dict.
    rewrite !lookup_insert_ne, lookup_singleton_ne by congruence. reflexivity. }
  destruct (should_redact _ _).
  - split; [| repeat split].
    intros k. apply Hkeys; try (eexists; reflexivity).
    intros j Hj. pose proof Hj as Hj'. rewrite !not_elem_of_cons in Hj'.
    destruct Hj' as (? & ? & ? & ? & _).
    rewrite lookup_insert_ne by congruence. now apply Hout.
  - split; [| repeat split].
    intros k. apply Hkeys; try (eexists; reflexivity). exact Hout.
Qed.

(** X24.  [list_vaults] answers with the allowed vaults of the listing of the
    SDK, in their order, each under its identifier and its name, and with no
    other; whatever it adds to the cache has an allowed name, also when the
    listing fails half way.  Its failures always are an
    [OnePasswordClientError]; it asks for no item and no secret. *)
Theorem listed_vaults_are_allowed self (w : W) r self' w' tr :
  list_vaults self w = (r, self', w', tr) ->
  _vault_filter self' = _vault_filter self /\
  resolved tr = [] /\ item_calls tr = [] /\
  (forall e, r = inl e -> exists msg, e = OnePasswordClientError msg) /\
  (forall out, r = inr out ->
     exists listing,
       OpVaultsListAll (listing, None) ∈ tr /\
       out = vault_dict <$>
             List.filter (fun vault => is_allowed (_vault_filter self) (Vault_name vault))
               listing) /\
  (forall out shown, r = inr out -> shown ∈ out ->
     exists vault_id vault_name,
       shown = <["id" := PStr vault_id]> {[ "name" := PStr vault_name ]} /\
       is_allowed (_vault_filter self) vault_name = true) /\
  (forall vault_id vault_name,
     _vault_cache self' !! vault_id = Some vault_name ->
     _vault_cache self !! vault_id = Some vault_name \/
     is_allowed (_vault_filter self) vault_name = true).
Proof.
  unfold list_vaults. op_unfold.
  destruct (_get_client self w) as [[[[e | []] self1] w1] t1] eqn:Eg;
    apply _get_client_run in Eg as (Hf & Hc & _ & Hr & Hi & Hrest).
  { destruct Hrest as (msg & -> & ->). intros [= <- <- <- <-].
    split; [reflexivity |]. split; [exact Hr |]. split; [exact Hi |].
    split; [intros e [= <-]; eauto |]. split; [discriminate |].
    split; [discriminate |]. auto. }
  destruct (vaults_list_all w1) as [[listing ans] w2]. op_unfold.
  assert (Hcache : forall vault_id vault_name,
            cache_vaults
              (List.filter (fun vault => is_allowed (_vault_filter self1) (Vault_name vault))
                 listing) (_vault_cache self1) !! vault_id = Some vault_name ->
            _vault_cache self !! vault_id = Some vault_name \/
            is_allowed (_vault_filter self) vault_name = true).
  { intros vault_id vault_name Hl.
    apply cache_vaults_lookup in Hl as [Hl | (vault & Hin & <- & <-)].
    - left. congruence.
    - right. apply list_elem_of_In, filter_In in Hin as [_ Hok]. congruence. }
  destruct ans as [msg |]; op_unfold; intros [= <- <- <- <-]; simpl;
    rewrite ?resolved_app, ?item_calls_app, ?Hr, ?Hi; simpl;
    (split; [exact Hf |]); (split; [reflexivity |]); (split; [reflexivity |]).
  - split; [intros e [= <-]; eauto |]. split; [discriminate |].
    split; [discriminate | exact Hcache].
  - split; [discriminate |]. split.
    + intros out [= <-]. exists listing.
      split; [rewrite !elem_of_app, list_elem_of_singleton; auto |].
      now rewrite Hf.
    + split; [| exact Hcache].
      intros out shown [= <-] Hin.
      apply list_elem_of_fmap in Hin as (vault & -> & Hin).
      apply list_elem_of_In, filter_In in Hin as [_ Hok].
      exists (Vault_id vault), (Vault_name vault). split; [reflexivity |]. congruence.
Qed.
End VaultTheorems.

Lemma vault_is_checked_before_use_witness :
  guarded "v2" (ScriptVault.client "AI")
    (get_item "v2" "i1" (ScriptVault.client "AI") (ScriptVault.start 0)) /\
  resolved (get_item "v2" "i1" (ScriptVault.client "AI") (ScriptVault.start 0)).2 = [].
Proof.
  assert (Hno : is_allowed (_vault_filter (ScriptVault.client "AI")) "" = false)
    by (vm_compute; reflexivity).
  destruct (vault_is_checked_before_use "v2" "i1" None None (ScriptVault.client "AI")
              (ScriptVault.start 0) Hno) as (_ & Hguard & _ & _ & Hres & _).
  split; [exact Hguard | exact Hres].
Defined.

Lemma item_shows_no_sensitive_value_witness :
  exists d self' w' tr item,
    get_item "v1" "i1" (ScriptVault.client "AI") (ScriptVault.start 0)
      = (inr d, self', w', tr) /\
    OpItemsGet "v1" "i1" (inr item) ∈ tr /\
    dict_id d = Item_id item /\
    length (dict_fields d) = length (default [] (Item_fields item)).
Proof.
  destruct (get_item "v1" "i1" (ScriptVault.client "AI") (ScriptVault.start 0))
    as [[[[e | d] self'] w'] tr] eqn:E; [vm_compute in E; discriminate |].
  destruct (item_shows_no_sensitive_value _ _ _ _ _ _ _ _ E)
    as (item & Hin & Hid & _ & _ & _ & _ & _ & Hlen & _).
  exists d, self', w', tr, item. split; [reflexivity |].
  split; [exact Hin |]. split; [exact Hid | exact Hlen].
Defined.

Lemma listed_vaults_are_allowed_witness :
  exists r self' w' tr,
    list_vaults (ScriptVault.client "AI") (ScriptVault.start 0) = (r, self', w', tr) /\
    resolved tr = [] /\
    forall vault_id vault_name,
      _vault_cache self' !! vault_id = Some vault_name ->
      _vault_cache (ScriptVault.client "AI") !! vault_id = Some vault_name \/
      is_allowed (_vault_filter (ScriptVault.client "AI")) vault_name = true.
Proof.
  destruct (list_vaults (ScriptVault.client "AI") (ScriptVault.start 0))
    as [[[r self'] w'] tr] eqn:E.
  destruct (listed_vaults_are_allowed _ _ _ _ _ _ E)
    as (_ & Hres & _ & _ & _ & _ & Hcache).
  exists r, self', w', tr. split; [reflexivity |]. split; [exact Hres | exact Hcache].
Defined.

(** ** The tools of the 1Password server *)

Lemma resolved_events t : resolved (OpEvent <$> t) = [].
Proof. induction t as [| e t IH]; [reflexivity | exact IH]. Qed.

Lemma item_calls_events t : item_calls (OpEvent <$> t) = [].
Proof. induction t as [| e t IH]; [reflexivity | exact IH]. Qed.

Section OpServerLemmas.
Context {W : Type} {sdk : OnePasswordSDK W} {pystr : PyStr}
        {monotonic : Monotonic W} {format : OpFormat}.

Import OnePasswordServer.

Lemma get_client_run environ g r g1 t0 :
  get_client environ g = (r, g1, t0) ->
  _rate_limiter g1 = _rate_limiter g /\
  resolved t0 = [] /\ item_calls t0 = [] /\
  match r with
  | inr client =>
      _op_client g1 = Some client /\
      (forall c, _op_client g = Some c -> client = c) /\
      (_op_client g = None ->
       unset (environ !! "OP_SERVICE_ACCOUNT_TOKEN") = false /\
       _vault_filter client = (VaultFilter_init None environ).1)
  | inl e =>
      e = OnePasswordClientError
            "OP_SERVICE_ACCOUNT_TOKEN environment variable is required" /\
      g1 = g /\ t0 = [] /\ _op_client g = None /\
      unset (environ !! "OP_SERVICE_ACCOUNT_TOKEN") = true
  end.
Proof.
  unfold get_client. destruct (_op_client g) as [c |] eqn:Ec.
  - intros [= <- <- <-]. repeat split; auto; congruence.
  - unfold OnePasswordClient_init. cbn [unset].
    destruct (unset (environ !! "OP_SERVICE_ACCOUNT_TOKEN")) eqn:Eu.
    + intros [= <- <- <-]. repeat split.
    + intros [= <- <- <-]. simpl. repeat split; congruence.
Qed.

Lemma with_client_run {A} environ (method : Op W A) g (w : W) r g' w' tr :
  with_client environ method g w = (r, g', w', tr) ->
  _rate_limiter g' = _rate_limiter g /\
  ((exists e, get_client environ g = (inl e, g, []) /\
              r = inl e /\ g' = g /\ w' = w /\ tr = []) \/
   (exists client g1 t0 client' t1,
      get_client environ g = (inr client, g1, t0) /\
      method client w = (r, client', w', t1) /\
      _op_client g' = Some client' /\ tr = t0 ++ t1)).
Proof.
  unfold with_client.
  destruct (get_client environ g) as [[[e | client] g1] t0] eqn:Eg.
  - pose proof (get_client_run _ _ _ _ _ Eg) as (Hl & _ & _ & _ & -> & -> & _).
    intros [= <- <- <- <-]. split; [reflexivity |]. left. eauto 10.
  - pose proof (get_client_run _ _ _ _ _ Eg) as (Hl & _).
    destruct (method client w) as [[[r1 client'] w1] t1] eqn:Em.
    intros [= <- <- <- <-]. split; [exact Hl |]. right.
    exists client, g1, t0, client', t1. repeat split; auto.
Qed.

(** [call_tool] with the handler it runs. *)
Lemma op_call_tool_run environ name arguments g (w : W) :
  exists run : (op_exn + string) * globals * W * list op_event,
    (run =
       if decide (name = "op_list_vaults") then handle_list_vaults environ g w
       else if decide (name = "op_list_items") then
         handle_list_items environ arguments g w
       else if decide (name = "op_get_item") then handle_get_item environ arguments g w
       else if decide (name = "op_resolve_secret") then
         handle_resolve_secret environ arguments g w
       else if decide (name = "op_get_otp") then handle_get_otp environ arguments g w
       else (inr ("Unknown tool: " +:+ name), g, w, [])) /\
    call_tool environ name arguments g w =
      match run with
      | (inr text, g', w', tr) =>
          (text, g', w', OpEvent (EvLog LogInfo ("Tool call: " +:+ name)) :: tr)
      | (inl e, g', w', tr) =>
          ((handle_error e).1, g', w',
           OpEvent (EvLog LogInfo ("Tool call: " +:+ name)) :: tr ++ (handle_error e).2)
      end.
Proof. eexists. split; reflexivity. Qed.

Lemma answer_with_run {A} (text : A -> string) run r g' (w' : W) tr :
  answer_with text run = (r, g', w', tr) ->
  exists r0, run = (r0, g', w', tr) /\
             r = match r0 with inr a => inr (text a) | inl e => inl e end.
Proof.
  unfold answer_with. destruct run as [[[[e | a] g1] w1] t1];
    intros [= <- <- <- <-]; eauto.
Qed.

Lemma handle_error_resolved e : resolved (handle_error e).2 = [].
Proof. now destruct e. Qed.
End OpServerLemmas.

Section OpServerTheorems.
Context {W : Type} {sdk : OnePasswordSDK W} {pystr : PyStr}
        {monotonic : Monotonic W} {format : OpFormat}.

Import OnePasswordServer.

Lemma acquire_run (self : RateLimiter) (w : W) limiter' w1 t1 :
  acquire self w = (limiter', w1, t1) ->
  min_delay limiter' = min_delay self /\
  _last_resolve_time limiter' = time_monotonic w1.
Proof.
  unfold acquire. destruct (Qltb _ _ && Qltb _ _); intros [= <- <- <-]; now split.
Qed.

Lemma get_rate_limiter_run g :
  get_rate_limiter g =
  (default (RateLimiter_init 1) (_rate_limiter g),
   {| _op_client := _op_client g;
      _rate_limiter := Some (default (RateLimiter_init 1) (_rate_limiter g)) |}).
Proof.
  unfold get_rate_limiter. destruct g as [c [l |]]; reflexivity.
Qed.

(** The handler of [op_resolve_secret] written out. *)
Lemma handle_resolve_secret_run environ arguments g (w : W) r g' w' tr :
  handle_resolve_secret environ arguments g w = (r, g', w', tr) ->
  match arguments !! "secret_reference" with
  | Some secret_reference =>
      if decide (secret_reference = "") then
        r = inr "Error: secret_reference is required" /\ g' = g /\ w' = w /\ tr = []
      else
        exists limiter' w1 t1 t2,
          acquire (default (RateLimiter_init 1) (_rate_limiter g)) w = (limiter', w1, t1) /\
          with_client environ (resolve_secret secret_reference)
            {| _op_client := _op_client g; _rate_limiter := Some limiter' |} w1
            = (r, g', w', t2) /\
          tr = (OpEvent <$> t1) ++ t2
  | None => r = inr "Error: secret_reference is required" /\ g' = g /\ w' = w /\ tr = []
  end.
Proof.
  unfold handle_resolve_secret.
  destruct (arguments !! "secret_reference") as [secret_reference |]; cbn [unset].
  2: { intros [= <- <- <- <-]. auto. }
  case_decide as Hs.
  - rewrite bool_decide_eq_true_2 by exact Hs. intros [= <- <- <- <-]. auto.
  - rewrite bool_decide_eq_false_2 by exact Hs.
    rewrite get_rate_limiter_run.
    destruct (acquire _ w) as [[limiter' w1] t1]. cbn [default _op_client].
    destruct (with_client _ _ _ w1) as [[[r2 g3] w2] t2] eqn:Ew.
    intros [= <- <- <- <-]. exists limiter', w1, t1, t2.
    split; [reflexivity |]. split; [exact Ew | reflexivity].
Qed.

(** X25.  The rate limiter belongs to [op_resolve_secret] alone.  A call of
    any other tool, [op_get_otp] included although it resolves a reference,
    leaves the limiter as it was, and so does a call of [op_resolve_secret]
    without a reference.  A call of [op_resolve_secret] with a reference
    passes through [acquire] first, before the reference is looked at and
    before a client exists: whatever becomes of the call, its events start
    with those of [acquire], after the line of the call, and the limiter kept
    afterwards holds the reading of the clock at the end of [acquire], with
    one second as its delay when it was new. *)
Theorem limiter_is_for_resolve_only environ name arguments g (w : W) text g' w' tr :
  call_tool environ name arguments g w = (text, g', w', tr) ->
  (name <> "op_resolve_secret" \/ unset (arguments !! "secret_reference") = true ->
   _rate_limiter g' = _rate_limiter g) /\
  (name = "op_resolve_secret" -> unset (arguments !! "secret_reference") = false ->
   exists limiter' w1 t1 rest,
     acquire (default (RateLimiter_init 1) (_rate_limiter g)) w = (limiter', w1, t1) /\
     _rate_limiter g' = Some limiter' /\
     _last_resolve_time limiter' = time_monotonic w1 /\
     min_delay limiter' = min_delay (default (RateLimiter_init 1) (_rate_limiter g)) /\
     tr = OpEvent (EvLog LogInfo "Tool call: op_resolve_secret")
          :: (OpEvent <$> t1) ++ rest).
Proof.
  intros H.
  destruct (op_call_tool_run environ name arguments g w) as (run & Hrun & Hcall).
  rewrite Hcall in H. clear Hcall.
  assert (Hkeep : forall run0 : (op_exn + string) * globals * W * list op_event,
            run = run0 -> _rate_limiter run0.1.1.2 = _rate_limiter g ->
            _rate_limiter g' = _rate_limiter g).
  { intros run0 -> Hl. destruct run0 as [[[[e | a] g1] w1] t1];
      injection H as <- <- <- <-; exact Hl. }
  assert (Hwith : forall A (text0 : A -> string) (method : Op W A),
            _rate_limiter (answer_with text0 (with_client environ method g w)).1.1.2
            = _rate_limiter g).
  { intros A text0 method.
    destruct (with_client environ method g w) as [[[r1 g1] w1] t1] eqn:E.
    apply with_client_run in E as [Hl _]. now destruct r1. }
  case_decide as H1.
  { subst name. split; [| discriminate]. intros _.
    apply (Hkeep _ Hrun). apply Hwith. }
  case_decide as H2.
  { subst name. split; [| discriminate]. intros _.
    apply (Hkeep _ Hrun). unfold handle_list_items.
    destruct (unset (arguments !! "vault_id")); [reflexivity | apply Hwith]. }
  case_decide as H3.
  { subst name. split; [| discriminate]. intros _.
    apply (Hkeep _ Hrun). unfold handle_get_item.
    destruct (unset _ || unset _); [reflexivity | apply Hwith]. }
  case_decide as H4.
  { subst name.
    destruct (handle_resolve_secret environ arguments g w) as [[[r1 g1] w1] t1] eqn:E.
    subst run. pose proof (handle_resolve_secret_run _ _ _ _ _ _ _ _ E) as Hh.
    destruct (arguments !! "secret_reference") as [secret_reference |] eqn:Earg.
    2: { destruct Hh as (-> & -> & -> & ->). injection H as <- <- <- <-.
         split; [reflexivity |]. intros _ [=]. }
    case_decide as Hs.
    { destruct Hh as (-> & -> & -> & ->). injection H as <- <- <- <-.
      split; [reflexivity |]. intros _. cbn [unset].
      now rewrite bool_decide_eq_true_2. }
    destruct Hh as (limiter' & w2 & t2 & t3 & Hacq & Hwc & ->).
    apply with_client_run in Hwc as [Hl _]. cbn [_rate_limiter] in Hl.
    pose proof (acquire_run _ _ _ _ _ Hacq) as [Hmin Hlast].
    assert (Hg' : _rate_limiter g' = Some limiter')
      by (destruct r1; injection H as <- <- <- <-; exact Hl).
    split.
    { intros [Hn | Hu]; [congruence |]. cbn [unset] in Hu.
      now rewrite bool_decide_eq_false_2 in Hu. }
    intros _ _. exists limiter', w2, t2.
    destruct r1 as [e | secret]; injection H as <- <- <- <-.
    - exists (t3 ++ (handle_error e).2). repeat split; auto.
      now rewrite <- app_assoc.
    - exists t3. repeat split; auto. }
  case_decide as H5.
  { subst name. split; [| discriminate]. intros _.
    apply (Hkeep _ Hrun). unfold handle_get_otp.
    destruct (unset _ || unset _); [reflexivity |].
    destruct (with_client environ _ g w) as [[[r1 g1] w1] t1] eqn:E.
    now apply with_client_run in E as [Hl _]. }
  split; [| congruence]. intros _. now apply (Hkeep _ Hrun).
Qed.
End OpServerTheorems.

Section OpServerChecks.
Context {W : Type} {sdk : OnePasswordSDK W} {pystr : PyStr}
        {monotonic : Monotonic W} {format : OpFormat}.

Import OnePasswordServer.

(** X26.  A call that lacks what its tool requires is answered at once:
    [op_list_items] without a vault, [op_get_item] and [op_get_otp] without a
    vault or without an item, [op_resolve_secret] without a reference, an
    empty string counting as none, and any name that is no tool.  The answer
    is the text of the source; only the line of the call is logged, the SDK is
    not asked for anything, no client is built, the limiter is not touched,
    and this holds whether or not a token is configured. *)
Theorem missing_argument_is_answered_at_once environ name arguments g (w : W) :
  (name = "op_list_items" /\ unset (arguments !! "vault_id") = true) \/
  ((name = "op_get_item" \/ name = "op_get_otp") /\
   (unset (arguments !! "vault_id") = true \/ unset (arguments !! "item_id") = true)) \/
  (name = "op_resolve_secret" /\ unset (arguments !! "secret_reference") = true) \/
  name ∉ ["op_list_vaults"; "op_list_items"; "op_get_item"; "op_resolve_secret";
          "op_get_otp"] ->
  call_tool environ name arguments g w =
    (if decide (name = "op_list_items") then "Error: vault_id is required"
     else if decide (name = "op_get_item" \/ name = "op_get_otp")
     then "Error: vault_id and item_id are required"
     else if decide (name = "op_resolve_secret")
     then "Error: secret_reference is required"
     else "Unknown tool: " +:+ name,
     g, w, [OpEvent (EvLog LogInfo ("Tool call: " +:+ name))]).
Proof.
  intros [[-> Hv] | [[[-> | ->] Hvi] | [[-> Hs] | Hno]]].
  - unfold call_tool, handle_list_items. simpl. now rewrite Hv.
  - unfold call_tool, handle_get_item. simpl.
    assert (Hu : unset (arguments !! "vault_id") || unset (arguments !! "item_id") = true)
      by (apply orb_true_iff; exact Hvi).
    now rewrite Hu.
  - unfold call_tool, handle_get_otp. simpl.
    assert (Hu : unset (arguments !! "vault_id") || unset (arguments !! "item_id") = true)
      by (apply orb_true_iff; exact Hvi).
    now rewrite Hu.
  - unfold call_tool, handle_resolve_secret. simpl. now rewrite Hs.
  - rewrite !not_elem_of_cons in Hno. destruct Hno as (H1 & H2 & H3 & H4 & H5 & _).
    unfold call_tool. rewrite !decide_False by tauto. reflexivity.
Qed.

(** X27.  Whatever reference the SDK is asked to resolve in a call of
    [op_resolve_secret] is the reference of the call, asked once; it reads
    [op://], a vault, a slash, an item, a slash and a rest; and its vault is
    allowed by the allowlist of the client the server keeps, which is the
    allowlist of the client it had, or, when it had none, the allowlist read
    from the environment of this call. *)
Theorem resolved_reference_passed_the_checks environ arguments g (w : W)
    text g' w' tr reference :
  call_tool environ "op_resolve_secret" arguments g w = (text, g', w', tr) ->
  reference ∈ resolved tr ->
  arguments !! "secret_reference" = Some reference /\
  resolved tr = [reference] /\
  exists client vault,
    _op_client g' = Some client /\ _client client = Some Authenticated /\
    wellformed reference vault /\
    is_allowed (_vault_filter client) vault = true /\
    (forall c, _op_client g = Some c -> _vault_filter client = _vault_filter c) /\
    (_op_client g = None ->
     _vault_filter client = (VaultFilter_init None environ).1).
Proof.
  intros H Hin.
  destruct (op_call_tool_run environ "op_resolve_secret" arguments g w)
    as (run & Hrun & Hcall).
  rewrite Hcall in H. clear Hcall. simpl in Hrun.
  destruct (handle_resolve_secret environ arguments g w) as [[[r1 g1] w1] t1] eqn:E.
  subst run. pose proof (handle_resolve_secret_run _ _ _ _ _ _ _ _ E) as Hh.
  assert (Htr : resolved tr = resolved t1 /\ g' = g1).
  { destruct r1 as [e | secret]; injection H as <- <- <- <-; simpl;
      rewrite ?resolved_app, ?handle_error_resolved, ?app_nil_r; now split. }
  destruct Htr as [Htr ->]. rewrite Htr in Hin |- *. clear H Htr.
  destruct (arguments !! "secret_reference") as [secret_reference |].
  2: { destruct Hh as (_ & _ & _ & ->). inversion Hin. }
  case_decide as Hs; [destruct Hh as (_ & _ & _ & ->); inversion Hin |].
  destruct Hh as (limiter' & w2 & t2 & t3 & _ & Hwc & ->).
  rewrite resolved_app, resolved_events in Hin |- *. simpl in Hin |- *.
  apply with_client_run in Hwc
    as [_ [(e & _ & _ & _ & _ & ->) |
           (client & g2 & t0 & client' & t4 & Hget & Hm & Hc' & ->)]];
    [inversion Hin |].
  apply get_client_run in Hget as (_ & Hr0 & _ & Hg2 & Hold & Hnew).
  rewrite resolved_app, Hr0 in Hin |- *. simpl in Hin |- *.
  apply resolve_secret_run in Hm as (Hres & Hf).
  destruct (Hres _ Hin) as (-> & Hone & Hauth & vault & Hwf & Hallowed).
  split; [reflexivity |]. split; [exact Hone |].
  exists client', vault. split; [exact Hc' |]. split; [exact Hauth |].
  split; [exact Hwf |]. split; [now rewrite Hf |].
  split.
  - intros c Hc. cbn [_op_client] in Hold. rewrite Hf. now rewrite (Hold c Hc).
  - intros Hnone. cbn [_op_client] in Hnew. rewrite Hf. now apply Hnew.
Qed.

End OpServerChecks.

Lemma limiter_is_for_resolve_only_witness :
  exists text g' w' tr limiter',
    OnePasswordServer.call_tool ScriptVault.environ "op_resolve_secret"
      {[ "secret_reference" := "not a reference" ]} ScriptVault.fresh (ScriptVault.start 3)
    = (text, g', w', tr) /\
    OnePasswordServer._rate_limiter g' = Some limiter' /\
    min_delay limiter' = 1%Q.
Proof.
  destruct (OnePasswordServer.call_tool ScriptVault.environ "op_resolve_secret"
      {[ "secret_reference" := "not a reference" ]} ScriptVault.fresh (ScriptVault.start 3))
    as [[[text g'] w'] tr] eqn:E.
  destruct (limiter_is_for_resolve_only _ _ _ _ _ _ _ _ _ E) as [_ Hacq].
  destruct (Hacq eq_refl) as (limiter' & w1 & t1 & rest & _ & Hkept & _ & Hmin & _);
    [vm_compute; reflexivity |].
  exists text, g', w', tr, limiter'. split; [reflexivity |].
  split; [exact Hkept | exact Hmin].
Defined.

Lemma missing_argument_is_answered_at_once_witness :
  OnePasswordServer.call_tool ∅ "op_get_item" {[ "vault_id" := "v1" ]}
    ScriptVault.fresh (ScriptVault.start 0)
  = ("Error: vault_id and item_id are required", ScriptVault.fresh, ScriptVault.start 0,
     [OpEvent (EvLog LogInfo "Tool call: op_get_item")]).
Proof.
  assert (H : ("op_get_item" = "op_list_items" /\
               unset (({[ "vault_id" := "v1" ]} : gmap string string) !! "vault_id") = true) \/
              (("op_get_item" = "op_get_item" \/ "op_get_item" = "op_get_otp") /\
               (unset (({[ "vault_id" := "v1" ]} : gmap string string) !! "vault_id") = true \/
                unset (({[ "vault_id" := "v1" ]} : gmap string string) !! "item_id") = true)) \/
              ("op_get_item" = "op_resolve_secret" /\
               unset (({[ "vault_id" := "v1" ]} : gmap string string) !! "secret_reference")
               = true) \/
              "op_get_item" ∉ ["op_list_vaults"; "op_list_items"; "op_get_item";
                               "op_resolve_secret"; "op_get_otp"]).
  { right. left. split; [now left |]. right. reflexivity. }
  exact (missing_argument_is_answered_at_once ∅ "op_get_item" {[ "vault_id" := "v1" ]}
           ScriptVault.fresh (ScriptVault.start 0) H).
Defined.

Lemma resolved_reference_passed_the_checks_witness :
  exists text g' w' tr client,
    OnePasswordServer.call_tool ScriptVault.environ "op_resolve_secret"
      {[ "secret_reference" := "op://AI/GitHub/password" ]}
      ScriptVault.fresh (ScriptVault.start 0)
    = (text, g', w', tr) /\
    resolved tr = ["op://AI/GitHub/password"] /\
    OnePasswordServer._op_client g' = Some client /\
    is_allowed (_vault_filter client) "AI" = true.
Proof.
  destruct (OnePasswordServer.call_tool ScriptVault.environ "op_resolve_secret"
      {[ "secret_reference" := "op://AI/GitHub/password" ]}
      ScriptVault.fresh (ScriptVault.start 0)) as [[[text g'] w'] tr] eqn:E.
  assert (Hin : "op://AI/GitHub/password" ∈ resolved tr).
  { pose proof E as E'. vm_compute in E'. injection E' as <- <- <- <-.
    vm_compute. apply list_elem_of_singleton. reflexivity. }
  destruct (resolved_reference_passed_the_checks _ _ _ _ _ _ _ _ _ E Hin)
    as (_ & Hone & client & vault & Hkept & _ & Hwf & Hallowed & _).
  assert (Hai : wellformed "op://AI/GitHub/password" "AI").
  { exists "GitHub", "password". repeat split. }
  rewrite (wellformed_vault _ _ _ Hwf Hai) in Hallowed.
  exists text, g', w', tr, client. split; [reflexivity |].
  split; [exact Hone |]. split; [exact Hkept | exact Hallowed].
Defined.


(** * The client when a call raises an exception of any class *)

(** ** The scan of one batch *)

Lemma full_released_app t1 t2 :
  Full.released (t1 ++ t2) = Full.released t1 ++ Full.released t2.
Proof. apply omap_app. Qed.

Lemma full_deleted_app t1 t2 :
  Full.deleted (t1 ++ t2) = Full.deleted t1 ++ Full.deleted t2.
Proof. apply omap_app. Qed.

Lemma full_sleeps_app t1 t2 :
  Full.sleeps (t1 ++ t2) = Full.sleeps t1 ++ Full.sleeps t2.
Proof. apply omap_app. Qed.

Lemma full_fetched_app t1 t2 :
  Full.fetched (t1 ++ t2) = Full.fetched t1 ++ Full.fetched t2.
Proof. apply omap_app. Qed.

Lemma full_sent_app t1 t2 : Full.sent (t1 ++ t2) = Full.sent t1 ++ Full.sent t2.
Proof. apply omap_app. Qed.

Lemma full_observed_app t1 t2 :
  Full.observed (t1 ++ t2) = Full.observed t1 ++ Full.observed t2.
Proof. unfold Full.observed. now rewrite full_fetched_app, concat_app. Qed.

Section FullScan.
Import Full.
Context {W : Type} {sqs : SQS W} {runtime : Runtime W} {json : Json}
        {datetime : Datetime}.

Lemma full_bind_run {A B} (m : M W A) (f : A -> M W B) (w : W) :
  bind m f w =
  match m w with
  | (Ok a, w1, t1) => let '(r, w2, t2) := f a w1 in (r, w2, t1 ++ t2)
  | (Raise e, w1, t1) => (Raise e, w1, t1)
  end.
Proof. reflexivity. Qed.

(** What a release gives, by what the transport does. *)
Lemma full_release_cases self m (w : W) :
  let q := response_queue_url self in
  exists r3 w3,
    sqs_change_message_visibility q (ReceiptHandle m) 0 w = (r3, w3) /\
    release self m w =
      (match r3 with
       | Some (RaisedOther text) => Raise (OtherError text)
       | _ => Ok tt
       end, w3, [EvChangeVisibility q (ReceiptHandle m) 0 r3]).
Proof.
  intros q. unfold release. fold q.
  destruct (sqs_change_message_visibility q (ReceiptHandle m) 0 w) as [r3 w3].
  exists r3, w3. split; [reflexivity |].
  destruct r3 as [[e | text] |]; reflexivity.
Qed.

(** The scan goes through the batch, releasing what does not carry the
    identifier, unless a release raises an exception of another class: then it
    stops there, with that exception. *)
Lemma full_scan_messages_spec self eid msgs acc (w : W) :
  exists r w' tr,
    scan_messages self eid msgs acc w = (r, w', tr) /\
    deleted tr = [] /\ sleeps tr = [] /\ fetched tr = [] /\ sent tr = [] /\
    match r with
    | Ok found =>
        found = last_match eid msgs acc /\
        released tr = map ReceiptHandle (others eid msgs) /\
        Forall (fun ev => raised_other ev = None) tr
    | Raise e =>
        exists text m pre,
          e = OtherError text /\
          m ∈ msgs /\ id_matches eid m = false /\
          tr = pre ++ [EvChangeVisibility (response_queue_url self) (ReceiptHandle m) 0
                         (Some (RaisedOther text))] /\
          (forall h, h ∈ released tr -> exists x, x ∈ others eid msgs /\ ReceiptHandle x = h)
    end.
Proof.
  revert acc w. induction msgs as [| m msgs IH]; intros acc w; simpl.
  - exists (Ok acc), w, []. repeat split. constructor.
  - destruct (id_matches eid m) eqn:E; simpl.
    + destruct (IH (Some m) w) as (r & w' & tr & Hrun & Hd & Hs & Hf & Hse & Hr).
      exists r, w', tr. repeat (split; [assumption |]).
      destruct r as [found | e]; [exact Hr |].
      destruct Hr as (text & x & pre & -> & Hx & Hno & -> & Hrel).
      exists text, x, pre. repeat split; auto.
      rewrite elem_of_cons. now right.
    + rewrite full_bind_run.
      destruct (full_release_cases self m w) as (r3 & w3 & _ & ->).
      simpl.
      assert (Hm : m ∈ m :: msgs) by (rewrite elem_of_cons; now left).
      destruct r3 as [[err | text] |].
      * destruct (IH acc w3) as (r & w' & tr & -> & Hd & Hs & Hf & Hse & Hr).
        eexists _, _, _. split; [reflexivity |]. simpl.
        rewrite Hd, Hs, Hf, Hse. repeat (split; [reflexivity |]).
        destruct r as [found | e].
        -- destruct Hr as (-> & -> & Hall). repeat split. now constructor.
        -- destruct Hr as (text & x & pre & -> & Hx & Hno & -> & Hrel).
           exists text, x, (EvChangeVisibility (response_queue_url self)
                              (ReceiptHandle m) 0 (Some (RaisedClientError err)) :: pre).
           repeat split; auto.
           ++ rewrite elem_of_cons. now right.
           ++ intros h. rewrite elem_of_cons. intros [-> | Hh].
              ** exists m. split; [rewrite elem_of_cons; now left | reflexivity].
              ** destruct (Hrel h Hh) as (y & Hy & <-). exists y.
                 split; [rewrite elem_of_cons; now right | reflexivity].
      * eexists _, _, _. split; [reflexivity |]. simpl.
        repeat (split; [reflexivity |]).
        exists text, m, []. repeat split; auto.
        intros h ->%list_elem_of_singleton.
        exists m. split; [rewrite elem_of_cons; now left | reflexivity].
      * destruct (IH acc w3) as (r & w' & tr & -> & Hd & Hs & Hf & Hse & Hr).
        eexists _, _, _. split; [reflexivity |]. simpl.
        rewrite Hd, Hs, Hf, Hse. repeat (split; [reflexivity |]).
        destruct r as [found | e].
        -- destruct Hr as (-> & -> & Hall). repeat split. now constructor.
        -- destruct Hr as (text & x & pre & -> & Hx & Hno & -> & Hrel).
           exists text, x, (EvChangeVisibility (response_queue_url self)
                              (ReceiptHandle m) 0 None :: pre).
           repeat split; auto.
           ++ rewrite elem_of_cons. now right.
           ++ intros h. rewrite elem_of_cons. intros [-> | Hh].
              ** exists m. split; [rewrite elem_of_cons; now left | reflexivity].
              ** destruct (Hrel h Hh) as (y & Hy & <-). exists y.
                 split; [rewrite elem_of_cons; now right | reflexivity].
Qed.

End FullScan.

(** ** One round of the loop *)

Section FullRound.
Import Full.
Context {W : Type} {sqs : SQS W} {runtime : Runtime W} {json : Json}
        {datetime : Datetime}.

(** The round written out: what it returns or raises, where it leaves the
    world and which events it produces, by what the transport and the parser
    do. *)
Lemma full_poll_once_cases self eid wt d (w : W) :
  let q := response_queue_url self in
  let nap := Qmin d poll_delay_cap in
  exists r0 w1,
    sqs_receive_message q 10 wt w = (r0, w1) /\
    match r0 with
    | inl (RaisedClientError e) =>
        poll_once self eid wt d w =
          (Ok (Continue (next_poll_delay d)), time_sleep d w1,
           [EvReceive q 10 wt r0;
            EvLog LogWarning ("Error receiving message: " +:+ client_error_text e);
            EvSleep d])
    | inl (RaisedOther text) =>
        poll_once self eid wt d w =
          (Raise (OtherError text), w1, [EvReceive q 10 wt r0])
    | inr resp =>
        match default [] resp with
        | [] =>
            poll_once self eid wt d w =
              (Ok (Continue (next_poll_delay d)), time_sleep nap w1,
               [EvReceive q 10 wt r0; EvSleep nap])
        | msgs =>
            exists r2 w2 tr2,
              scan_messages self eid msgs None w1 = (r2, w2, tr2) /\
              deleted tr2 = [] /\ sleeps tr2 = [] /\ fetched tr2 = [] /\
              sent tr2 = [] /\
              match r2 with
              | Raise e2 =>
                  (exists text m pre,
                     e2 = OtherError text /\
                     m ∈ msgs /\ id_matches eid m = false /\
                     tr2 = pre ++ [EvChangeVisibility q (ReceiptHandle m) 0
                                     (Some (RaisedOther text))] /\
                     (forall h, h ∈ released tr2 ->
                                exists x, x ∈ others eid msgs /\ ReceiptHandle x = h)) /\
                  poll_once self eid wt d w = (Raise e2, w2, EvReceive q 10 wt r0 :: tr2)
              | Ok _ =>
                  released tr2 = map ReceiptHandle (others eid msgs) /\
                  Forall (fun ev => raised_other ev = None) tr2 /\
                  match last_match eid msgs None with
                  | None =>
                      poll_once self eid wt d w =
                        (Ok (Continue (next_poll_delay d)), time_sleep nap w2,
                         EvReceive q 10 wt r0 :: tr2 ++ [EvSleep nap])
                  | Some m =>
                      match json_loads (Body m) with
                      | Loaded p =>
                          exists r3 w3,
                            sqs_delete_message q (ReceiptHandle m) w2 = (r3, w3) /\
                            match r3 with
                            | None =>
                                poll_once self eid wt d w =
                                  (Ok (Return p), w3,
                                   EvReceive q 10 wt r0 :: tr2 ++
                                   [EvDelete q (ReceiptHandle m) None;
                                    EvLog LogInfo ("Received response for " +:+ eid)])
                            | Some err =>
                                poll_once self eid wt d w =
                                  (Raise (exn_of err), w3,
                                   EvReceive q 10 wt r0 :: tr2 ++
                                   [EvDelete q (ReceiptHandle m) (Some err)])
                            end
                      | JSONDecodeError e =>
                          exists r3 w3,
                            sqs_change_message_visibility q (ReceiptHandle m) 0 w2
                              = (r3, w3) /\
                            match r3 with
                            | Some (RaisedOther text) =>
                                poll_once self eid wt d w =
                                  (Raise (OtherError text), w3,
                                   EvReceive q 10 wt r0 :: tr2 ++
                                   [EvLog LogWarning ("Invalid JSON in response: " +:+ e);
                                    EvChangeVisibility q (ReceiptHandle m) 0 r3])
                            | _ =>
                                poll_once self eid wt d w =
                                  (Ok (Continue (next_poll_delay d)), time_sleep nap w3,
                                   EvReceive q 10 wt r0 :: tr2 ++
                                   [EvLog LogWarning ("Invalid JSON in response: " +:+ e);
                                    EvChangeVisibility q (ReceiptHandle m) 0 r3;
                                    EvSleep nap])
                            end
                      | LoadRaised text =>
                          poll_once self eid wt d w =
                            (Raise (OtherError text), w2, EvReceive q 10 wt r0 :: tr2)
                      end
                  end
              end
        end
    end.
Proof.
  intros q nap.
  destruct (sqs_receive_message q 10 wt w) as [r0 w1] eqn:E0.
  exists r0, w1. split; [reflexivity |].
  assert (Hrecv : receive_message self wt w =
                  (match r0 with
                   | inl (RaisedClientError e) => Ok (inl e)
                   | inl (RaisedOther text) => Raise (OtherError text)
                   | inr response => Ok (inr response)
                   end, w1, [EvReceive q 10 wt r0])).
  { unfold receive_message. fold q. now rewrite E0. }
  unfold poll_once. rewrite full_bind_run, Hrecv. fold nap.
  destruct r0 as [[e | text] | resp]; [reflexivity | reflexivity |].
  destruct (default [] resp) as [| m0 msgs0] eqn:Emsgs; [reflexivity |].
  destruct (full_scan_messages_spec self eid (m0 :: msgs0) None w1)
    as (r2 & w2 & tr2 & Hscan & Hd & Hs & Hf & Hse & Hr).
  exists r2, w2, tr2. repeat (split; [assumption |]).
  rewrite full_bind_run, Hscan.
  destruct r2 as [found | e2]; [| split; [exact Hr | reflexivity]].
  destruct Hr as (-> & Hrel & Hall). repeat (split; [assumption |]).
  destruct (last_match eid (m0 :: msgs0) None) as [m |]; [| reflexivity].
  unfold handle_match. destruct (json_loads (Body m)) as [p | e | text].
  - destruct (sqs_delete_message q (ReceiptHandle m) w2) as [r3 w3] eqn:E3.
    exists r3, w3. split; [reflexivity |].
    unfold bind, logger, emit, delete, ret. fold q. rewrite E3.
    destruct r3; reflexivity.
  - destruct (full_release_cases self m w2) as (r3 & w3 & E3 & Hrel3).
    exists r3, w3. split; [exact E3 |].
    unfold bind, logger, emit, sleep, ret. rewrite Hrel3. fold q.
    destruct r3 as [[err | text] |]; reflexivity.
  - unfold bind, raise. simpl. now rewrite app_nil_r.
Qed.

End FullRound.

(** Splits on the ways a round can go; [Hc] is then the round's value. *)
Ltac full_round_cases self eid wt d w :=
  let Hc0 := fresh "Hc" in
  pose proof (full_poll_once_cases self eid wt d w) as Hc0; cbv zeta in Hc0;
  destruct Hc0 as ([[?e0 | ?text0] | ?resp] & ?w1 & ?Hrecv & ?Hc);
  [ | | match goal with
      | Hc : match default [] ?resp with _ => _ end |- _ =>
          destruct (default [] resp) as [| ?m0 ?msgs0] eqn:?Emsgs;
          [ | destruct Hc as ([?found | ?e2] & ?w2 & ?tr2 & ?Hscan & ?Hdel & ?Hsl & ?Hfe
                              & ?Hsent & ?Hc);
              [ destruct Hc as (?Hrel & ?Hquiet & ?Hc);
                match goal with
                | Hc' : match last_match ?a ?b ?c with _ => _ end |- _ =>
                    destruct (last_match a b c) as [?m |] eqn:?Elast;
                    [ match goal with
                      | Hc'' : match Full.json_loads ?x with _ => _ end |- _ =>
                          destruct (Full.json_loads x) as [?pv | ?perr | ?ptext] eqn:?Ejson;
                          [ destruct Hc'' as (?r3 & ?w3 & ?Hop & ?Hc);
                            match goal with
                            | Hc3 : match ?r with Some _ => _ | None => _ end |- _ =>
                                destruct r as [?err |]
                            end
                          | destruct Hc'' as (?r3 & ?w3 & ?Hop & ?Hc);
                            match goal with
                            | Hc3 : match ?r with Some _ => _ | None => _ end |- _ =>
                                destruct r as [[?err | ?text3] |]
                            end
                          | ]
                      end
                    | ]
                end
              | destruct Hc as ((?text2 & ?culprit & ?pre & ?He2 & ?Hin2 & ?Hno2 & ?Htr2
                                 & ?Hrel2) & ?Hc) ] ]
      end ].

Ltac full_split_round self eid wt d w H :=
  full_round_cases self eid wt d w;
  match goal with
  | Hc : Full.poll_once _ _ _ _ _ = _ |- _ => rewrite Hc in H; injection H as <- <- <-
  end.

(** ** What the events of a round show *)

Section FullRoundFacts.
Import Full.
Context {W : Type} {sqs : SQS W} {runtime : Runtime W} {json : Json}
        {datetime : Datetime}.

Lemma full_poll_once_observed self eid wt d (w : W) r w' tr :
  poll_once self eid wt d w = (r, w', tr) ->
  exists r0 rest,
    tr = EvReceive (response_queue_url self) 10 wt r0 :: rest /\
    fetched rest = [] /\
    observed tr = match r0 with inr (Some l) => l | _ => [] end.
Proof.
  intros H. full_split_round self eid wt d w H;
    try (apply default_nonempty in Emsgs; subst resp);
    eexists _, _; (split; [reflexivity |]);
    unfold observed; simpl; rewrite ?full_fetched_app, ?Hfe; simpl;
    rewrite ?app_nil_r; auto.
  destruct resp; simpl; rewrite ?app_nil_r; auto.
Qed.

Lemma full_released_others eid msgs tr2 rest x :
  released tr2 = map ReceiptHandle (others eid msgs) ->
  x ∈ msgs -> id_matches eid x = false ->
  ReceiptHandle x ∈ released (tr2 ++ rest).
Proof.
  intros Hrel Hx Hno. rewrite full_released_app, Hrel, elem_of_app. left.
  apply list_elem_of_fmap. exists x. split; [reflexivity |].
  now apply others_spec.
Qed.

(** Whatever is deleted in a round carries the wanted identifier. *)
Lemma full_poll_once_deleted self eid wt d (w : W) r w' tr :
  poll_once self eid wt d w = (r, w', tr) ->
  forall h, h ∈ deleted tr ->
    exists m, m ∈ observed tr /\ id_matches eid m = true /\ ReceiptHandle m = h.
Proof.
  intros H.
  full_split_round self eid wt d w H;
    try (apply default_nonempty in Emsgs; subst resp);
    unfold observed; simpl; rewrite ?full_fetched_app, ?Hfe; simpl;
    rewrite ?app_nil_r; intros h; rewrite ?full_deleted_app, ?Hdel; simpl;
    try (inversion 1; fail);
    intros ->%list_elem_of_singleton;
    apply last_match_matches in Elast as [[Hin Hm] | ?]; try discriminate;
    now exists m.
Qed.

(** Whatever was fetched in a round and does not carry the wanted identifier
    has its visibility set to zero, unless a release before it raised an
    exception of another class, which is then the end of the round. *)
Lemma full_poll_once_released self eid wt d (w : W) r w' tr :
  poll_once self eid wt d w = (r, w', tr) ->
  forall m, m ∈ observed tr -> id_matches eid m = false ->
    ReceiptHandle m ∈ released tr \/
    exists text h pre,
      r = Raise (OtherError text) /\
      tr = pre ++ [EvChangeVisibility (response_queue_url self) h 0
                     (Some (RaisedOther text))].
Proof.
  intros H.
  full_split_round self eid wt d w H;
    try (apply default_nonempty in Emsgs; subst resp);
    unfold observed; simpl; rewrite ?full_fetched_app, ?Hfe; simpl;
    rewrite ?app_nil_r; intros x Hx Hno;
    try (left; eapply full_released_others; eassumption);
    try (inversion Hx; fail).
  - destruct resp as [l |]; simpl in *; subst; inversion Hx.
  - left. rewrite <- (app_nil_r tr2). eapply full_released_others; eassumption.
  - right. subst e2 tr2. eexists text2, (ReceiptHandle culprit), (_ :: pre).
    split; reflexivity.
Qed.

(** A round that goes on has slept once, for the delay in force, and grows
    the delay; a round that ends the call has not slept. *)
Lemma full_poll_once_sleeps self eid wt d (w : W) r w' tr :
  (d <= 5)%Q ->
  poll_once self eid wt d w = (r, w', tr) ->
  match r with
  | Ok (Continue d') => d' = next_poll_delay d /\ sleeps tr = [d]
  | _ => sleeps tr = []
  end.
Proof.
  intros Hd H.
  assert (Hnap : Qmin d poll_delay_cap = d) by now apply Qmin_left.
  full_split_round self eid wt d w H; rewrite ?Hnap; simpl;
    rewrite ?full_sleeps_app, ?Hsl; simpl; auto.
Qed.

(** An exception leaves a round in one of three ways: [delete_message]
    raised it; a call of the transport raised it and it is of another class;
    [json.loads] raised it on the body of the message with the identifier and
    it is of another class.  The raising call is the last event. *)
Lemma full_poll_once_raise self eid wt d (w : W) e w' tr :
  poll_once self eid wt d w = (Raise e, w', tr) ->
  (exists h err pre,
     e = exn_of err /\
     tr = pre ++ [EvDelete (response_queue_url self) h (Some err)]) \/
  (exists text ev pre,
     e = OtherError text /\ tr = pre ++ [ev] /\ raised_other ev = Some text) \/
  (exists text m,
     e = OtherError text /\ m ∈ observed tr /\ id_matches eid m = true /\
     json_loads (Body m) = LoadRaised text).
Proof.
  intros H.
  full_round_cases self eid wt d w; rewrite Hc in H; try discriminate;
    injection H as <- <- <-.
  - right. left. exists text0, (EvReceive (response_queue_url self) 10 wt
                                  (inl (RaisedOther text0))), [].
    repeat split.
  - left. exists (ReceiptHandle m), err,
      (EvReceive (response_queue_url self) 10 wt (inr resp) :: tr2).
    split; reflexivity.
  - right. left.
    exists text3, (EvChangeVisibility (response_queue_url self) (ReceiptHandle m) 0
                     (Some (RaisedOther text3))),
      (EvReceive (response_queue_url self) 10 wt (inr resp) :: tr2 ++
       [EvLog LogWarning ("Invalid JSON in response: " +:+ perr)]).
    repeat split. simpl. now rewrite <- app_assoc.
  - right. right. exists ptext, m.
    apply default_nonempty in Emsgs. subst resp.
    apply last_match_matches in Elast as [[Hin Hm] | ?]; [| discriminate].
    repeat split; auto.
    unfold observed. simpl. rewrite Hfe. simpl. now rewrite app_nil_r.
  - right. left. subst e2 tr2.
    exists text2, (EvChangeVisibility (response_queue_url self) (ReceiptHandle culprit) 0
                     (Some (RaisedOther text2))),
      (EvReceive (response_queue_url self) 10 wt (inr resp) :: pre).
    repeat split.
Qed.

(** A [ClientError] leaves a round only from [delete_message]. *)
Lemma full_poll_once_client_error self eid wt d (w : W) err w' tr :
  poll_once self eid wt d w = (Raise (BotoClientError err), w', tr) ->
  exists h pre,
    tr = pre ++ [EvDelete (response_queue_url self) h (Some (RaisedClientError err))].
Proof.
  intros H.
  apply full_poll_once_raise in H
    as [(h & e & pre & He & ->) | [(text & ev & pre & [=] & _) | (text & m & [=] & _)]].
  destruct e as [e | text]; [| discriminate]. injection He as ->. eauto.
Qed.

(** A round that returns took its payload from a fetched message with the
    identifier, and deleted that message and no other. *)
Lemma full_poll_once_return self eid wt d (w : W) p w' tr :
  poll_once self eid wt d w = (Ok (Return p), w', tr) ->
  exists m, m ∈ observed tr /\ id_matches eid m = true /\
            json_loads (Body m) = Loaded p /\ deleted tr = [ReceiptHandle m].
Proof.
  intros H.
  full_round_cases self eid wt d w; rewrite Hc in H; try discriminate.
  injection H as <- <- <-.
  apply default_nonempty in Emsgs. subst resp.
  exists m. unfold observed. simpl.
  rewrite full_fetched_app, full_deleted_app, Hfe, Hdel. simpl.
  rewrite app_nil_r.
  apply last_match_matches in Elast as [[Hin Hm] | ?]; [| discriminate].
  auto.
Qed.

End FullRoundFacts.

(** ** Time across a round *)

Section FullRoundClock.
Import Full.
Context {W : Type} {sqs : SQS W} {runtime : Runtime W} {json : Json}
        {datetime : Datetime} {clock_laws : ClockLaws W}.

Lemma full_scan_messages_clock self eid msgs acc (w : W) r w' tr :
  scan_messages self eid msgs acc w = (r, w', tr) ->
  (datetime_now w <= datetime_now w')%Q.
Proof.
  revert acc w r w' tr.
  induction msgs as [| m msgs IH]; intros acc w r w' tr; simpl.
  - unfold ret. intros [= <- <- <-]. lra.
  - destruct (id_matches eid m); [apply IH |].
    rewrite full_bind_run.
    destruct (full_release_cases self m w) as (r3 & w3 & E3 & ->).
    pose proof (visibility_clock (response_queue_url self) (ReceiptHandle m) 0 w) as Hv.
    rewrite E3 in Hv. simpl in Hv.
    destruct r3 as [[err | text] |]; try (intros [= <- <- <-]; exact Hv);
      destruct (scan_messages self eid msgs acc w3) as [[r2 w2] t2] eqn:E;
      intros [= <- <- <-]; apply IH in E; lra.
Qed.

(** Time does not go back in a round, and a round that goes on ends at
    least its delay later. *)
Lemma full_poll_once_clock self eid wt d (w : W) r w' tr :
  (0 <= d)%Q -> (d <= 5)%Q ->
  poll_once self eid wt d w = (r, w', tr) ->
  (datetime_now w <= datetime_now w')%Q /\
  (forall d', r = Ok (Continue d') -> (datetime_now w + d <= datetime_now w')%Q).
Proof.
  intros Hd0 Hd H.
  assert (Hnap : Qmin d poll_delay_cap = d) by now apply Qmin_left.
  pose proof (receive_clock (response_queue_url self) 10 wt w) as H1.
  full_round_cases self eid wt d w; try rewrite Hnap in Hc;
    rewrite Hrecv in H1; simpl in H1;
    try (apply full_scan_messages_clock in Hscan);
    try (pose proof (visibility_clock (response_queue_url self) (ReceiptHandle m) 0 w2)
           as H3; rewrite Hop in H3; simpl in H3);
    try (pose proof (delete_clock (response_queue_url self) (ReceiptHandle m) w2)
           as H3; rewrite Hop in H3; simpl in H3);
    rewrite Hc in H; injection H as <- <- <-;
    try (match goal with
         | |- context [time_sleep d ?x] => pose proof (sleep_clock d x)
         end);
    (split; [lra | try (intros ? [=]; fail); intros _ _; lra]).
Qed.

End FullRoundClock.

(** ** The whole wait *)

Section FullLoop.
Import Full.
Context {W : Type} {sqs : SQS W} {runtime : Runtime W} {json : Json}
        {datetime : Datetime}.

Lemma full_wait_loop_S n self eid T wt d (w : W) :
  wait_loop (S n) self eid T wt d w =
  if Qlt_le_dec (datetime_now w) T then
    match poll_once self eid wt d w with
    | (Ok (Continue d'), w1, t1) =>
        match wait_loop n self eid T wt d' w1 with
        | Some (r, w2, t2) => Some (r, w2, t1 ++ t2)
        | None => None
        end
    | (Ok (Return p), w1, t1) => Some (Ok p, w1, t1)
    | (Raise e, w1, t1) => Some (Raise e, w1, t1)
    end
  else Some (Raise (SQSTimeoutError (timeout_text eid)), w, []).
Proof. reflexivity. Qed.

(** One more unit of fuel changes no answer. *)
Lemma full_wait_loop_fuel_S n self eid T wt d (w : W) res :
  wait_loop n self eid T wt d w = Some res ->
  wait_loop (S n) self eid T wt d w = Some res.
Proof.
  revert d w res. induction n as [| n IH]; intros d w res H; [discriminate |].
  rewrite full_wait_loop_S in H. rewrite full_wait_loop_S.
  destruct (Qlt_le_dec (datetime_now w) T); [| exact H].
  destruct (poll_once self eid wt d w) as [[[[d' | p] | e] w1] t1]; try exact H.
  destruct (wait_loop n self eid T wt d' w1) as [[[r w2] t2] |] eqn:E;
    [| discriminate].
  now rewrite (IH _ _ _ E).
Qed.

Lemma full_wait_loop_fuel_le n n' self eid T wt d (w : W) res :
  n <= n' ->
  wait_loop n self eid T wt d w = Some res ->
  wait_loop n' self eid T wt d w = Some res.
Proof.
  induction 1 as [| n' _ IH]; [auto |].
  intros H. apply full_wait_loop_fuel_S. auto.
Qed.

(** Across the loop: what is deleted carries the identifier; what is fetched
    without it is released, unless a release before it ended the call with an
    exception of another class. *)
Lemma full_wait_loop_hygiene n self eid T wt d (w : W) r w' tr :
  wait_loop n self eid T wt d w = Some (r, w', tr) ->
  (forall h, h ∈ deleted tr ->
             exists m, m ∈ observed tr /\ id_matches eid m = true /\
                       ReceiptHandle m = h) /\
  (forall m, m ∈ observed tr -> id_matches eid m = false ->
             ReceiptHandle m ∈ released tr \/
             exists text h pre,
               r = Raise (OtherError text) /\
               tr = pre ++ [EvChangeVisibility (response_queue_url self) h 0
                              (Some (RaisedOther text))]).
Proof.
  revert d w r w' tr.
  induction n as [| n IH]; intros d w r w' tr H; [discriminate |].
  rewrite full_wait_loop_S in H.
  destruct (Qlt_le_dec (datetime_now w) T).
  2: { injection H as <- <- <-. split; [inversion 1 | inversion 1]. }
  destruct (poll_once self eid wt d w) as [[r1 w1] t1] eqn:E1.
  pose proof (full_poll_once_deleted _ _ _ _ _ _ _ _ E1) as Hdel.
  pose proof (full_poll_once_released _ _ _ _ _ _ _ _ E1) as Hrel.
  destruct r1 as [[d' | p] | e1].
  - destruct (wait_loop n self eid T wt d' w1) as [[[r2 w2] t2] |] eqn:E2;
      [| discriminate].
    injection H as <- <- <-.
    apply IH in E2 as (Hdel2 & Hrel2).
    split.
    + intros h. rewrite full_deleted_app, elem_of_app.
      intros [Hh | Hh]; [apply Hdel in Hh | apply Hdel2 in Hh];
        destruct Hh as (m & Hm & Hid & Hh); exists m;
        rewrite full_observed_app, elem_of_app; auto.
    + intros m. rewrite full_observed_app, full_released_app, !elem_of_app.
      intros [Hm | Hm] Hno.
      * destruct (Hrel m Hm Hno) as [? | (text & h & pre & [=] & _)]. auto.
      * destruct (Hrel2 m Hm Hno) as [? | (text & h & pre & -> & ->)]; [auto |].
        right. exists text, h, (t1 ++ pre). now rewrite app_assoc.
  - injection H as <- <- <-. split; [exact Hdel |].
    intros m Hm Hno. destruct (Hrel m Hm Hno) as [? | (text & h & pre & [=] & _)]. auto.
  - injection H as <- <- <-. split; [exact Hdel |].
    intros m Hm Hno.
    destruct (Hrel m Hm Hno) as [? | (text & h & pre & [= ->] & ->)]; [auto |].
    right. now exists text, h, pre.
Qed.

(** What the loop raises: its timeout, or what left a round. *)
Lemma full_wait_loop_raise n self eid T wt d (w : W) e w' tr :
  wait_loop n self eid T wt d w = Some (Raise e, w', tr) ->
  e = SQSTimeoutError (timeout_text eid) \/
  (exists h err pre,
     e = exn_of err /\
     tr = pre ++ [EvDelete (response_queue_url self) h (Some err)]) \/
  (exists text ev pre,
     e = OtherError text /\ tr = pre ++ [ev] /\ raised_other ev = Some text) \/
  (exists text m,
     e = OtherError text /\ m ∈ observed tr /\ id_matches eid m = true /\
     json_loads (Body m) = LoadRaised text).
Proof.
  revert d w tr.
  induction n as [| n IH]; intros d w tr H; [discriminate |].
  rewrite full_wait_loop_S in H.
  destruct (Qlt_le_dec (datetime_now w) T).
  2: { injection H as <- <- <-. now left. }
  destruct (poll_once self eid wt d w) as [[r1 w1] t1] eqn:E1.
  destruct r1 as [[d' | p] | e1].
  - destruct (wait_loop n self eid T wt d' w1) as [[[r2 w2] t2] |] eqn:E2;
      [| discriminate].
    injection H as -> <- <-.
    apply IH in E2
      as [-> | [(h & err & pre & -> & ->) |
                [(text & ev & pre & -> & -> & Hev) | (text & m & -> & Hm & Hid & Hj)]]].
    + now left.
    + right. left. exists h, err, (t1 ++ pre). now rewrite app_assoc.
    + right. right. left. exists text, ev, (t1 ++ pre). now rewrite app_assoc.
    + right. right. right. exists text, m.
      rewrite full_observed_app, elem_of_app. auto.
  - discriminate.
  - injection H as -> <- <-. right. now apply full_poll_once_raise in E1.
Qed.

(** The timeout is raised at a moment when the clock has reached the
    deadline, with the identifier in its text. *)
Lemma full_wait_loop_timeout n self eid T wt d (w : W) msg w' tr :
  wait_loop n self eid T wt d w = Some (Raise (SQSTimeoutError msg), w', tr) ->
  (T <= datetime_now w')%Q /\ msg = timeout_text eid.
Proof.
  revert d w tr.
  induction n as [| n IH]; intros d w tr H; [discriminate |].
  rewrite full_wait_loop_S in H.
  destruct (Qlt_le_dec (datetime_now w) T) as [Hlt | Hge].
  2: { injection H as <- <- <-. now split. }
  destruct (poll_once self eid wt d w) as [[r1 w1] t1] eqn:E1.
  destruct r1 as [[d' | p] | e1].
  - destruct (wait_loop n self eid T wt d' w1) as [[[r2 w2] t2] |] eqn:E2;
      [| discriminate].
    injection H as -> <- <-. now apply IH in E2.
  - discriminate.
  - injection H as -> <- <-.
    apply full_poll_once_raise in E1
      as [(h & [err | text] & pre & [=] & _) |
          [(text & ev & pre & [=] & _) | (text & m & [=] & _)]].
Qed.

Lemma full_wait_loop_return n self eid T wt d (w : W) p w' tr :
  wait_loop n self eid T wt d w = Some (Ok p, w', tr) ->
  exists m, m ∈ observed tr /\ id_matches eid m = true /\
            json_loads (Body m) = Loaded p.
Proof.
  revert d w tr.
  induction n as [| n IH]; intros d w tr H; [discriminate |].
  rewrite full_wait_loop_S in H.
  destruct (Qlt_le_dec (datetime_now w) T); [| discriminate].
  destruct (poll_once self eid wt d w) as [[r1 w1] t1] eqn:E1.
  destruct r1 as [[d' | p1] | e1].
  - destruct (wait_loop n self eid T wt d' w1) as [[[r2 w2] t2] |] eqn:E2;
      [| discriminate].
    injection H as -> <- <-.
    apply IH in E2 as (m & Hm & Hid & Hp). exists m.
    rewrite full_observed_app, elem_of_app. auto.
  - injection H as -> <- <-.
    apply full_poll_once_return in E1 as (m & Hm & Hid & Hp & _). now exists m.
  - discriminate.
Qed.

(** The delays slept in one call are the backoff sequence from where the
    call stands in it. *)
Lemma full_wait_loop_sleeps n self eid T wt k (w : W) r w' tr :
  wait_loop n self eid T wt (backoff k) w = Some (r, w', tr) ->
  sleeps tr = map backoff (seq k (length (sleeps tr))).
Proof.
  revert k w r w' tr.
  induction n as [| n IH]; intros k w r w' tr H; [discriminate |].
  rewrite full_wait_loop_S in H.
  destruct (Qlt_le_dec (datetime_now w) T); [| injection H as <- <- <-; reflexivity].
  destruct (poll_once self eid wt (backoff k) w) as [[r1 w1] t1] eqn:E1.
  pose proof (full_poll_once_sleeps _ _ _ _ _ _ _ _ (proj2 (backoff_range k)) E1) as Hs.
  destruct r1 as [[d' | p] | e].
  - destruct Hs as [-> Hs].
    destruct (wait_loop n self eid T wt (next_poll_delay (backoff k)) w1)
      as [[[r2 w2] t2] |] eqn:E2; [| discriminate].
    injection H as <- <- <-.
    apply (IH (S k)) in E2.
    rewrite full_sleeps_app, Hs. simpl. f_equal. exact E2.
  - injection H as <- <- <-. now rewrite Hs.
  - injection H as <- <- <-. now rewrite Hs.
Qed.

End FullLoop.

Section FullTermination.
Import Full.
Context {W : Type} {sqs : SQS W} {runtime : Runtime W} {json : Json}
        {datetime : Datetime} {clock_laws : ClockLaws W}.

(** Each round that goes on takes half a second or more, so a loop that is
    [n] half seconds from its deadline ends within [n] rounds. *)
Lemma full_wait_loop_terminates n self eid T wt d (w : W) :
  (1 # 2 <= d)%Q -> (d <= 5)%Q ->
  (T - datetime_now w <= inject_Z (Z.of_nat n) * (1 # 2))%Q ->
  exists res, wait_loop (S n) self eid T wt d w = Some res.
Proof.
  revert d w. induction n as [| n IH]; intros d w Hlo Hhi Hleft;
    rewrite full_wait_loop_S;
    destruct (Qlt_le_dec (datetime_now w) T) as [Hlt | Hge]; eauto.
  - change (inject_Z (Z.of_nat 0)) with 0%Q in Hleft. lra.
  - destruct (poll_once self eid wt d w) as [[r1 w1] t1] eqn:E1.
    destruct r1 as [[d' | p] | e]; eauto.
    assert (Hd0 : (0 <= d)%Q) by lra.
    pose proof (full_poll_once_clock _ _ _ _ _ _ _ _ Hd0 Hhi E1) as [_ Hadv].
    specialize (Hadv d' eq_refl).
    pose proof (full_poll_once_sleeps _ _ _ _ _ _ _ _ Hhi E1) as [-> _].
    destruct (next_poll_delay_range d Hlo Hhi) as (Hlo' & Hhi' & _).
    destruct (IH (next_poll_delay d) w1 Hlo' Hhi') as [[[r2 w2] t2] E2].
    + rewrite Nat2Z.inj_succ in Hleft. unfold Z.succ in Hleft.
      rewrite inject_Z_plus in Hleft. change (inject_Z 1) with 1%Q in Hleft. lra.
    + rewrite E2. eauto.
Qed.

Lemma full_deadline_some (w : W) tm T :
  deadline w tm = Some T -> T = (datetime_now w + inject_Z (60 * tm))%Q.
Proof.
  unfold deadline, timedelta_minutes.
  destruct (_ && _)%bool; [| discriminate].
  destruct (_ && _)%bool; [| discriminate].
  now intros [= <-].
Qed.

End FullTermination.

(** ** The scripted world obeys the assumptions *)

Lemma full_script_tick_clock d (w : FullScript.world) :
  (FullScript.clock w + d <= FullScript.clock (FullScript.tick d w))%Q.
Proof. unfold FullScript.tick. simpl. rewrite Qred_correct. lra. Qed.

Lemma full_script_pop_clock (w : FullScript.world) :
  FullScript.clock (FullScript.pop w).2 = FullScript.clock w.
Proof. unfold FullScript.pop. destruct (FullScript.inbox w); reflexivity. Qed.

#[global] Instance full_script_clock_laws : Full.ClockLaws FullScript.world.
Proof.
  split; simpl; intros.
  - rewrite full_script_pop_clock. lra.
  - lra.
  - lra.
  - apply full_script_tick_clock.
Qed.

(** * The claims on the wait *)

Section FullWaitClaims.
Import Full.
Context {W : Type} {sqs : SQS W} {runtime : Runtime W} {json : Json}
        {datetime : Datetime}.


(** C5. Under the clock assumptions a call of [_wait_for_response] ends
    within [fuel_for timeout_minutes] rounds.  It raises [SQSTimeoutError]
    only when the clock reads the deadline or later, with a text that ends
    with the identifier.  If no fetched message carried the wanted identifier,
    it ends with that timeout, or earlier with an exception of a class other
    than [ClientError]: the [OverflowError] of a deadline that [datetime]
    cannot hold, or what [receive_message] or a release raised. *)
Theorem wait_times_out_unless_call_raised {clock_laws : ClockLaws W}
    fuel self eid tm wt (w : W) :
  fuel_for tm <= fuel ->
  exists r w' tr,
    _wait_for_response fuel self eid tm wt w = Some (r, w', tr) /\
    (forall msg, r = Raise (SQSTimeoutError msg) ->
       msg = "Timeout waiting for response. Execution ID: " +:+ eid /\
       exists T, deadline w tm = Some T /\ (T <= datetime_now w')%Q) /\
    ((forall m, m ∈ observed tr -> id_matches eid m = false) ->
     r = Raise (SQSTimeoutError
                  ("Timeout waiting for response. Execution ID: " +:+ eid)) \/
     exists text,
       r = Raise (OtherError text) /\
       ((deadline w tm = None /\ text = overflow_text tm /\ tr = []) \/
        (exists ev pre, tr = pre ++ [ev] /\ raised_other ev = Some text))).
Proof.
  intros Hfuel. unfold _wait_for_response.
  destruct (deadline w tm) as [T |] eqn:ET.
  2: { eexists _, _, _. split; [reflexivity |]. split; [discriminate |].
       intros _. right. eexists. split; [reflexivity |]. now left. }
  pose proof (full_deadline_some _ _ _ ET) as HT.
  destruct (full_wait_loop_terminates (Z.to_nat (120 * tm)) self eid T wt
              initial_poll_delay w) as [[[r w'] tr] Hrun].
  - unfold initial_poll_delay. lra.
  - unfold initial_poll_delay. lra.
  - pose proof (fuel_for_enough tm). rewrite HT. lra.
  - exists r, w', tr.
    apply (full_wait_loop_fuel_le _ fuel) in Hrun; [| exact Hfuel].
    split; [exact Hrun |]. split.
    + intros msg ->. apply full_wait_loop_timeout in Hrun as [Hlate ->].
      split; [reflexivity |]. now exists T.
    + intros Hno. destruct r as [p | e].
      * apply full_wait_loop_return in Hrun as (m & Hm & Hid & _).
        rewrite (Hno m Hm) in Hid. discriminate.
      * pose proof (full_wait_loop_hygiene _ _ _ _ _ _ _ _ _ _ Hrun) as [Hdel _].
        apply full_wait_loop_raise in Hrun
          as [-> | [(h & err & pre & -> & ->) |
                    [(text & ev & pre & -> & -> & Hev) | (text & m & -> & Hm & Hid & _)]]].
        -- now left.
        -- destruct (Hdel h) as (m & Hm & Hid & _).
           { rewrite full_deleted_app, elem_of_app. right. simpl.
             apply list_elem_of_singleton. reflexivity. }
           rewrite (Hno m Hm) in Hid. discriminate.
        -- right. exists text. split; [reflexivity |]. right. eauto.
        -- rewrite (Hno m Hm) in Hid. discriminate.
Qed.

End FullWaitClaims.



Lemma wait_times_out_unless_call_raised_witness :
  exists w' tr,
    Full._wait_for_response (fuel_for 1) Script.client "X" 1 3 (FullScript.start 0 [])
      = Some (Full.Raise (Full.SQSTimeoutError
                            "Timeout waiting for response. Execution ID: X"),
              w', tr) /\
    (60 <= FullScript.clock w')%Q.
Proof.
  destruct (wait_times_out_unless_call_raised (fuel_for 1) Script.client "X" 1 3
              (FullScript.start 0 []) (le_n _))
    as (r & w' & tr & Hrun & Hlate & Hend).
  exists w', tr.
  assert (Hno : forall m, m ∈ Full.observed tr -> id_matches "X" m = false).
  { pose proof Hrun as E. vm_compute in E. injection E as <- <- <-.
    intros m Hm. vm_compute in Hm. inversion Hm. }
  assert (Hr : r = Full.Raise (Full.SQSTimeoutError
                                 "Timeout waiting for response. Execution ID: X")).
  { destruct (Hend Hno) as [-> | (text & -> & Hcause)]; [reflexivity |].
    pose proof Hrun as E. vm_compute in E. discriminate. }
  subst r. split; [exact Hrun |].
  destruct (Hlate _ eq_refl) as (_ & T & HT & Hle).
  vm_compute in HT. injection HT as <-. exact Hle.
Defined.

(** C5, the counterexample.  [receive_message] raises an exception of
    another class at the first round: the call ends with it at once, a minute
    before its deadline, and no message was fetched. *)
Lemma wait_ends_before_deadline :
  exists w' tr,
    Full._wait_for_response (fuel_for 1) Script.client "X" 1 3
      (FullScript.start 0
         [inl (Full.RaisedOther "Could not connect to the endpoint URL")])
      = Some (Full.Raise (Full.OtherError "Could not connect to the endpoint URL"),
              w', tr) /\
    Full.observed tr = [] /\
    Full.deadline (FullScript.start 0
         [inl (Full.RaisedOther "Could not connect to the endpoint URL")]) 1 = Some 60%Q /\
    FullScript.clock w' = 0%Q.
Proof.
  eexists _, _. split; [vm_compute; reflexivity |].
  repeat split.
Qed.

(** ** Which message of a batch is acted on *)

Section FullBatch.
Import Full.
Context {W : Type} {sqs : SQS W} {runtime : Runtime W} {json : Json}
        {datetime : Datetime}.

(** A scan that ends without an exception settles on the last message with
    the identifier. *)
Lemma full_scan_messages_ok self eid msgs acc (w : W) found w2 tr2 :
  scan_messages self eid msgs acc w = (Ok found, w2, tr2) ->
  found = last_match eid msgs acc /\
  released tr2 = map ReceiptHandle (others eid msgs) /\
  deleted tr2 = [].
Proof.
  intros H.
  destruct (full_scan_messages_spec self eid msgs acc w)
    as (r & w' & tr & Hrun & Hd & _ & _ & _ & Hr).
  rewrite H in Hrun. injection Hrun as <- <- <-.
  destruct Hr as (-> & Hrel & _). auto.
Qed.

(** The round of a fetched batch, by what its scan gives. *)
Lemma full_poll_once_batch self eid wt d (w w1 : W) msgs :
  sqs_receive_message (response_queue_url self) 10 wt w = (inr (Some msgs), w1) ->
  msgs <> [] ->
  let q := response_queue_url self in
  exists r2 w2 tr2 r w' rest,
    scan_messages self eid msgs None w1 = (r2, w2, tr2) /\
    poll_once self eid wt d w = (r, w', EvReceive q 10 wt (inr (Some msgs)) :: tr2 ++ rest) /\
    deleted tr2 = [] /\
    match r2 with
    | Raise e2 =>
        r = Raise e2 /\ rest = [] /\
        exists text h pre,
          e2 = OtherError text /\
          tr2 = pre ++ [EvChangeVisibility q h 0 (Some (RaisedOther text))] /\
          (forall h, h ∈ released tr2 ->
                     exists x, x ∈ others eid msgs /\ ReceiptHandle x = h)
    | Ok found =>
        found = last_match eid msgs None /\
        released tr2 = map ReceiptHandle (others eid msgs) /\
        match found with
        | None => deleted rest = [] /\ released rest = [] /\
                  r = Ok (Continue (next_poll_delay d))
        | Some m =>
            match json_loads (Body m) with
            | Loaded p =>
                deleted rest = [ReceiptHandle m] /\ released rest = [] /\
                r = match (sqs_delete_message q (ReceiptHandle m) w2).1 with
                    | None => Ok (Return p)
                    | Some err => Raise (exn_of err)
                    end
            | JSONDecodeError e =>
                deleted rest = [] /\ released rest = [ReceiptHandle m] /\
                forall p, r <> Ok (Return p)
            | LoadRaised text =>
                deleted rest = [] /\ released rest = [] /\ r = Raise (OtherError text)
            end
        end
    end.
Proof.
  intros Hrecv Hne q. subst q.
  destruct (full_poll_once_cases self eid wt d w) as (r0 & w1' & Hrecv' & Hc).
  rewrite Hrecv in Hrecv'.
  injection Hrecv' as <- <-.
  destruct msgs as [| m0 msgs0]; [congruence |].
  change (default [] (Some (m0 :: msgs0))) with (m0 :: msgs0) in Hc.
  cbv beta iota in Hc.
  destruct Hc as (r2 & w2 & tr2 & Hscan & Hdel & _ & _ & _ & Hc).
  exists r2, w2, tr2.
  destruct r2 as [found | e2].
  - destruct (full_scan_messages_ok _ _ _ _ _ _ _ _ Hscan) as (Hfound & Hrel & _).
    destruct Hc as (_ & _ & Hc). rewrite <- Hfound in Hc.
    destruct found as [m |].
    + destruct (json_loads (Body m)) as [p | e | text].
      * destruct Hc as (r3 & w3 & Hop & Hc).
        destruct r3 as [err |]; eexists _, _, _;
          (split; [exact Hscan |]); (split; [exact Hc |]);
          (split; [assumption |]); (split; [assumption |]); (split; [assumption |]);
          rewrite Hop; repeat split.
      * destruct Hc as (r3 & w3 & Hop & Hc).
        destruct r3 as [[err | text] |]; eexists _, _, _;
          (split; [exact Hscan |]); (split; [exact Hc |]); repeat split; auto;
          discriminate.
      * eexists _, _, []. split; [exact Hscan |]. rewrite app_nil_r.
        split; [exact Hc |]. repeat split; auto.
    + eexists _, _, _. split; [exact Hscan |]. split; [exact Hc |]. repeat split; auto.
  - destruct Hc as ((text & m & pre & -> & _ & _ & -> & Hrel) & Hc).
    eexists _, _, []. split; [exact Hscan |]. rewrite app_nil_r.
    split; [exact Hc |]. split; [exact Hdel |]. split; [reflexivity |].
    split; [reflexivity |]. exists text, (ReceiptHandle m), pre. auto.
Qed.


(** C7.  When the batch a round fetches holds more than one message with
    the wanted identifier, the round acts on one of them only, the last, [m]:
    no body but that of [m] is parsed into the answer, nothing is deleted but
    [m], and nothing is released but [m] and messages without the
    identifier.  No message with another receipt handle is deleted in that
    round. *)
Theorem at_most_one_match_is_acted_on self eid wt d (w w1 : W) msgs :
  sqs_receive_message (response_queue_url self) 10 wt w = (inr (Some msgs), w1) ->
  1 < length (List.filter (id_matches eid) msgs) ->
  exists m r w' tr,
    last_match eid msgs None = Some m /\ m ∈ msgs /\ id_matches eid m = true /\
    poll_once self eid wt d w = (r, w', tr) /\
    (deleted tr = [ReceiptHandle m] \/ deleted tr = []) /\
    (forall h, h ∈ released tr ->
       h = ReceiptHandle m \/ exists x, x ∈ others eid msgs /\ ReceiptHandle x = h) /\
    (forall x, x ∈ msgs -> ReceiptHandle x <> ReceiptHandle m ->
               ReceiptHandle x ∉ deleted tr) /\
    (forall p, r = Ok (Return p) -> json_loads (Body m) = Loaded p).
Proof.
  intros Hrecv Hmany.
  destruct (last_match_some eid msgs) as [m Hlast]; [lia |].
  destruct (last_match_matches _ _ _ _ Hlast) as [[Hin Hm] | ?]; [| discriminate].
  destruct (full_poll_once_batch self eid wt d w w1 _ Hrecv)
    as (r2 & w2 & tr2 & r & w' & rest & Hscan & Hrun & Hdel2 & Hc).
  { intros ->. inversion Hin. }
  eexists m, r, w', _. repeat (split; [eassumption |]).
  assert (Hothers : forall h, h ∈ map ReceiptHandle (others eid msgs) ->
            exists x, x ∈ others eid msgs /\ ReceiptHandle x = h).
  { intros h Hh. apply list_elem_of_fmap in Hh as (x & -> & Hx). eauto. }
  assert (Hgoal :
    (deleted rest = [ReceiptHandle m] \/ deleted rest = []) /\
    (forall h, h ∈ released tr2 ++ released rest ->
       h = ReceiptHandle m \/ exists x, x ∈ others eid msgs /\ ReceiptHandle x = h) /\
    (forall p, r = Ok (Return p) -> json_loads (Body m) = Loaded p)).
  { destruct r2 as [found | e2].
    - destruct Hc as (-> & Hrel & Hc). rewrite Hlast in Hc. rewrite Hrel.
      destruct (json_loads (Body m)) as [p | e | text].
      + destruct Hc as (-> & -> & ->). split; [now left |]. split.
        * intros h. rewrite app_nil_r. intros Hh. right. now apply Hothers.
        * destruct (sqs_delete_message _ _ w2).1; [discriminate |]. congruence.
      + destruct Hc as (-> & -> & Hr). split; [now right |]. split.
        * intros h. rewrite elem_of_app, list_elem_of_singleton.
          intros [Hh | ->]; [right; now apply Hothers | now left].
        * intros p Hp. destruct (Hr p Hp).
      + destruct Hc as (-> & -> & ->). split; [now right |]. split.
        * intros h. rewrite app_nil_r. intros Hh. right. now apply Hothers.
        * discriminate.
    - destruct Hc as (-> & -> & text & h & pre & -> & _ & Hrel).
      split; [now right |]. split.
      + intros h'. rewrite app_nil_r. intros Hh. right. now apply Hrel.
      + discriminate. }
  destruct Hgoal as (Hdel & Hrel & Hret).
  assert (Hd : deleted (EvReceive (response_queue_url self) 10 wt (inr (Some msgs))
                          :: tr2 ++ rest) = deleted rest).
  { simpl. now rewrite full_deleted_app, Hdel2. }
  rewrite Hd. split; [exact Hdel |]. split.
  { intros h Hh. apply Hrel. simpl in Hh. now rewrite full_released_app in Hh. }
  split; [| exact Hret].
  intros x _ Hne. destruct Hdel as [-> | ->].
  - rewrite list_elem_of_singleton. exact Hne.
  - apply not_elem_of_nil.
Qed.

(** C10.  A fetched message without [MessageAttributes], without an
    [ExecutionId] entry in them, or without a [StringValue] in that entry
    matches no identifier, and reading it raises nothing.  The round that
    fetches it never settles on it, so a payload the round returns is that of
    another message; and the round releases it, unless a release before it in
    the batch raised an exception of a class other than [ClientError], which
    ended the round. *)
Theorem message_without_id_is_never_the_match self eid wt d (w w1 : W) msgs m :
  (MessageAttributes m = None \/
   (exists attrs, MessageAttributes m = Some attrs /\ attrs !! "ExecutionId" = None) \/
   (exists attrs a, MessageAttributes m = Some attrs /\
                    attrs !! "ExecutionId" = Some a /\ StringValue a = None)) ->
  sqs_receive_message (response_queue_url self) 10 wt w = (inr (Some msgs), w1) ->
  m ∈ msgs ->
  msg_execution_id m = None /\
  id_matches eid m = false /\
  last_match eid msgs None <> Some m /\
  exists r w' tr,
    poll_once self eid wt d w = (r, w', tr) /\
    (ReceiptHandle m ∈ released tr \/
     exists text h pre,
       r = Raise (OtherError text) /\
       tr = pre ++ [EvChangeVisibility (response_queue_url self) h 0
                      (Some (RaisedOther text))]) /\
    (forall p, r = Ok (Return p) ->
       exists m', last_match eid msgs None = Some m' /\ m' <> m /\
                  json_loads (Body m') = Loaded p).
Proof.
  intros Hlack Hrecv Hin.
  assert (Hnone : msg_execution_id m = None).
  { unfold msg_execution_id.
    destruct Hlack as [-> | [(attrs & -> & ->) | (attrs & a & -> & -> & ->)]];
      reflexivity. }
  assert (Hno : id_matches eid m = false).
  { unfold id_matches. rewrite Hnone. reflexivity. }
  assert (Hnot : last_match eid msgs None <> Some m).
  { intros Hlast. apply last_match_matches in Hlast as [[_ Hm] | ?]; congruence. }
  repeat (split; [assumption |]).
  destruct (poll_once self eid wt d w) as [[r w'] tr] eqn:Hrun.
  exists r, w', tr. split; [reflexivity |]. split.
  - pose proof (full_poll_once_released _ _ _ _ _ _ _ _ Hrun) as Hrel.
    apply Hrel; [| exact Hno].
    destruct (full_poll_once_observed _ _ _ _ _ _ _ _ Hrun)
      as (r0 & rest & Htr & _ & Hobs).
    pose proof Hrun as Hrun'. unfold poll_once in Hrun'.
    rewrite full_bind_run in Hrun'. unfold receive_message in Hrun'.
    rewrite Hrecv in Hrun'.
    assert (Hr0 : r0 = inr (Some msgs)).
    { destruct msgs as [| m0 msgs0]; [inversion Hin |]. simpl in Hrun'.
      destruct (bind _ _ w1) as [[r' w''] t']. injection Hrun' as _ _ Ht.
      rewrite Htr in Ht. now injection Ht as ->. }
    rewrite Hobs, Hr0. exact Hin.
  - intros p ->.
    destruct (full_poll_once_batch self eid wt d w w1 _ Hrecv)
      as (r2 & w2 & tr2 & r & w'' & rest & Hscan & Hrun' & Hdel2 & Hc).
    { intros ->. inversion Hin. }
    rewrite Hrun in Hrun'. injection Hrun' as <- <- _.
    destruct r2 as [found | e2]; [| destruct Hc as ([=] & _)].
    destruct Hc as (-> & _ & Hc).
    destruct (last_match eid msgs None) as [m' |] eqn:Hlast;
      [| destruct Hc as (_ & _ & [=])].
    exists m'. split; [reflexivity |]. split; [congruence |].
    destruct (json_loads (Body m')) as [p' | e | text].
    + destruct Hc as (_ & _ & Hr).
      destruct (sqs_delete_message _ _ w2).1; [discriminate |]. congruence.
    + destruct Hc as (_ & _ & Hr). destruct (Hr p eq_refl).
    + destruct Hc as (_ & _ & [=]).
Qed.

End FullBatch.



Lemma at_most_one_match_is_acted_on_witness :
  exists m r w' tr,
    m = Script.tagged "X" "h2" "2" /\
    Full.poll_once Script.client "X" 3 (1 # 2)
      (FullScript.start 0 [inr (Some [Script.tagged "X" "h1" "1";
                                      Script.tagged "X" "h2" "2"])]) = (r, w', tr) /\
    "h1" ∉ Full.deleted tr.
Proof.
  destruct (at_most_one_match_is_acted_on Script.client "X" 3 (1 # 2)
              (FullScript.start 0 [inr (Some [Script.tagged "X" "h1" "1";
                                              Script.tagged "X" "h2" "2"])])
              (FullScript.start 0 [])
              [Script.tagged "X" "h1" "1"; Script.tagged "X" "h2" "2"])
    as (m & r & w' & tr & Hlast & _ & _ & Hrun & _ & _ & Hkeep & _).
  - reflexivity.
  - vm_compute. lia.
  - vm_compute in Hlast. injection Hlast as <-.
    eexists _, r, w', tr. split; [reflexivity |]. split; [exact Hrun |].
    apply (Hkeep (Script.tagged "X" "h1" "1")).
    + rewrite elem_of_cons. now left.
    + discriminate.
Defined.

Lemma message_without_id_is_never_the_match_witness :
  exists r w' tr,
    Full.poll_once Script.client "X" 3 (1 # 2)
      (FullScript.start 0 [inr (Some [Script.bare "h" "1"])]) = (r, w', tr) /\
    last_match "X" [Script.bare "h" "1"] None <> Some (Script.bare "h" "1") /\
    "h" ∈ Full.released tr.
Proof.
  destruct (message_without_id_is_never_the_match Script.client "X" 3 (1 # 2)
              (FullScript.start 0 [inr (Some [Script.bare "h" "1"])])
              (FullScript.start 0 []) [Script.bare "h" "1"] (Script.bare "h" "1"))
    as (_ & _ & Hnot & r & w' & tr & Hrun & Hrel & _).
  - left. reflexivity.
  - reflexivity.
  - rewrite elem_of_cons. now left.
  - exists r, w', tr. split; [exact Hrun |]. split; [exact Hnot |].
    destruct Hrel as [Hrel | (text & h & pre & Hr & _)]; [exact Hrel |].
    pose proof Hrun as E. vm_compute in E. injection E as <- _ _. discriminate.
Defined.

(** C10, the counterexample.  The batch holds a message of another request
    and, behind it, a message without [MessageAttributes].  The release of the
    first raises an exception that is not a [ClientError]: the round ends
    with it, and the message without the identifier is not released. *)
Lemma message_without_id_is_left_unreleased :
  exists w' tr,
    Full.poll_once Script.client "X" 3 (1 # 2)
      (FullScript.faulty 0
         [inr (Some [Script.tagged "Y" "h1" "1"; Script.bare "h2" "1"])]
         None (Some (Full.RaisedOther "Could not connect to the endpoint URL")) None)
    = (Full.Raise (Full.OtherError "Could not connect to the endpoint URL"), w', tr) /\
    MessageAttributes (Script.bare "h2" "1") = None /\
    Full.released tr = ["h1"].
Proof.
  eexists _, _. split; [vm_compute; reflexivity |].
  repeat split.
Qed.

(** ** The matched message *)

Section FullMatch.
Import Full.
Context {W : Type} {sqs : SQS W} {runtime : Runtime W} {json : Json}
        {datetime : Datetime}.

(** C3. For the message [m] the scan of a fetched batch settles on.  If its
    body parses, [delete_message] is called for it once and for nothing else,
    it is not released, and the round returns the parsed body when the delete
    is accepted; when the delete raises, its exception leaves the call and
    the body is not returned.  If [json.loads] raises [JSONDecodeError], [m]
    is released and not deleted, the failure is logged as a warning, and the
    loop goes on to its next turn with the grown delay, unless the release
    raises an exception of a class other than [ClientError].  If [json.loads]
    raises an exception of another class, it leaves the call, and [m] is
    neither released nor deleted. *)
Theorem matched_message_is_deleted_released_or_ends_the_call
    n self eid T wt d (w w1 w2 : W) msgs m tr2 :
  sqs_receive_message (response_queue_url self) 10 wt w = (inr (Some msgs), w1) ->
  scan_messages self eid msgs None w1 = (Ok (Some m), w2, tr2) ->
  exists r w' tr,
    poll_once self eid wt d w = (r, w', tr) /\
    m ∈ msgs /\ id_matches eid m = true /\
    match json_loads (Body m) with
    | Loaded p =>
        deleted tr = [ReceiptHandle m] /\
        released tr = map ReceiptHandle (others eid msgs) /\
        r = match (sqs_delete_message (response_queue_url self)
                     (ReceiptHandle m) w2).1 with
            | None => Ok (Return p)
            | Some err => Raise (exn_of err)
            end
    | JSONDecodeError e =>
        deleted tr = [] /\
        released tr = map ReceiptHandle (others eid msgs) ++ [ReceiptHandle m] /\
        EvLog LogWarning ("Invalid JSON in response: " +:+ e) ∈ tr /\
        match (sqs_change_message_visibility (response_queue_url self)
                 (ReceiptHandle m) 0 w2).1 with
        | Some (RaisedOther text) => r = Raise (OtherError text)
        | _ =>
            r = Ok (Continue (next_poll_delay d)) /\
            ((datetime_now w < T)%Q ->
             wait_loop (S n) self eid T wt d w =
             match wait_loop n self eid T wt (next_poll_delay d) w' with
             | Some (r2, w2, t2) => Some (r2, w2, tr ++ t2)
             | None => None
             end)
        end
    | LoadRaised text =>
        r = Raise (OtherError text) /\
        deleted tr = [] /\
        released tr = map ReceiptHandle (others eid msgs)
    end.
Proof.
  intros Hrecv Hscan.
  destruct (full_scan_messages_ok _ _ _ _ _ _ _ _ Hscan) as (Hlast & Hrel & Hdel).
  symmetry in Hlast.
  destruct (last_match_matches _ _ _ _ Hlast) as [[Hin Hm] | ?]; [| discriminate].
  destruct (full_poll_once_cases self eid wt d w) as (r0 & w1' & Hrecv' & Hc).
  rewrite Hrecv in Hrecv'. injection Hrecv' as <- <-.
  destruct msgs as [| m0 msgs0]; [inversion Hin |].
  change (default [] (Some (m0 :: msgs0))) with (m0 :: msgs0) in Hc.
  cbv beta iota in Hc.
  destruct Hc as (r2 & w2' & tr2' & Hscan' & _ & _ & _ & _ & Hc).
  rewrite Hscan in Hscan'. injection Hscan' as <- <- <-.
  destruct Hc as (_ & _ & Hc). rewrite Hlast in Hc.
  destruct (json_loads (Body m)) as [p | e | text].
  - destruct Hc as (r3 & w3 & Hop & Hc). rewrite Hop. cbn [fst].
    destruct r3 as [err |]; eexists _, _, _; (split; [exact Hc |]);
      repeat (split; [assumption |]); simpl;
      rewrite full_deleted_app, full_released_app, Hdel, Hrel; simpl;
      rewrite ?app_nil_r; auto.
  - destruct Hc as (r3 & w3 & Hop & Hc). rewrite Hop. cbn [fst].
    assert (Hlog : forall rest,
              EvLog LogWarning ("Invalid JSON in response: " +:+ e) ∈
                EvReceive (response_queue_url self) 10 wt (inr (Some (m0 :: msgs0)))
                :: tr2 ++ EvLog LogWarning ("Invalid JSON in response: " +:+ e) :: rest).
    { intros rest. rewrite elem_of_cons. right. rewrite elem_of_app. right.
      rewrite elem_of_cons. now left. }
    destruct r3 as [[err | text] |]; eexists _, _, _; (split; [exact Hc |]);
      repeat (split; [assumption |]);
      (split; [simpl; rewrite full_deleted_app, Hdel; reflexivity |]);
      (split; [simpl; rewrite full_released_app, Hrel; reflexivity |]);
      (split; [apply Hlog |]); try reflexivity;
      (split; [reflexivity |]); intros Hnow; rewrite full_wait_loop_S;
      (destruct (Qlt_le_dec (datetime_now w) T) as [_ | Hge]; [| lra]);
      now rewrite Hc.
  - eexists _, _, _. split; [exact Hc |].
    repeat (split; [assumption |]). simpl. rewrite Hdel, Hrel. auto.
Qed.

End FullMatch.

Lemma matched_message_is_deleted_released_or_ends_the_call_witness :
  exists r w' tr,
    Full.poll_once Script.client "X" 3 (1 # 2)
      (FullScript.start 0 [inr (Some [Script.tagged "X" "h" "zz"])]) = (r, w', tr) /\
    r = Full.Ok (Full.Continue (next_poll_delay (1 # 2))) /\
    Full.deleted tr = [] /\
    Full.released tr = ["h"].
Proof.
  destruct (matched_message_is_deleted_released_or_ends_the_call
              0 Script.client "X" 60 3 (1 # 2)
              (FullScript.start 0 [inr (Some [Script.tagged "X" "h" "zz"])])
              (FullScript.start 0 []) (FullScript.start 0 [])
              [Script.tagged "X" "h" "zz"] (Script.tagged "X" "h" "zz") [])
    as (r & w' & tr & Hrun & _ & _ & Hout).
  - reflexivity.
  - vm_compute. reflexivity.
  - exists r, w', tr. split; [exact Hrun |].
    change (Full.json_loads (Body (Script.tagged "X" "h" "zz")))
      with (Full.JSONDecodeError "Expecting value") in Hout.
    destruct Hout as (Hdel & Hrel & _ & Hr).
    change (Full.sqs_change_message_visibility (response_queue_url Script.client)
              (ReceiptHandle (Script.tagged "X" "h" "zz")) 0 (FullScript.start 0 [])).1
      with (@None Full.raised) in Hr.
    destruct Hr as [Hr _].
    split; [exact Hr |]. split; [exact Hdel |].
    rewrite Hrel. vm_compute. reflexivity.
Defined.

(** C3, the counterexample.  The body of the message with the identifier is
    nested too deep: [json.loads] raises [RecursionError], which
    [except json.JSONDecodeError] does not catch.  The call ends with it at
    its first round, long before the deadline, and the message is neither
    released nor deleted. *)
Lemma parse_failure_ends_the_call :
  exists w' tr,
    Full._wait_for_response (fuel_for 1) Script.client "X" 1 3
      (FullScript.start 0 [inr (Some [Script.tagged "X" "h" "[[[["])])
    = Some (Full.Raise (Full.OtherError
        "maximum recursion depth exceeded while decoding a JSON array from a unicode string"),
            w', tr) /\
    Full.released tr = [] /\ Full.deleted tr = [] /\ FullScript.clock w' = 0%Q.
Proof.
  eexists _, _. split; [vm_compute; reflexivity |]. repeat split.
Qed.

(** ** Sending a request *)

Section FullSend.
Import Full.
Context {W : Type} {sqs : SQS W} {runtime : Runtime W} {json : Json}
        {datetime : Datetime}.

(** What [send_request] gives, by what its publish does. *)
Lemma full_send_request_cases fuel self op params tm wt (w : W) :
  let eid := (uuid4 w).1 in
  let w0 := (uuid4 w).2 in
  let request := build_request op eid (isoformat (datetime_now w0)) params in
  let log1 := EvLog LogInfo
    ("Sending request " +:+ eid +:+ " for operation '" +:+ op +:+ "'") in
  match json_dumps request with
  | inl text =>
      publish_answer self op params w = Some (OtherError text) /\
      send_request fuel self op params tm wt w =
        Some (Raise (OtherError text), w0, [log1])
  | inr body =>
      let sent := sqs_send_message (request_queue_url self) body w0 in
      match sent.1 with
      | Some err =>
          publish_answer self op params w = Some (exn_of err) /\
          send_request fuel self op params tm wt w =
            Some (Raise (match err with
                         | RaisedClientError e =>
                             SQSClientError
                               ("Failed to send request: " +:+ client_error_text e)
                         | RaisedOther text => OtherError text
                         end),
                  sent.2, [log1; EvSend (request_queue_url self) request (Some err)])
      | None =>
          publish_answer self op params w = None /\
          send_request fuel self op params tm wt w =
            match _wait_for_response fuel self eid tm wt sent.2 with
            | Some (r, w2, t2) =>
                Some (r, w2,
                      log1 :: EvSend (request_queue_url self) request None
                           :: EvLog LogInfo ("Waiting for response to " +:+ eid) :: t2)
            | None => None
            end
      end
  end.
Proof.
  cbv zeta. unfold publish_answer, send_request, prepare_request, send_message.
  destruct (uuid4 w) as [eid w0]. simpl.
  destruct (json_dumps _) as [text | body]; [split; reflexivity |].
  destruct (sqs_send_message _ _ w0) as [[[e | text] |] w1]; simpl; split; reflexivity.
Qed.

(** What [_wait_for_response] raises. *)
Lemma full_wait_for_response_raise fuel self eid tm wt (w : W) e w' tr :
  _wait_for_response fuel self eid tm wt w = Some (Raise e, w', tr) ->
  (e = SQSTimeoutError (timeout_text eid) /\
   exists T, deadline w tm = Some T /\ (T <= datetime_now w')%Q) \/
  (exists err h pre,
     e = BotoClientError err /\
     tr = pre ++ [EvDelete (response_queue_url self) h (Some (RaisedClientError err))]) \/
  (exists text,
     e = OtherError text /\
     ((deadline w tm = None /\ text = overflow_text tm /\ tr = []) \/
      (exists ev pre, tr = pre ++ [ev] /\ raised_other ev = Some text) \/
      (exists m, m ∈ observed tr /\ id_matches eid m = true /\
                 json_loads (Body m) = LoadRaised text))).
Proof.
  unfold _wait_for_response. intros H.
  destruct (deadline w tm) as [T |] eqn:ET.
  2: { injection H as <- <- <-. right. right. eexists. split; [reflexivity |]. now left. }
  pose proof H as H'.
  apply full_wait_loop_raise in H
    as [-> | [(h & err & pre & -> & ->) |
              [(text & ev & pre & -> & -> & Hev) | (text & m & -> & Hm & Hid & Hj)]]].
  - left. split; [reflexivity |]. exists T. split; [reflexivity |].
    now apply full_wait_loop_timeout in H'.
  - destruct err as [err | text].
    + right. left. now exists err, h, pre.
    + right. right. exists text. split; [reflexivity |]. right. left.
      eexists _, pre. split; reflexivity.
  - right. right. exists text. split; [reflexivity |]. right. left. eauto.
  - right. right. exists text. split; [reflexivity |]. right. right. eauto.
Qed.

Lemma full_wait_loop_sent n self eid T wt d (w : W) r w' tr :
  wait_loop n self eid T wt d w = Some (r, w', tr) -> sent tr = [].
Proof.
  revert d w r w' tr.
  induction n as [| n IH]; intros d w r w' tr H; [discriminate |].
  rewrite full_wait_loop_S in H.
  destruct (Qlt_le_dec (datetime_now w) T); [| now injection H as <- <- <-].
  destruct (poll_once self eid wt d w) as [[r1 w1] t1] eqn:E1.
  assert (Hs1 : sent t1 = []).
  { full_split_round self eid wt d w E1; simpl;
      rewrite ?full_sent_app, ?Hsent; reflexivity. }
  destruct r1 as [[d' | p] | e].
  - destruct (wait_loop n self eid T wt d' w1) as [[[r2 w2] t2] |] eqn:E2;
      [| discriminate].
    injection H as <- <- <-. apply IH in E2.
    now rewrite full_sent_app, Hs1, E2.
  - injection H as <- <- <-. exact Hs1.
  - injection H as <- <- <-. exact Hs1.
Qed.

Lemma full_wait_for_response_quiet fuel self eid tm wt (w : W) r w' tr :
  _wait_for_response fuel self eid tm wt w = Some (r, w', tr) -> sent tr = [].
Proof.
  unfold _wait_for_response.
  destruct (deadline w tm); [| now intros [= <- <- <-]].
  intros H. now apply full_wait_loop_sent in H.
Qed.

Lemma full_wait_for_response_return fuel self eid tm wt (w : W) p w' tr :
  _wait_for_response fuel self eid tm wt w = Some (Ok p, w', tr) ->
  exists m, m ∈ observed tr /\ id_matches eid m = true /\
            json_loads (Body m) = Loaded p.
Proof.
  unfold _wait_for_response.
  destruct (deadline w tm); [| discriminate].
  apply full_wait_loop_return.
Qed.

End FullSend.

Section FullSendClaims.
Import Full.
Context {W : Type} {sqs : SQS W} {runtime : Runtime W} {json : Json}
        {datetime : Datetime}.

(** C6. [send_request] raises [SQSClientError] with the text "Failed to
    send request: ..." exactly when the publish raises a [ClientError];
    nothing is then fetched.  A publish that raises an exception of another
    class is not wrapped: that exception leaves [send_request] as it is, and
    [handle_error] reports it as unexpected.  [handle_error] reports an
    exception of [send_request] as a communication error exactly when the
    publish raised a [ClientError], and as a timeout exactly when it is an
    [SQSTimeoutError], although the second class is a subclass of the first. *)
Theorem send_wraps_client_error_of_publish fuel self op params tm wt (w : W) r w' tr :
  send_request fuel self op params tm wt w = Some (r, w', tr) ->
  ((exists msg, r = Raise (SQSClientError msg)) <->
   exists err, publish_answer self op params w = Some (BotoClientError err)) /\
  (forall err, publish_answer self op params w = Some (BotoClientError err) ->
     r = Raise (SQSClientError ("Failed to send request: " +:+ client_error_text err)) /\
     observed tr = [] /\ deleted tr = [] /\ sleeps tr = []) /\
  (forall text, publish_answer self op params w = Some (OtherError text) ->
     r = Raise (OtherError text) /\
     handle_error (OtherError text) = ReportUnexpected /\
     observed tr = [] /\ deleted tr = [] /\ sleeps tr = []) /\
  (forall e, r = Raise e ->
     (handle_error e = ReportCommunication <->
      exists err, publish_answer self op params w = Some (BotoClientError err)) /\
     (handle_error e = ReportTimedOut <-> exists msg, e = SQSTimeoutError msg)) /\
  (forall msg, isinstance (SQSTimeoutError msg) ClsSQSClientError = true).
Proof.
  intros H.
  pose proof (full_send_request_cases fuel self op params tm wt w) as Hc.
  cbv zeta in Hc.
  destruct (json_dumps _) as [text | body].
  { destruct Hc as [-> Hc]. rewrite Hc in H. injection H as <- <- <-.
    split; [split; [intros [msg [=]] | intros [err [=]]] |].
    split; [intros err [=] |].
    split; [intros text' [= <-]; repeat split |].
    split; [| reflexivity].
    intros e [= <-]. split; split; try discriminate.
    - intros [err [=]].
    - intros [msg [=]]. }
  destruct (sqs_send_message _ _ (uuid4 w).2) as [[[err | text] |] w1];
    simpl in Hc; destruct Hc as [-> Hc]; rewrite Hc in H.
  - injection H as <- <- <-.
    split; [split; eauto |].
    split; [intros err' [= <-]; repeat split |].
    split; [intros text' [=] |].
    split; [| reflexivity].
    intros e [= <-]. split; split; try discriminate; try reflexivity; eauto.
    intros [msg [=]].
  - injection H as <- <- <-.
    split; [split; [intros [msg [=]] | intros [err [=]]] |].
    split; [intros err [=] |].
    split; [intros text' [= <-]; repeat split |].
    split; [| reflexivity].
    intros e [= <-]. split; split; try discriminate.
    + intros [err [=]].
    + intros [msg [=]].
  - destruct (_wait_for_response fuel self (uuid4 w).1 tm wt w1)
      as [[[r2 w2] t2] |] eqn:E; [| discriminate].
    injection H as <- <- <-.
    split.
    { split; [| intros [err [=]]]. intros [msg ->].
      apply full_wait_for_response_raise in E
        as [([=] & _) | [(err & h & pre & [=] & _) | (text & [=] & _)]]. }
    split; [intros err [=] |].
    split; [intros text [=] |].
    split; [| reflexivity].
    intros e ->.
    apply full_wait_for_response_raise in E
      as [(-> & _) | [(err & h & pre & -> & _) | (text & -> & _)]];
      split; split; try discriminate; eauto;
      try (intros [err' [=]]); try (intros [msg [=]]).
Qed.

End FullSendClaims.

Lemma send_wraps_client_error_of_publish_witness :
  exists w' tr,
    Full.send_request 0 Script.client "tws_health" None 2 3
      (FullScript.faulty 0 []
         (Some (Full.RaisedClientError {| client_error_text := "AccessDenied" |}))
         None None)
    = Some (Full.Raise (Full.SQSClientError "Failed to send request: AccessDenied"),
            w', tr) /\
    Full.observed tr = [].
Proof.
  destruct (Full.send_request 0 Script.client "tws_health" None 2 3
      (FullScript.faulty 0 []
         (Some (Full.RaisedClientError {| client_error_text := "AccessDenied" |}))
         None None))
    as [[[r w'] tr] |] eqn:E; [| vm_compute in E; discriminate].
  destruct (send_wraps_client_error_of_publish _ _ _ _ _ _ _ _ _ _ E)
    as (_ & Hfail & _).
  destruct (Hfail {| client_error_text := "AccessDenied" |}) as (-> & Hobs & _);
    [reflexivity |].
  exists w', tr. split; [reflexivity | exact Hobs].
Defined.

(** C6, the counterexample.  The publish fails at the transport with an
    exception that is not a [ClientError]: [send_request] raises it as it is,
    not as an [SQSClientError], and [handle_error] reports an unexpected
    error, not a communication error. *)
Lemma publish_failure_is_not_wrapped :
  exists w' tr,
    Full.send_request 0 Script.client "tws_health" None 2 3
      (FullScript.faulty 0 []
         (Some (Full.RaisedOther "Could not connect to the endpoint URL")) None None)
    = Some (Full.Raise (Full.OtherError "Could not connect to the endpoint URL"),
            w', tr) /\
    Full.sent tr <> [] /\
    Full.isinstance (Full.OtherError "Could not connect to the endpoint URL")
      ClsSQSClientError = false /\
    Full.handle_error (Full.OtherError "Could not connect to the endpoint URL")
      = ReportUnexpected.
Proof.
  eexists _, _. split; [vm_compute; reflexivity |].
  split; [discriminate |]. split; reflexivity.
Qed.

(** ** Identifiers across a call *)

Section FullIssued.
Import Full.
Context {W : Type} {sqs : SQS W} {runtime : Runtime W} {json : Json}
        {datetime : Datetime} {uuid_laws : UuidLaws W}.

Lemma full_scan_messages_issued self eid msgs acc (w : W) r w' tr :
  scan_messages self eid msgs acc w = (r, w', tr) -> issued w' = issued w.
Proof.
  revert acc w r w' tr.
  induction msgs as [| m msgs IH]; intros acc w r w' tr; simpl.
  - unfold ret. now intros [= <- <- <-].
  - destruct (id_matches eid m); [apply IH |].
    rewrite full_bind_run.
    destruct (full_release_cases self m w) as (r3 & w3 & E3 & ->).
    pose proof (visibility_issued (response_queue_url self) (ReceiptHandle m) 0 w) as Hv.
    rewrite E3 in Hv. simpl in Hv.
    destruct r3 as [[err | text] |]; try (intros [= <- <- <-]; exact Hv);
      destruct (scan_messages self eid msgs acc w3) as [[r2 w2] t2] eqn:E;
      intros [= <- <- <-]; apply IH in E; congruence.
Qed.

Lemma full_poll_once_issued self eid wt d (w : W) r w' tr :
  poll_once self eid wt d w = (r, w', tr) -> issued w' = issued w.
Proof.
  intros H.
  pose proof (receive_issued (response_queue_url self) 10 wt w) as H1.
  full_round_cases self eid wt d w; rewrite Hrecv in H1; simpl in H1;
    try (apply full_scan_messages_issued in Hscan);
    try (pose proof (visibility_issued (response_queue_url self) (ReceiptHandle m) 0 w2) as H3;
         rewrite Hop in H3; simpl in H3);
    try (pose proof (delete_issued (response_queue_url self) (ReceiptHandle m) w2) as H3;
         rewrite Hop in H3; simpl in H3);
    rewrite Hc in H; injection H as <- <- <-;
    rewrite ?sleep_issued; congruence.
Qed.

Lemma full_wait_loop_issued n self eid T wt d (w : W) r w' tr :
  wait_loop n self eid T wt d w = Some (r, w', tr) -> issued w' = issued w.
Proof.
  revert d w r w' tr.
  induction n as [| n IH]; intros d w r w' tr H; [discriminate |].
  rewrite full_wait_loop_S in H.
  destruct (Qlt_le_dec (datetime_now w) T); [| now injection H as <- <- <-].
  destruct (poll_once self eid wt d w) as [[r1 w1] t1] eqn:E1.
  apply full_poll_once_issued in E1.
  destruct r1 as [[d' | p] | e].
  - destruct (wait_loop n self eid T wt d' w1) as [[[r2 w2] t2] |] eqn:E2;
      [| discriminate].
    injection H as <- <- <-. apply IH in E2. congruence.
  - injection H as <- <- <-. exact E1.
  - injection H as <- <- <-. exact E1.
Qed.

(** A call of [send_request] issues one identifier, that of [uuid4]. *)
Lemma full_send_request_issued fuel self op params tm wt (w : W) r w' tr :
  send_request fuel self op params tm wt w = Some (r, w', tr) ->
  issued w' = {[ (uuid4 w).1 ]} ∪ issued w.
Proof.
  intros H.
  pose proof (full_send_request_cases fuel self op params tm wt w) as Hc.
  cbv zeta in Hc.
  destruct (json_dumps _) as [text | body].
  { destruct Hc as [_ Hc]. rewrite Hc in H. injection H as <- <- <-.
    apply uuid4_issued. }
  pose proof (send_issued (request_queue_url self) body (uuid4 w).2) as Hs.
  destruct (sqs_send_message _ _ (uuid4 w).2) as [[err |] w1]; simpl in Hc, Hs;
    destruct Hc as [_ Hc]; rewrite Hc in H.
  - injection H as <- <- <-. rewrite Hs. apply uuid4_issued.
  - destruct (_wait_for_response fuel self (uuid4 w).1 tm wt w1)
      as [[[r2 w2] t2] |] eqn:E; [| discriminate].
    injection H as <- <- <-.
    assert (Hw : issued w2 = issued w1).
    { unfold _wait_for_response in E. destruct (deadline w1 tm).
      - now apply full_wait_loop_issued in E.
      - now injection E as <- <- <-. }
    rewrite Hw, Hs. apply uuid4_issued.
Qed.

(** What a call of [send_request] publishes: nothing when [json.dumps]
    raises, and else the request it has built, once. *)
Lemma full_send_request_sent fuel self op params tm wt (w : W) r w' tr :
  send_request fuel self op params tm wt w = Some (r, w', tr) ->
  let request := build_request op (uuid4 w).1 (isoformat (datetime_now (uuid4 w).2))
                   params in
  match json_dumps request with
  | inl text => sent tr = [] /\ r = Raise (OtherError text)
  | inr _ => sent tr = [request]
  end.
Proof.
  intros H.
  pose proof (full_send_request_cases fuel self op params tm wt w) as Hc.
  cbv zeta in *.
  destruct (json_dumps _) as [text | body].
  { destruct Hc as [_ Hc]. rewrite Hc in H. injection H as <- <- <-. split; reflexivity. }
  destruct (sqs_send_message _ _ (uuid4 w).2) as [[err |] w1]; simpl in Hc;
    destruct Hc as [_ Hc]; rewrite Hc in H.
  - injection H as <- <- <-. reflexivity.
  - destruct (_wait_for_response fuel self (uuid4 w).1 tm wt w1)
      as [[[r2 w2] t2] |] eqn:E; [| discriminate].
    injection H as <- <- <-. apply full_wait_for_response_quiet in E. simpl.
    now rewrite E.
Qed.

(** What a call of [send_request] waits for. *)
Lemma full_send_request_waits fuel self op params tm wt (w : W) r w' tr :
  send_request fuel self op params tm wt w = Some (r, w', tr) ->
  (forall msg, r = Raise (SQSTimeoutError msg) -> msg = timeout_text (uuid4 w).1) /\
  (forall p, r = Ok p ->
     exists m, m ∈ observed tr /\ msg_execution_id m = Some (uuid4 w).1 /\
               json_loads (Body m) = Loaded p).
Proof.
  intros H.
  pose proof (full_send_request_cases fuel self op params tm wt w) as Hc.
  cbv zeta in Hc.
  destruct (json_dumps _) as [text | body].
  { destruct Hc as [_ Hc]. rewrite Hc in H. injection H as <- <- <-.
    split; discriminate. }
  destruct (sqs_send_message _ _ (uuid4 w).2) as [[err |] w1]; simpl in Hc;
    destruct Hc as [_ Hc]; rewrite Hc in H.
  - injection H as <- <- <-. split; [destruct err |]; discriminate.
  - destruct (_wait_for_response fuel self (uuid4 w).1 tm wt w1)
      as [[[r2 w2] t2] |] eqn:E; [| discriminate].
    injection H as <- <- <-. split.
    + intros msg ->.
      apply full_wait_for_response_raise in E
        as [([= ->] & _) | [(err & h & pre & [=] & _) | (text & [=] & _)]].
      reflexivity.
    + intros p ->.
      apply full_wait_for_response_return in E as (m & Hm & Hid & Hp).
      exists m. split; [exact Hm |]. split; [| exact Hp].
      unfold id_matches in Hid. now apply bool_decide_eq_true in Hid.
Qed.

End FullIssued.

Section FullEnvelope.
Import Full.
Context {W : Type} {sqs : SQS W} {runtime : Runtime W} {json : Json}
        {datetime : Datetime}.


End FullEnvelope.

(** The scripted world never repeats an identifier. *)
#[global] Instance full_script_uuid_laws : Full.UuidLaws FullScript.world.
Proof.
  refine {| Full.issued := fun w =>
              list_to_set ((fun k : nat => "uuid-" +:+ pretty k)
                             <$> seq 0 (FullScript.counter w)) |}.
  - intros w. simpl. rewrite elem_of_list_to_set, list_elem_of_fmap.
    intros (k & Heq & Hk). apply (inj (String.app "uuid-")) in Heq.
    apply (inj pretty) in Heq. apply elem_of_seq in Hk. lia.
  - intros w. cbn -[seq]. rewrite seq_S, fmap_app, list_to_set_app_L. cbn -[seq].
    rewrite union_empty_r_L. apply union_comm_L.
  - reflexivity.
  - intros q n t w. simpl. unfold FullScript.pop. destruct (FullScript.inbox w); reflexivity.
  - reflexivity.
  - reflexivity.
  - reflexivity.
Qed.


(** ** The tools, when a call raises an exception of any class *)

Lemma full_client_events_app t1 t2 :
  Full.client_events (t1 ++ t2) = Full.client_events t1 ++ Full.client_events t2.
Proof. apply omap_app. Qed.

Lemma full_client_events_map tr : Full.client_events (map Full.SvClient tr) = tr.
Proof. induction tr as [| e tr IH]; simpl; [reflexivity | now rewrite IH]. Qed.

Section FullTools.
Import Full.
Context {W : Type} {sqs : SQS W} {runtime : Runtime W} {json : Json}
        {datetime : Datetime} {format : Format}.

Lemma full_dispatch_plan fuel client name arguments (w : W) :
  dispatch fuel client name arguments w =
  match plan_of name arguments with
  | Refuse text => Some (Ok text, w, [])
  | Ask title op params tm => answered title (send_request fuel client op params tm 3 w)
  end.
Proof.
  unfold dispatch, plan_of.
  repeat (case_decide; [reflexivity |]).
  case_decide.
  { destruct (negb (truthy (default (PStr "") (arguments !! "query")))); reflexivity. }
  case_decide.
  { destruct (arguments !! "contract_id") as [[] |]; reflexivity. }
  case_decide; [| reflexivity].
  destruct (negb (truthy (default (PList []) (arguments !! "symbols")))); reflexivity.
Qed.

Lemma full_call_tool_run fuel name arguments environ cache (w : W) res cache' w' tr :
  call_tool fuel name arguments environ cache w = Some (res, cache', w', tr) ->
  (exists e, get_sqs_client environ cache = (inl e, None) /\
             res = inl e /\ cache' = None /\ w' = w /\ tr = []) \/
  (exists client,
     get_sqs_client environ cache = (inr client, Some client) /\ cache' = Some client /\
     match plan_of name arguments with
     | Refuse text => res = inr text /\ w' = w /\ tr = []
     | Ask title op params tm =>
         exists r tr0,
           send_request fuel client op params tm 3 w = Some (r, w', tr0) /\
           match r with
           | Ok data =>
               res = inr (title +:+ format_response data) /\ tr = map SvClient tr0
           | Raise e =>
               res = inr (report_text (handle_error e) (exn_text e)) /\
               tr = map SvClient tr0 ++ [SvLogException ("Error calling tool " +:+ name)]
           end
     end).
Proof.
  intros H. unfold call_tool in H.
  pose proof (get_sqs_client_cases environ cache) as Hg.
  assert (Hinr : forall client,
    get_sqs_client environ cache = (inr client, Some client) ->
    exists client0,
      get_sqs_client environ cache = (inr client0, Some client0) /\ cache' = Some client0 /\
      match plan_of name arguments with
      | Refuse text => res = inr text /\ w' = w /\ tr = []
      | Ask title op params tm =>
          exists r tr0,
            send_request fuel client0 op params tm 3 w = Some (r, w', tr0) /\
            match r with
            | Ok data =>
                res = inr (title +:+ format_response data) /\ tr = map SvClient tr0
            | Raise e =>
                res = inr (report_text (handle_error e) (exn_text e)) /\
                tr = map SvClient tr0 ++ [SvLogException ("Error calling tool " +:+ name)]
            end
      end).
  { intros client Hgc. rewrite Hgc in H. rewrite full_dispatch_plan in H.
    exists client. split; [exact Hgc |].
    destruct (plan_of name arguments) as [text | title op params tm].
    - injection H as <- <- <- <-. repeat split.
    - unfold answered in H.
      destruct (send_request fuel client op params tm 3 w) as [[[[data | e] w1] tr0] |];
        [| | discriminate]; injection H as <- <- <- <-;
        (split; [reflexivity |]); eexists _, _; (split; [reflexivity |]); split; reflexivity. }
  destruct cache as [client |]; [right; now apply (Hinr client) |].
  destruct (unset _ || unset _).
  - rewrite Hg in H. injection H as <- <- <- <-. left. eauto 10.
  - destruct Hg as (rq & rs & _ & _ & _ & _ & Hg). right. now apply (Hinr _ Hg).
Qed.

(** The ways a call of [send_request] can raise. *)
Lemma full_send_request_raise fuel self op params tm wt (w : W) e w' tr :
  send_request fuel self op params tm wt w = Some (Raise e, w', tr) ->
  let request := build_request op (uuid4 w).1 (isoformat (datetime_now (uuid4 w).2))
                   params in
  (exists err,
     e = SQSClientError ("Failed to send request: " +:+ client_error_text err) /\
     EvSend (request_queue_url self) request (Some (RaisedClientError err)) ∈ tr /\
     observed tr = []) \/
  (e = SQSTimeoutError (timeout_text (uuid4 w).1) /\
   exists body T,
     json_dumps request = inr body /\
     deadline (sqs_send_message (request_queue_url self) body (uuid4 w).2).2 tm = Some T /\
     (T <= datetime_now w')%Q) \/
  (exists err h,
     e = BotoClientError err /\
     EvDelete (response_queue_url self) h (Some (RaisedClientError err)) ∈ tr /\
     h ∈ deleted tr) \/
  (exists text,
     e = OtherError text /\
     ((json_dumps request = inl text /\ sent tr = []) \/
      (exists ev, ev ∈ tr /\ raised_other ev = Some text) \/
      (exists m, m ∈ observed tr /\ id_matches (uuid4 w).1 m = true /\
                 json_loads (Body m) = LoadRaised text) \/
      text = overflow_text tm)).
Proof.
  intros H request.
  pose proof (full_send_request_cases fuel self op params tm wt w) as Hc.
  cbv zeta in Hc. fold request in Hc.
  destruct (json_dumps request) as [text | body].
  { destruct Hc as [_ Hc]. rewrite Hc in H. injection H as <- <- <-.
    right. right. right. exists text. split; [reflexivity |]. left. now split. }
  destruct (sqs_send_message (request_queue_url self) body (uuid4 w).2)
    as [[[err | text] |] w1] eqn:Es; simpl in Hc; destruct Hc as [_ Hc];
    rewrite Hc in H.
  - injection H as <- <- <-. left. exists err.
    repeat split. rewrite !elem_of_cons. auto.
  - injection H as <- <- <-. right. right. right. exists text.
    split; [reflexivity |]. right. left.
    eexists. split; [rewrite !elem_of_cons; right; left; reflexivity | reflexivity].
  - destruct (_wait_for_response fuel self (uuid4 w).1 tm wt w1)
      as [[[r2 w2] t2] |] eqn:E; [| discriminate].
    injection H as -> <- <-.
    apply full_wait_for_response_raise in E
      as [(-> & T & HT & Hlate) | [(err & h & pre & -> & ->) | (text & -> & Hcause)]].
    + right. left. split; [reflexivity |]. exists body, T.
      rewrite ?Es. simpl. auto.
    + right. right. left. exists err, h. split; [reflexivity |]. split.
      * rewrite !elem_of_cons, elem_of_app, list_elem_of_singleton. auto.
      * simpl. rewrite full_deleted_app, elem_of_app. right. simpl.
        now apply list_elem_of_singleton.
    + right. right. right. exists text. split; [reflexivity |]. right.
      destruct Hcause as [(_ & -> & _) | [(ev & pre & -> & Hev) | (m & Hm & Hid & Hj)]].
      * right. now right.
      * left. exists ev. split; [| exact Hev].
        rewrite !elem_of_cons, elem_of_app, list_elem_of_singleton. auto.
      * right. left. exists m. repeat split; auto.
Qed.

(** X14.  A call of a tool logs an exception only when its request to the
    client has raised, and it then still answers with a text, one of four.
    A publish that raises a [ClientError] gives the communication text with
    the words of the transport, and nothing has been fetched.  A wait that
    ends without an answer gives the timeout text with the identifier of the
    request, and the clock then reads the deadline or later.  A delete of the
    response that raises a [ClientError] gives the text of an unexpected
    error: the response itself is not handed to the caller.  An exception of
    another class gives the text of an unexpected error with its own words:
    [json.dumps] raised it and nothing was published, a call of the transport
    raised it, [json.loads] raised it on the response, or it is the
    [OverflowError] of the deadline. *)
Theorem tool_failure_is_reported fuel name arguments environ cache (w : W)
    res cache' w' tr msg :
  call_tool fuel name arguments environ cache w = Some (res, cache', w', tr) ->
  SvLogException msg ∈ tr ->
  msg = "Error calling tool " +:+ name /\
  exists client op tm request,
    cache' = Some client /\ (name, (op, tm)) ∈ tool_operations /\
    match json_dumps request with
    | inl _ => sent (client_events tr) = []
    | inr _ => sent (client_events tr) = [request]
    end /\
    ((exists err,
        SvClient (EvSend (request_queue_url client) request
                    (Some (RaisedClientError err))) ∈ tr /\
        res = inr (report_text ReportCommunication
                     ("Failed to send request: " +:+ client_error_text err)) /\
        observed (client_events tr) = []) \/
     (res = inr (report_text ReportTimedOut
                   ("Timeout waiting for response. Execution ID: " +:+ (uuid4 w).1)) /\
      exists body T,
        json_dumps request = inr body /\
        deadline (sqs_send_message (request_queue_url client) body (uuid4 w).2).2 tm
          = Some T /\
        (T <= datetime_now w')%Q) \/
     (exists err h,
        SvClient (EvDelete (response_queue_url client) h
                    (Some (RaisedClientError err))) ∈ tr /\
        h ∈ deleted (client_events tr) /\
        res = inr (report_text ReportUnexpected (client_error_text err))) \/
     (exists text,
        res = inr (report_text ReportUnexpected text) /\
        ((json_dumps request = inl text /\ sent (client_events tr) = []) \/
         (exists ev, SvClient ev ∈ tr /\ raised_other ev = Some text) \/
         (exists m, m ∈ observed (client_events tr) /\
                    id_matches (uuid4 w).1 m = true /\
                    json_loads (Body m) = LoadRaised text) \/
         text = overflow_text tm))).
Proof.
  intros H Hlog.
  apply full_call_tool_run in H as [(e & _ & _ & _ & _ & ->) | (client & _ & -> & H)];
    [inversion Hlog |].
  destruct (plan_of name arguments) as [text | title op params tm] eqn:Eplan;
    [destruct H as (_ & _ & ->); inversion Hlog |].
  destruct H as (r & tr0 & Hrun & H).
  apply plan_of_ask in Eplan as (Htool & _ & _).
  destruct r as [data | e]; destruct H as [-> ->].
  { apply list_elem_of_fmap in Hlog as (ev & [=] & _). }
  apply elem_of_app in Hlog as [Hlog | Hlog];
    [apply list_elem_of_fmap in Hlog as (ev & [=] & _) |].
  apply list_elem_of_singleton in Hlog as [= ->].
  split; [reflexivity |].
  exists client, op, tm,
    (build_request op (uuid4 w).1 (isoformat (datetime_now (uuid4 w).2)) params).
  split; [reflexivity |]. split; [exact Htool |].
  assert (Hev : client_events
                  (map SvClient tr0 ++ [SvLogException ("Error calling tool " +:+ name)])
                = tr0).
  { rewrite full_client_events_app, full_client_events_map. simpl. apply app_nil_r. }
  rewrite Hev.
  split.
  { pose proof (full_send_request_sent _ _ _ _ _ _ _ _ _ _ Hrun) as Hs.
    cbv zeta in Hs. destruct (json_dumps _); [apply Hs | exact Hs]. }
  apply full_send_request_raise in Hrun. cbv zeta in Hrun.
  destruct Hrun as [(err & -> & Hsent & Hobs) |
                    [(-> & Hlate) |
                     [(err & h & -> & Hdel & Hh) | (text & -> & Hcause)]]].
  - left. exists err. split; [| split; [reflexivity | exact Hobs]].
    apply elem_of_app. left. apply list_elem_of_fmap. eauto.
  - right. left. split; [reflexivity | exact Hlate].
  - right. right. left. exists err, h. split; [| split; [exact Hh | reflexivity]].
    apply elem_of_app. left. apply list_elem_of_fmap. eauto.
  - right. right. right. exists text. split; [reflexivity |].
    destruct Hcause as [? | [(ev & Hin & Hev') | [? | ?]]]; auto.
    right. left. exists ev. split; [| exact Hev'].
    apply elem_of_app. left. apply list_elem_of_fmap. eauto.
Qed.

End FullTools.

Lemma tool_failure_is_reported_witness :
  exists cache' w' tr,
    Full.call_tool 0 "ibkr_health" ∅ ∅ (Some Script.client)
      (FullScript.faulty 0 []
         (Some (Full.RaisedOther "Could not connect to the endpoint URL")) None None)
    = Some (inr "Unexpected error: Could not connect to the endpoint URL",
            cache', w', tr) /\
    Full.SvLogException "Error calling tool ibkr_health" ∈ tr /\
    exists client op tm,
      cache' = Some client /\ ("ibkr_health", (op, tm)) ∈ tool_operations.
Proof.
  destruct (Full.call_tool 0 "ibkr_health" ∅ ∅ (Some Script.client)
      (FullScript.faulty 0 []
         (Some (Full.RaisedOther "Could not connect to the endpoint URL")) None None))
    as [[[[res cache'] w'] tr] |] eqn:E; [| vm_compute in E; discriminate].
  assert (Hlog : Full.SvLogException "Error calling tool ibkr_health" ∈ tr).
  { pose proof E as E'. vm_compute in E'. injection E' as <- <- <- <-.
    rewrite !elem_of_cons. auto. }
  assert (Hres : res = inr "Unexpected error: Could not connect to the endpoint URL").
  { pose proof E as E'. vm_compute in E'. injection E' as <- <- <- <-. reflexivity. }
  destruct (tool_failure_is_reported _ _ _ _ _ _ _ _ _ _ _ E Hlog)
    as (_ & client & op & tm & request & Hcache & Htool & _).
  subst res. exists cache', w', tr. split; [reflexivity |]. split; [exact Hlog |].
  exists client, op, tm. auto.
Defined.

(** ** The first definitions inside [Full] *)

Section Lift.
Context {W : Type} {sqs : SQS W} {runtime : Runtime W} {json : Json}
        {datetime : Full.Datetime}.

#[local] Existing Instance lift_sqs | 0.
#[local] Existing Instance lift_json | 0.

Lemma lift_scan_messages self eid msgs acc (w : W) :
  Full.scan_messages self eid msgs acc w =
  let '(r, w', tr) := scan_messages self eid msgs acc w in
  (lift_outcome r, w', lift_event <$> tr).
Proof.
  revert acc w. induction msgs as [| m msgs IH]; intros acc w; simpl; [reflexivity |].
  destruct (id_matches eid m); [apply IH |].
  unfold Full.bind, bind, Full.release, release. simpl.
  destruct (sqs_change_message_visibility _ _ _ w) as [[e |] w1]; simpl;
    rewrite IH; destruct (scan_messages self eid msgs acc w1) as [[r w2] t2];
    reflexivity.
Qed.

Lemma lift_poll_once self eid wt d (w : W) :
  Full.poll_once self eid wt d w =
  let '(r, w', tr) := poll_once self eid wt d w in
  (match r with
   | Ok c => Full.Ok (lift_ctl c)
   | Raise e => Full.Raise (lift_exn e)
   end, w', lift_event <$> tr).
Proof.
  unfold Full.poll_once, poll_once, Full.bind, bind, Full.receive_message,
    receive_message. simpl.
  destruct (sqs_receive_message _ _ _ w) as [[e | resp] w1]; simpl; [reflexivity |].
  destruct (default [] resp) as [| m0 msgs0]; [reflexivity |].
  rewrite lift_scan_messages.
  destruct (scan_messages self eid (m0 :: msgs0) None w1) as [[[found | e] w2] tr2];
    simpl; [| reflexivity].
  destruct found as [m |]; simpl; [| now rewrite fmap_app].
  unfold Full.handle_match, handle_match. simpl.
  destruct (json_loads (Body m)) as [e | p]; simpl.
  - unfold Full.bind, bind, Full.release, release. simpl.
    destruct (sqs_change_message_visibility _ _ _ w2) as [[e3 |] w3]; simpl;
      now rewrite fmap_app.
  - unfold Full.bind, bind, Full.delete, delete. simpl.
    destruct (sqs_delete_message _ _ w2) as [[e3 |] w3]; simpl;
      now rewrite fmap_app.
Qed.

Lemma lift_wait_loop n self eid T wt d (w : W) :
  Full.wait_loop n self eid T wt d w = lift_run (wait_loop n self eid T wt d w).
Proof.
  revert d w. induction n as [| n IH]; intros d w; [reflexivity |].
  rewrite full_wait_loop_S, wait_loop_S.
  destruct (Qlt_le_dec (datetime_now w) T); [| reflexivity].
  rewrite lift_poll_once.
  destruct (poll_once self eid wt d w) as [[[[d' | p] | e] w1] t1]; simpl;
    try reflexivity.
  rewrite IH.
  destruct (wait_loop n self eid T wt d' w1) as [[[r2 w2] t2] |]; simpl;
    [| reflexivity].
  now rewrite fmap_app.
Qed.

End Lift.

Section LiftTheorems.
Context {W : Type} {sqs : SQS W} {runtime : Runtime W} {json : Json}
        {datetime : Full.Datetime}.


End LiftTheorems.


(** ** The rate limiter on floats *)

Section FloatLimiter.
Import OnFloats.
Context {F : Float} {W : Type} {monotonic : Monotonic W}.

Lemma float_acquire_cases (self : RateLimiter) (w : W) :
  let elapsed := sub (time_monotonic w) (_last_resolve_time self) in
  let wait_time := sub (min_delay self) elapsed in
  (ltb elapsed (min_delay self) = true /\ ltb zero (_last_resolve_time self) = true /\
   acquire self w =
     ({| min_delay := min_delay self;
         _last_resolve_time := time_monotonic (asyncio_sleep wait_time w) |},
      asyncio_sleep wait_time w,
      [EvLog LogDebug ("Rate limiting: waiting " +:+ format_2f wait_time +:+ "s");
       EvSleep wait_time])) \/
  ((ltb elapsed (min_delay self) = false \/ ltb zero (_last_resolve_time self) = false) /\
   acquire self w =
     ({| min_delay := min_delay self; _last_resolve_time := time_monotonic w |}, w, [])).
Proof.
  cbv zeta. unfold acquire.
  destruct (ltb (sub (time_monotonic w) (_last_resolve_time self)) (min_delay self));
    destruct (ltb zero (_last_resolve_time self)); simpl; auto.
Qed.


End FloatLimiter.

(** The rationals obey the assumptions on rounding: they do not round. *)
Lemma rationals_float_laws : @OnFloats.FloatLaws OnFloats.rationals.
Proof.
  split; simpl.
  - reflexivity.
  - apply Qltb_spec.
  - intros x y Hxy. unfold OnFloats.unit_roundoff. split; lra.
  - auto.
Qed.

Lemma rationals_monotonic_laws :
  @OnFloats.MonotonicLaws OnFloats.rationals Q
    (OnFloats.clock_world OnFloats.rationals Qplus).
Proof. split. simpl. intros. lra. Qed.


